(** * car-app: the loan handlers [getNextLoanPayment] and [getLoanDetails]

    A shallow embedding of the two Convex query handlers that replay a car's
    loan payments ([src/app/components/SignOutButton.tsx], lines 560-826) and
    of the parts of the JavaScript runtime they rely on.

    Modelling choices, used throughout:
    - a JavaScript [number] that holds money, a rate or a fraction of a month
      is an exact rational ([Q]); binary64 rounding error is not modelled;
    - a timestamp ([purchaseDate], [date], [Date.now()]) and [loanTerm] are
      integers ([Z]);
    - a [Date] object is its time value, [None] standing for the Invalid Date
      (time value NaN); calendar fields are read in UTC, the time zone Convex
      functions run in;
    - an optional document field is an [option]; the handlers test such
      fields for truthiness, so an absent field and a zero are both falsy.

    The second part ([Store]) embeds the other handlers of the two files,
    the queries and mutations on cars, shares, buyer accessories and
    expenses ([src/app/components/SignOutButton.tsx], lines 31-558 and
    829-1005; [src/unnamed/part_002]), over the store as lists of documents,
    and relates them to the loan handlers. *)

From Stdlib Require Import ZArith QArith Qminmax Qround Lia Lqa List Ascii
  Sorting.Sorted Sorting.Permutation DecimalString DecimalZ DecimalPos.
From stdpp Require Import base decidable option list strings gmap sorting.

#[local] Open Scope Z_scope.

(** ** JavaScript numbers *)

Module JS.

(** An optional number under a truthiness test: the value when the field is
    present and not zero, nothing when [!x] holds. *)
Definition truthyQ (x : option Q) : option Q :=
  match x with
  | Some q => if Qeq_bool q 0 then None else Some q
  | None => None
  end.

Definition truthyZ (x : option Z) : option Z :=
  match x with
  | Some z => if z =? 0 then None else Some z
  | None => None
  end.

(** [a < b] on numbers. *)
Definition Qlt_bool (a b : Q) : bool := negb (Qle_bool b a).

(** [x || 0] on an optional number. *)
Definition orZero (x : option Q) : Q :=
  match x with
  | Some q => q
  | None => 0%Q
  end.

(** [Math.round]: the nearest integer, a tie going up. *)
Definition Math_round (x : Q) : Z := Qfloor (x + (1 # 2))%Q.

(** [Math.round(x * 100) / 100]. *)
Definition roundCents (x : Q) : Q := (inject_Z (Math_round (x * 100)) / 100)%Q.

(** The decimal text of an integer, as a template literal prints it. *)
Definition numToString (z : Z) : string := NilZero.string_of_int (Z.to_int z).

(** ** Dates (ECMA-262, section 21.4.1, with LocalTZA = 0) *)

Definition msPerDay : Z := 86400000.

Definition Day (t : Z) : Z := t / msPerDay.
Definition TimeWithinDay (t : Z) : Z := t mod msPerDay.

Definition isLeap (y : Z) : bool :=
  ((y mod 4 =? 0) && negb (y mod 100 =? 0)) || (y mod 400 =? 0).

Definition DayFromYear (y : Z) : Z :=
  365 * (y - 1970) + (y - 1969) / 4 - (y - 1901) / 100 + (y - 1601) / 400.

(** The year whose first day is the last one not after day [d]: an estimate
    from the mean length of a year, moved by one where it is off. *)
Definition YearFromDay (d : Z) : Z :=
  let y := 1970 + (400 * d) / 146097 in
  if d <? DayFromYear y then y - 1
  else if DayFromYear (y + 1) <=? d then y + 1
  else y.

Definition YearFromTime (t : Z) : Z := YearFromDay (Day t).

Definition InLeapYear (t : Z) : Z := if isLeap (YearFromTime t) then 1 else 0.

Definition DayWithinYear (t : Z) : Z := Day t - DayFromYear (YearFromTime t).

(** The month (0 to 11) of day [d] of a year, [l] being 1 in a leap year. *)
Definition monthFromDay (d l : Z) : Z :=
  if d <? 31 then 0
  else if d <? 59 + l then 1
  else if d <? 90 + l then 2
  else if d <? 120 + l then 3
  else if d <? 151 + l then 4
  else if d <? 181 + l then 5
  else if d <? 212 + l then 6
  else if d <? 243 + l then 7
  else if d <? 273 + l then 8
  else if d <? 304 + l then 9
  else if d <? 334 + l then 10
  else 11.

Definition MonthFromTime (t : Z) : Z :=
  monthFromDay (DayWithinYear t) (InLeapYear t).

(** Days of the year before month [m] (0 to 11) begins. *)
Definition daysBeforeMonth (m l : Z) : Z :=
  match m with
  | 0 => 0
  | 1 => 31
  | 2 => 59 + l
  | 3 => 90 + l
  | 4 => 120 + l
  | 5 => 151 + l
  | 6 => 181 + l
  | 7 => 212 + l
  | 8 => 243 + l
  | 9 => 273 + l
  | 10 => 304 + l
  | _ => 334 + l
  end.

Definition DateFromTime (t : Z) : Z :=
  DayWithinYear t - daysBeforeMonth (MonthFromTime t) (InLeapYear t) + 1.

(** [MakeDay(year, month, date)]: months outside 0..11 carry into the year,
    and a day past the end of the month runs on into the next one. *)
Definition MakeDay (year month date : Z) : Z :=
  let ym := year + month / 12 in
  let mn := month mod 12 in
  DayFromYear ym + daysBeforeMonth mn (if isLeap ym then 1 else 0) + date - 1.

Definition MakeDate (day time : Z) : Z := day * msPerDay + time.

(** A [Date]: its time value, [None] for the Invalid Date. *)
Definition Date : Type := option Z.

Definition maxTime : Z := 8640000000000000.

Definition TimeClip (t : Z) : Date :=
  if Z.abs t <=? maxTime then Some t else None.

(** [new Date(ms)]. *)
Definition newDate (ms : Z) : Date := TimeClip ms.

(** [d.getTime()], NaN being [None]. *)
Definition getTime (d : Date) : option Z := d.

Definition getFullYear (d : Date) : option Z := YearFromTime <$> d.
Definition getMonth (d : Date) : option Z := MonthFromTime <$> d.

(** [d.setMonth(m)], returning the date [d] has become. *)
Definition setMonth (d : Date) (m : option Z) : Date :=
  match d, m with
  | Some t, Some month =>
      TimeClip (MakeDate (MakeDay (YearFromTime t) month (DateFromTime t))
                         (TimeWithinDay t))
  | _, _ => None
  end.

(** [a > b] and [a <= b] on dates: false as soon as one is invalid. *)
Definition dateGt (a b : Date) : bool :=
  match a, b with
  | Some x, Some y => y <? x
  | _, _ => false
  end.

Definition dateLe (a b : Date) : bool :=
  match a, b with
  | Some x, Some y => x <=? y
  | _, _ => false
  end.

(** A number inside a template literal. *)
Definition showNum (n : option Z) : string :=
  match n with
  | Some z => numToString z
  | None => "NaN"
  end.

End JS.

Import JS.

(** ** The documents the handlers read (schema: [cars], [carShares],
    [expenses]) *)

Definition Id : Type := string.

Record Car := mkCar {
  ownerId : Id;
  purchaseDate : option Z;
  loanAmount : option Q;
  loanTerm : option Z;
  interestRate : option Q;
  monthlyPayment : option Q;
  loanBank : option string
}.

Record CarShare := mkCarShare {
  shareCarId : Id;
  shareUserId : Id
}.

Inductive Category :=
  | fuel | maintenance | repair | insurance | registration | inspection
  | parking | tolls | accessories | loan_payment | other.

Definition Category_eqb (a b : Category) : bool :=
  match a, b with
  | fuel, fuel | maintenance, maintenance | repair, repair
  | insurance, insurance | registration, registration
  | inspection, inspection | parking, parking | tolls, tolls
  | accessories, accessories | loan_payment, loan_payment
  | other, other => true
  | _, _ => false
  end.

Record Expense := mkExpense {
  _id : Id;
  carId : Id;
  category : Category;
  amount : Q;
  date : Z;
  principalAmount : option Q;
  interestAmount : option Q
}.

(** What a handler sees: the caller's identity ([getAuthUserId]), the three
    tables, and the clock ([Date.now()], one instant per query). *)
Record Ctx := mkCtx {
  authUserId : option Id;
  cars : gmap Id Car;
  carShares : list CarShare;
  expenses : list Expense;
  now : Z
}.

Inductive QueryError :=
  | NotAuthenticated
  | CarNotFound
  | AccessDenied
  | NotUnique.

(** [.withIndex("by_car_user", ...).unique()]: the one matching share, null
    when there is none; more than one is an error. *)
Definition uniqueShare (ctx : Ctx) (car user : Id) : QueryError + option CarShare :=
  match List.filter (fun s => String.eqb (shareCarId s) car && String.eqb (shareUserId s) user)
                    (carShares ctx) with
  | [] => inr None
  | [s] => inr (Some s)
  | _ => inl NotUnique
  end.

(** The checks both handlers open with; the car comes back when they pass. *)
Definition fetchCar (ctx : Ctx) (car : Id) : QueryError + Car :=
  match authUserId ctx with
  | None => inl NotAuthenticated
  | Some userId =>
      match cars ctx !! car with
      | None => inl CarNotFound
      | Some c =>
          if String.eqb (ownerId c) userId then inr c
          else match uniqueShare ctx car userId with
               | inl e => inl e
               | inr None => inl AccessDenied
               | inr (Some _) => inr c
               end
      end
  end.

(** [.withIndex("by_car_category", ...).collect()], in table order. *)
Definition loanPaymentsOf (ctx : Ctx) (car : Id) : list Expense :=
  List.filter (fun e => String.eqb (carId e) car && Category_eqb (category e) loan_payment)
              (expenses ctx).

(** ** Sorting: [loanPayments.sort((a, b) => a.date - b.date)]

    [Array.prototype.sort] is stable; a stable sort has one possible result,
    computed here by insertion. *)

Fixpoint insertByDate (p : Expense) (l : list Expense) : list Expense :=
  match l with
  | [] => [p]
  | q :: l' => if date p <=? date q then p :: l else q :: insertByDate p l'
  end.

Definition sortByDate (l : list Expense) : list Expense :=
  List.fold_right insertByDate [] l.

(** ** The balance loop, shared word for word by the two handlers *)

(** [1000 * 60 * 60 * 24 * 30.44] *)
Definition msPerMonth : Q := (inject_Z (1000 * 60 * 60 * 24) * (3044 # 100))%Q.

(** One turn of [for (const payment of loanPayments)]; the state is
    [(currentBalance, lastPaymentDate)]. *)
Definition applyPayment (monthlyInterestRate : Q) (st : Q * Z) (payment : Expense) : Q * Z :=
  let '(currentBalance, lastPaymentDate) := st in
  let monthsElapsed := Qmax 0 (inject_Z (date payment - lastPaymentDate) / msPerMonth) in
  let interestAccrued := (currentBalance * monthlyInterestRate * monthsElapsed)%Q in
  let interestPortion := Qmin (amount payment) interestAccrued in
  let principalPortion := Qmax 0 (amount payment - interestPortion) in
  (Qmax 0 (currentBalance - principalPortion), date payment).

Definition replayPayments (monthlyInterestRate : Q) (st : Q * Z) (loanPayments : list Expense)
  : Q * Z :=
  List.fold_left (applyPayment monthlyInterestRate) loanPayments st.

(** ** The balance loop over numbers of any kind

    The loop uses of its numbers the integers, the literal [30.44], [-],
    [*], [/], [Math.max] and [Math.min], and nothing else. [Numbers N]
    gathers these for a kind of numbers [N]: the exact rationals of this
    development ([exactNumbers]), or binary64 with its rounding. *)
Record Numbers (N : Type) := mkNumbers {
  ofInteger : Z -> N;
  literal_30_44 : N;
  minus : N -> N -> N;
  times : N -> N -> N;
  dividedBy : N -> N -> N;
  maxOf : N -> N -> N;
  minOf : N -> N -> N
}.

Arguments ofInteger {N} _ _.
Arguments literal_30_44 {N} _.
Arguments minus {N} _ _ _.
Arguments times {N} _ _ _.
Arguments dividedBy {N} _ _ _.
Arguments maxOf {N} _ _ _.
Arguments minOf {N} _ _ _.

Definition exactNumbers : Numbers Q :=
  {| ofInteger := inject_Z; literal_30_44 := 3044 # 100;
     minus := Qminus; times := Qmult; dividedBy := Qdiv;
     maxOf := Qmax; minOf := Qmin |}.

(** One turn of [for (const payment of loanPayments)] on a payment given by
    its date and amount, and the whole loop. *)
Definition applyPaymentOver {N : Type} (ops : Numbers N) (monthlyInterestRate : N)
    (st : N * Z) (payment : Z * N) : N * Z :=
  let '(currentBalance, lastPaymentDate) := st in
  let '(paymentDate, paymentAmount) := payment in
  let monthsElapsed :=
    maxOf ops (ofInteger ops 0)
      (dividedBy ops (ofInteger ops (paymentDate - lastPaymentDate))
         (times ops (ofInteger ops (1000 * 60 * 60 * 24)) (literal_30_44 ops))) in
  let interestAccrued :=
    times ops (times ops currentBalance monthlyInterestRate) monthsElapsed in
  let interestPortion := minOf ops paymentAmount interestAccrued in
  let principalPortion := maxOf ops (ofInteger ops 0) (minus ops paymentAmount interestPortion) in
  (maxOf ops (ofInteger ops 0) (minus ops currentBalance principalPortion), paymentDate).

Definition replayPaymentsOver {N : Type} (ops : Numbers N) (monthlyInterestRate : N)
    (st : N * Z) (loanPayments : list (Z * N)) : N * Z :=
  List.fold_left (applyPaymentOver ops monthlyInterestRate) loanPayments st.

(** [(car.interestRate || 0) / 100 / 12] *)
Definition monthlyInterestRateOf (car : Car) : Q :=
  (orZero (interestRate car) / 100 / 12)%Q.

(** ** Month buckets *)

(** [`${d.getFullYear()}-${d.getMonth()}`] *)
Definition monthKey (d : Date) : string :=
  showNum (getFullYear d) +:+ "-" +:+ showNum (getMonth d).

(** The set built by [loanPayments.forEach(... paidMonths.add(monthKey))]. *)
Definition paidMonthsOf (loanPayments : list Expense) : gset string :=
  list_to_set (List.map (fun payment => monthKey (newDate (date payment))) loanPayments).

(** [dueDate = new Date(purchaseDate); dueDate.setMonth(dueDate.getMonth() + monthOffset)] *)
Definition dueDateOf (purchase : Date) (monthOffset : Z) : Date :=
  setMonth purchase ((fun m => m + monthOffset) <$> getMonth purchase).

(** [for (monthOffset = ...; monthOffset <= loanTerm; monthOffset++)], leaving
    at the first month without a payment; [turns] is the number of turns the
    loop has left. *)
Fixpoint firstUnpaid (paidMonths : gset string) (purchase : Date)
    (monthOffset : Z) (turns : nat) : option (Date * Z) :=
  match turns with
  | O => None
  | S turns' =>
      let dueDate := dueDateOf purchase monthOffset in
      if bool_decide (monthKey dueDate ∈ paidMonths)
      then firstUnpaid paidMonths purchase (monthOffset + 1) turns'
      else Some (dueDate, monthOffset)
  end.

Definition findNextDue (paidMonths : gset string) (purchase : Date) (term : Z)
  : option (Date * Z) :=
  firstUnpaid paidMonths purchase 1 (Z.to_nat term).

(** [reduce((sum, payment) => sum + f(payment), 0)] *)
Definition sumOf (f : Expense -> Q) (l : list Expense) : Q :=
  List.fold_left (fun sum payment => (sum + f payment)%Q) l 0%Q.

(** ** [getNextLoanPayment] *)

Module NextLoanPayment.
Record t := mk {
  nextDueDate : option Z;
  monthlyPayment : Q;
  amountDue : Q;
  paidThisPeriod : Q;
  remainingBalance : Q;
  paymentNumber : Z;
  isOverdue : bool
}.
End NextLoanPayment.

(** [{ isPaidOff: true }], or [{ isPaidOff: false, ... }] with its fields. *)
Inductive NextLoanPaymentResult :=
  | PaidOff
  | NotPaidOff (r : NextLoanPayment.t).

(** [const currentPeriodStart = new Date(nextDueDate);
     currentPeriodStart.setMonth(currentPeriodStart.getMonth() - 1)] *)
Definition periodStartOf (nextDueDate : Date) : Date :=
  setMonth nextDueDate ((fun m => m - 1) <$> getMonth nextDueDate).

Definition inPeriod (currentPeriodStart nextDueDate : Date) (payment : Expense) : bool :=
  let paymentDate := newDate (date payment) in
  dateGt paymentDate currentPeriodStart && dateLe paymentDate nextDueDate.

(** The handler's body once the car and its loan payments are fetched;
    [None] is the [null] result. *)
Definition nextLoanPayment (car : Car) (fetched : list Expense) (now : Z)
  : option NextLoanPaymentResult :=
  match truthyQ (loanAmount car), truthyQ (monthlyPayment car),
        truthyZ (purchaseDate car), truthyZ (loanTerm car) with
  | Some loanAmount, Some monthlyPayment, Some purchaseDate, Some loanTerm =>
      let loanPayments := sortByDate fetched in
      let '(currentBalance, _) :=
        replayPayments (monthlyInterestRateOf car) (loanAmount, purchaseDate) loanPayments in
      let remainingBalance := roundCents currentBalance in
      if Qle_bool remainingBalance (1 # 100) then Some PaidOff
      else
        let paidMonths := paidMonthsOf loanPayments in
        match findNextDue paidMonths (newDate purchaseDate) loanTerm with
        | None => Some PaidOff
        | Some (nextDueDate, paymentNumber) =>
            let currentPeriodStart := periodStartOf nextDueDate in
            let paymentsThisPeriod :=
              List.filter (inPeriod currentPeriodStart nextDueDate) loanPayments in
            let paidThisPeriod := sumOf amount paymentsThisPeriod in
            let amountDue :=
              if Qlt_bool remainingBalance monthlyPayment
              then Qmax 0 (remainingBalance - paidThisPeriod)
              else Qmax 0 (monthlyPayment - paidThisPeriod) in
            let isOverdue := dateGt (newDate now) nextDueDate in
            Some (NotPaidOff
              {| NextLoanPayment.nextDueDate := getTime nextDueDate;
                 NextLoanPayment.monthlyPayment := monthlyPayment;
                 NextLoanPayment.amountDue := roundCents amountDue;
                 NextLoanPayment.paidThisPeriod := roundCents paidThisPeriod;
                 NextLoanPayment.remainingBalance := remainingBalance;
                 NextLoanPayment.paymentNumber := paymentNumber;
                 NextLoanPayment.isOverdue := isOverdue |})
        end
  | _, _, _, _ => None
  end.

Definition getNextLoanPayment (ctx : Ctx) (car : Id)
  : QueryError + option NextLoanPaymentResult :=
  match fetchCar ctx car with
  | inl e => inl e
  | inr c => inr (nextLoanPayment c (loanPaymentsOf ctx car) (now ctx))
  end.

(** ** [getLoanDetails] *)

Module LoanDetails.
Record payment := mkPayment {
  _id : Id;
  date : Z;
  amount : Q;
  principalAmount : Q;
  interestAmount : Q
}.

Record t := mk {
  originalLoanAmount : Q;
  loanTerm : Z;
  interestRate : Q;
  monthlyPayment : Q;
  loanBank : option string;
  totalPaid : Q;
  totalPrincipal : Q;
  totalInterest : Q;
  remainingBalance : Q;
  isPaidOff : bool;
  monthsEarly : Z;
  nextPaymentDate : option (option Z);
  isOverdue : bool;
  payments : list payment
}.
End LoanDetails.

(** [(scheduledEndDate.getFullYear() - lastPaymentDate.getFullYear()) * 12
     + (scheduledEndDate.getMonth() - lastPaymentDate.getMonth())], clamped
    at zero, when the last payment is before the scheduled end. *)
Definition monthsEarlyOf (lastPaymentDate scheduledEndDate : Date) : Z :=
  match lastPaymentDate, scheduledEndDate with
  | Some l, Some e =>
      if l <? e
      then Z.max 0 ((YearFromTime e - YearFromTime l) * 12
                    + (MonthFromTime e - MonthFromTime l))
      else 0
  | _, _ => 0
  end.

Definition loanDetails (car : Car) (fetched : list Expense) (now : Z)
  : option LoanDetails.t :=
  match truthyQ (loanAmount car), truthyQ (monthlyPayment car),
        truthyZ (loanTerm car) with
  | Some loanAmount, Some monthlyPayment, Some loanTerm =>
      let loanPayments := sortByDate fetched in
      let totalPaid := sumOf amount loanPayments in
      let totalPrincipal := sumOf (fun payment => orZero (principalAmount payment)) loanPayments in
      let totalInterest := sumOf (fun payment => orZero (interestAmount payment)) loanPayments in
      let start := match truthyZ (purchaseDate car) with
                   | Some d => d
                   | None => now
                   end in
      let monthlyInterestRate := monthlyInterestRateOf car in
      let '(currentBalance, lastPaymentDate) :=
        replayPayments monthlyInterestRate (loanAmount, start) loanPayments in
      let currentDate := now in
      let monthsElapsed := Qmax 0 (inject_Z (currentDate - lastPaymentDate) / msPerMonth) in
      let accruedInterestSinceLastPayment :=
        (currentBalance * monthlyInterestRate * monthsElapsed)%Q in
      let remainingBalance := roundCents (currentBalance + accruedInterestSinceLastPayment) in
      let isPaidOff := Qle_bool remainingBalance (1 # 100) in
      let monthsEarly :=
        match isPaidOff, truthyZ (purchaseDate car) with
        | true, Some purchaseDate =>
            let purchase := newDate purchaseDate in
            let lastPaid := match List.last (Some <$> loanPayments) None with
                            | Some payment => newDate (date payment)
                            | None => newDate now
                            end in
            let scheduledEndDate :=
              setMonth purchase ((fun m => m + loanTerm) <$> getMonth purchase) in
            monthsEarlyOf lastPaid scheduledEndDate
        | _, _ => 0
        end in
      let next :=
        match isPaidOff, truthyZ (purchaseDate car) with
        | false, Some purchaseDate =>
            findNextDue (paidMonthsOf loanPayments) (newDate purchaseDate) loanTerm
        | _, _ => None
        end in
      Some {| LoanDetails.originalLoanAmount := loanAmount;
              LoanDetails.loanTerm := loanTerm;
              LoanDetails.interestRate := orZero (interestRate car);
              LoanDetails.monthlyPayment := monthlyPayment;
              LoanDetails.loanBank := loanBank car;
              LoanDetails.totalPaid := roundCents totalPaid;
              LoanDetails.totalPrincipal := roundCents totalPrincipal;
              LoanDetails.totalInterest := roundCents totalInterest;
              LoanDetails.remainingBalance := Qmax 0 remainingBalance;
              LoanDetails.isPaidOff := isPaidOff;
              LoanDetails.monthsEarly := monthsEarly;
              LoanDetails.nextPaymentDate :=
                (fun '(dueDate, _) => getTime dueDate) <$> next;
              LoanDetails.isOverdue :=
                match next with
                | Some (dueDate, _) => dateGt (newDate now) dueDate
                | None => false
                end;
              LoanDetails.payments :=
                List.map (fun payment =>
                  {| LoanDetails._id := _id payment;
                     LoanDetails.date := date payment;
                     LoanDetails.amount := roundCents (amount payment);
                     LoanDetails.principalAmount := roundCents (orZero (principalAmount payment));
                     LoanDetails.interestAmount := roundCents (orZero (interestAmount payment)) |})
                  loanPayments |}
  | _, _, _ => None
  end.

Definition getLoanDetails (ctx : Ctx) (car : Id) : QueryError + option LoanDetails.t :=
  match fetchCar ctx car with
  | inl e => inl e
  | inr c => inr (loanDetails c (loanPaymentsOf ctx car) (now ctx))
  end.

(** ** The projector as the specification words it (section 4.1) *)

Module Spec.

(** 30.44 days in milliseconds *)
Definition avgMonth : Q := ((3044 # 100) * inject_Z (24 * 60 * 60 * 1000))%Q.

Definition monthsElapsed (paymentDate lastDate : Z) : Q :=
  Qmax 0 (inject_Z (paymentDate - lastDate) / avgMonth).

Definition interestAccrued (currentBalance monthlyInterestRate months : Q) : Q :=
  (currentBalance * monthlyInterestRate * months)%Q.

(** Steps 1 to 6, over payments given as (date, amount) in the order they
    are to be applied; the result is the balance and the last date. *)
Fixpoint project (currentBalance : Q) (lastDate : Z) (monthlyInterestRate : Q)
    (payments : list (Z * Q)) : Q * Z :=
  match payments with
  | [] => (currentBalance, lastDate)
  | (paymentDate, paymentAmount) :: rest =>
      let months := monthsElapsed paymentDate lastDate in
      let accrued := interestAccrued currentBalance monthlyInterestRate months in
      let interestPortion := Qmin paymentAmount accrued in
      let principalPortion := Qmax 0 (paymentAmount - interestPortion) in
      project (Qmax 0 (currentBalance - principalPortion)) paymentDate
              monthlyInterestRate rest
  end.

(** Section 4.2: the installment that is charged, the last one being capped
    to what is owed. *)
Definition effectivePayment (remainingBalance monthlyPayment : Q) : Q :=
  if Qlt_bool remainingBalance monthlyPayment then remainingBalance else monthlyPayment.

(** The sum of the payments with [currentPeriodStart < date <= dueDate]. *)
Fixpoint paidThisPeriod (currentPeriodStart dueDate : Date) (payments : list (Z * Q)) : Q :=
  match payments with
  | [] => 0%Q
  | (paymentDate, paymentAmount) :: rest =>
      if dateGt (newDate paymentDate) currentPeriodStart
         && dateLe (newDate paymentDate) dueDate
      then (paymentAmount + paidThisPeriod currentPeriodStart dueDate rest)%Q
      else paidThisPeriod currentPeriodStart dueDate rest
  end.

Definition amountDue (remainingBalance monthlyPayment paid : Q) : Q :=
  Qmax 0 (effectivePayment remainingBalance monthlyPayment - paid).

(** The same steps over numbers of any kind ([Numbers]). *)
Definition avgMonthOver {N : Type} (ops : Numbers N) : N :=
  times ops (ofInteger ops (24 * 60 * 60 * 1000)) (literal_30_44 ops).

Definition monthsElapsedOver {N : Type} (ops : Numbers N) (paymentDate lastDate : Z) : N :=
  maxOf ops (ofInteger ops 0)
    (dividedBy ops (ofInteger ops (paymentDate - lastDate)) (avgMonthOver ops)).

Definition interestAccruedOver {N : Type} (ops : Numbers N)
    (currentBalance monthlyInterestRate months : N) : N :=
  times ops (times ops currentBalance monthlyInterestRate) months.

Fixpoint projectOver {N : Type} (ops : Numbers N) (currentBalance : N) (lastDate : Z)
    (monthlyInterestRate : N) (payments : list (Z * N)) : N * Z :=
  match payments with
  | [] => (currentBalance, lastDate)
  | (paymentDate, paymentAmount) :: rest =>
      let months := monthsElapsedOver ops paymentDate lastDate in
      let accrued := interestAccruedOver ops currentBalance monthlyInterestRate months in
      let interestPortion := minOf ops paymentAmount accrued in
      let principalPortion :=
        maxOf ops (ofInteger ops 0) (minus ops paymentAmount interestPortion) in
      projectOver ops (maxOf ops (ofInteger ops 0) (minus ops currentBalance principalPortion))
                  paymentDate monthlyInterestRate rest
  end.

End Spec.

(** The (date, amount) pairs of a list of payments. *)
Definition datedAmounts (l : list Expense) : list (Z * Q) :=
  List.map (fun payment => (date payment, amount payment)) l.

(** ** Orders on payments and a test on key text *)

(** Ascending date order, and its strict version. *)
Definition byDate (a b : Expense) : Prop := date a <= date b.
Definition beforeDate (a b : Expense) : Prop := date a < date b.

(** The payments of date [d], in list order. *)
Definition paymentsOn (d : Z) (l : list Expense) : list Expense :=
  List.filter (fun e => date e =? d) l.

(** Some payment of the list falls in the year and month of [dueDate]. *)
Definition paidInMonthOf (loanPayments : list Expense) (dueDate : Date) : Prop :=
  exists payment, In payment loanPayments
    /\ getFullYear (newDate (date payment)) = getFullYear dueDate
    /\ getMonth (newDate (date payment)) = getMonth dueDate.

(** Whether a text holds the separator of a month key. *)
Fixpoint hasDash (s : string) : bool :=
  match s with
  | EmptyString => false
  | String c s' => Ascii.eqb c "-"%char || hasDash s'
  end.

(** A field that fails the handlers' truthiness test: absent, or zero. *)
Definition unsetQ (x : option Q) : Prop :=
  match x with
  | Some q => (q == 0)%Q
  | None => True
  end.

Definition unsetZ (x : option Z) : Prop :=
  match x with
  | Some z => z = 0
  | None => True
  end.

(** ** Worked inputs *)

Module Ex.

(** 2024-01-15T00:00:00Z *)
Definition T0 : Z := 1705276800000.

Definition days (n : Z) : Z := n * msPerDay.

(** A 20000 loan over 60 months at 6 percent, 400 a month, bought at [T0]. *)
Definition car0 : Car :=
  mkCar "user1" (Some T0) (Some 20000%Q) (Some 60) (Some 6%Q) (Some 400%Q) None.

Definition pay (d : Z) (a : Q) : Expense :=
  mkExpense "expense" "car1" loan_payment a d None None.

Definition ctxOf (c : Car) (l : list Expense) (t : Z) : Ctx :=
  mkCtx (Some "user1") {["car1" := c]} [] l t.

(** [car0] with a loan amount of zero: every loan field is present. *)
Definition carZero : Car :=
  mkCar "user1" (Some T0) (Some 0%Q) (Some 60) (Some 6%Q) (Some 400%Q) None.

(** [car0] with a single installment. *)
Definition carOneMonth : Car :=
  mkCar "user1" (Some T0) (Some 20000%Q) (Some 1) (Some 6%Q) (Some 400%Q) None.

(** [car0] over twelve months. *)
Definition car12 : Car :=
  mkCar "user1" (Some T0) (Some 20000%Q) (Some 12) (Some 6%Q) (Some 400%Q) None.

(** Payments of March 20, February 10 and April 5, 2024, in that order. *)
Definition threeMonths : list Expense :=
  [pay (T0 + days 65) 400; pay (T0 + days 26) 400; pay (T0 + days 81) 400].

(** One average month after [T0]. *)
Definition T1 : Z := T0 + 2630016000.

(** 2023-01-31T00:00:00Z, and a car bought that day. *)
Definition Jan31 : Z := 1675123200000.

Definition carJan31 : Car :=
  mkCar "user1" (Some Jan31) (Some 20000%Q) (Some 12) (Some 6%Q) (Some 400%Q) None.

(** 2023-03-05T07:06:40Z *)
Definition Mar5 : Z := 1678000000000.

End Ex.

(** ** Proof steps *)

(** Case on the first comparison [a <? b] of the goal. *)
Ltac split_ltb :=
  match goal with
  | |- context [?a <? ?b] => destruct (Z.ltb_spec a b)
  end.

(** * The store and its other handlers

    The documents in full, and the handlers of the two files beside the loan
    queries. A table is the list of its documents in creation order; an index
    query with all its fields fixed returns them in that order. A mutation
    returns the store it leaves, or what it threw (a mutation that throws
    leaves the store as it was). The id a new document gets is allotted by
    the store and is an argument here. System fields other than [_id] are
    left out. Amounts are exact rationals, as in the first part; a sum is
    stated as the handler takes it, term by term in its order, and sums
    taken in another order are compared by inequalities. *)

Module Store.

(** What a handler throws: [new Error(message)], the error of [unique()] on
    more than one document, or a [TypeError] on reading a property of
    [undefined]. *)
Inductive Thrown :=
  | Error (message : string)
  | NotUniqueError
  | TypeError.

Definition Result (A : Type) : Type := (Thrown + A)%type.

Definition andThen {A B : Type} (r : Result A) (k : A -> Result B) : Result B :=
  match r with
  | inl e => inl e
  | inr a => k a
  end.

Notation "'do' x <- r ; k" := (andThen r (fun x => k))
  (at level 10, x pattern, r at level 100, k at level 200).

(** ** Documents *)

Inductive Role := owner | shared.

Record UserDoc := mkUser {
  user_id : Id;
  user_name : option string;
  email : option string;
  phone : option string;
  image : option string;
  emailVerificationTime : option Z;
  phoneVerificationTime : option Z;
  isAnonymous : option bool
}.

Record BasicInfo := mkBasic {
  make : string;
  model : string;
  trim : option string;
  year : Q;
  nickname : option string;
  vin : option string;
  color : option string
}.

Record Package := mkPackage {
  package_name : string;
  package_price : Q;
  package_features : option (list string)
}.

Record DealerAccessory := mkDealerAccessory {
  dealer_name : string;
  dealer_price : Q
}.

Record Fee := mkFee {
  fee_name : string;
  fee_amount : Q
}.

Inductive PaymentKind := by_check | by_credit_card | by_cash | by_other.

Record DownPayment := mkDownPayment {
  dp_type : PaymentKind;
  dp_amount : Q;
  dp_description : option string
}.

Record Salesperson := mkSalesperson {
  sp_name : string;
  sp_dealership : string;
  sp_address : string;
  sp_phone : option string;
  sp_email : option string
}.

Record PurchaseInfo := mkPurchase {
  purchaseMileage : option Q;
  baseMsrp : option Q;
  baseMsrpFeatures : option (list string);
  optionalPackages : option (list Package);
  destinationDelivery : option Q;
  dealershipAccessories : option (list DealerAccessory);
  actualPurchasePrice : option Q;
  discount : option Q;
  dealershipFees : option (list Fee);
  downPayments : option (list DownPayment);
  tradeInValue : option Q;
  tradeInVehicle : option string;
  tradeInMake : option string;
  tradeInModel : option string;
  tradeInTrim : option string;
  tradeInYear : option Q;
  tradeInVin : option string;
  tradeInMileage : option Q;
  salesperson : option Salesperson
}.

Record Accessory := mkAccessory {
  acc_name : string;
  acc_price : Q;
  acc_dateAdded : Z
}.

Record BuyerInfo := mkBuyerInfo {
  businessName : option string;
  personName : option string;
  phoneNumber : option string;
  buyer_email : option string
}.

Record SaleInfo := mkSale {
  salePrice : option Q;
  saleMileage : option Q;
  buyerInfo : option BuyerInfo
}.

Record TotalLossInfo := mkTotalLoss {
  totalLossDate : option Z;
  totalLossMileage : option Q;
  insuranceCompany : option string;
  claimNumber : option string;
  insurancePayout : option Q;
  accidentDescription : option string
}.

Record ArchiveInfo := mkArchive {
  isArchived : option bool;
  archivedAt : option Z;
  archivedReason : option string
}.

(** A document of [cars]: [loan] holds the owner, the purchase date and the
    loan fields, as the loan queries read them; the other fields follow the
    sections of the schema. *)
Record CarDoc := mkCarDoc {
  car_id : Id;
  loan : Car;
  basic : BasicInfo;
  purchase : PurchaseInfo;
  buyerAccessories : option (list Accessory);
  sale : SaleInfo;
  totalLoss : TotalLossInfo;
  archive : ArchiveInfo;
  createdAt : Z;
  updatedAt : Z
}.

Record ShareDoc := mkShare {
  share_id : Id;
  share : CarShare;
  role : Role;
  sharedAt : Z;
  sharedBy : Id
}.

(** A document of [expenses]: [base] holds the fields the loan queries
    read. *)
Record ExpenseDoc := mkExpenseDoc {
  base : Expense;
  recordedBy : Id;
  description : string;
  subcategory : option string;
  mileage : option Q;
  location : option string;
  vendor : option string;
  receiptId : option Id;
  expenseCreatedAt : Z
}.

Record Db := mkDb {
  users : list UserDoc;
  cars : list CarDoc;
  carShares : list ShareDoc;
  expenses : list ExpenseDoc
}.

(** ** Tables *)

(** [ctx.db.get(id)] *)
Definition getBy {A : Type} (idOf : A -> Id) (table : list A) (id : Id) : option A :=
  List.find (fun d => String.eqb (idOf d) id) table.

(** [ctx.db.patch(id, ...)] and [ctx.db.delete(id)], on the document [get]
    finds. *)
Fixpoint patchBy {A : Type} (idOf : A -> Id) (id : Id) (f : A -> A) (table : list A)
  : list A :=
  match table with
  | [] => []
  | d :: rest =>
      if String.eqb (idOf d) id then f d :: rest
      else d :: patchBy idOf id f rest
  end.

Fixpoint deleteBy {A : Type} (idOf : A -> Id) (id : Id) (table : list A) : list A :=
  match table with
  | [] => []
  | d :: rest =>
      if String.eqb (idOf d) id then rest
      else d :: deleteBy idOf id rest
  end.

(** [.unique()] *)
Definition uniqueOf {A : Type} (found : list A) : Result (option A) :=
  match found with
  | [] => inr None
  | [d] => inr (Some d)
  | _ => inl NotUniqueError
  end.

(** A patch leaves a field alone when its key is absent from the patch. *)
Definition orKeep {A : Type} (given old : option A) : option A :=
  match given with
  | Some v => Some v
  | None => old
  end.

Definition expenseId (e : ExpenseDoc) : Id := _id (base e).

Definition setCars (db : Db) (l : list CarDoc) : Db :=
  mkDb (users db) l (carShares db) (expenses db).
Definition setShares (db : Db) (l : list ShareDoc) : Db :=
  mkDb (users db) (cars db) l (expenses db).
Definition setExpenses (db : Db) (l : list ExpenseDoc) : Db :=
  mkDb (users db) (cars db) (carShares db) l.

(** ** The checks the handlers open with *)

Definition requireUser (auth : option Id) : Result Id :=
  match auth with
  | Some userId => inr userId
  | None => inl (Error "Not authenticated")
  end.

Definition requireCar (db : Db) (carId : Id) : Result CarDoc :=
  match getBy car_id (cars db) carId with
  | Some car => inr car
  | None => inl (Error "Car not found")
  end.

(** [.withIndex("by_car_user", q => q.eq("carId", c).eq("userId", u))] *)
Definition sharesByCarUser (db : Db) (carId userId : Id) : list ShareDoc :=
  List.filter (fun s => String.eqb (shareCarId (share s)) carId
                        && String.eqb (shareUserId (share s)) userId)
              (carShares db).

(** [car.ownerId === userId || await ...unique()], then
    [if (!hasAccess) throw new Error("Access denied")]. *)
Definition requireAccess (db : Db) (car : CarDoc) (carId userId : Id) : Result unit :=
  if String.eqb (ownerId (loan car)) userId then inr tt
  else
    do found <- uniqueOf (sharesByCarUser db carId userId);
    match found with
    | Some _ => inr tt
    | None => inl (Error "Access denied")
    end.

Definition carWithAccess (db : Db) (auth : option Id) (carId : Id) : Result (Id * CarDoc) :=
  do userId <- requireUser auth;
  do car <- requireCar db carId;
  do _ <- requireAccess db car carId userId;
  inr (userId, car).

(** [if (car.ownerId !== userId) throw new Error(message)] *)
Definition carAsOwner (db : Db) (auth : option Id) (carId : Id) (message : string)
  : Result (Id * CarDoc) :=
  do userId <- requireUser auth;
  do car <- requireCar db carId;
  if String.eqb (ownerId (loan car)) userId then inr (userId, car)
  else inl (Error message).

(** ** Queries on cars *)

(** An entry of [getUserCars]: [{ ...car, isShared, shareRole }]. *)
Record ListedCar := mkListed {
  listed : CarDoc;
  isShared : bool;
  shareRole : Role
}.

Definition flagEqb (a b : option bool) : bool :=
  match a, b with
  | None, None => true
  | Some x, Some y => Bool.eqb x y
  | _, _ => false
  end.

(** [!car.isArchived] is false exactly when the flag is set and true. *)
Definition archived (car : CarDoc) : bool :=
  match isArchived (archive car) with
  | Some true => true
  | _ => false
  end.

(** [.withIndex("by_owner_active", q => q.eq("ownerId", u).eq("isArchived", a))],
    [undefined] matching the cars without the field. *)
Definition carsByOwnerActive (db : Db) (userId : Id) (flag : option bool) : list CarDoc :=
  List.filter (fun car => String.eqb (ownerId (loan car)) userId
                          && flagEqb (isArchived (archive car)) flag)
              (cars db).

Definition sharesByUser (db : Db) (userId : Id) : list ShareDoc :=
  List.filter (fun s => String.eqb (shareUserId (share s)) userId) (carShares db).

Definition sharesByCar (db : Db) (carId : Id) : list ShareDoc :=
  List.filter (fun s => String.eqb (shareCarId (share s)) carId) (carShares db).

(** [l.filter(Boolean)] on a list of documents and nulls. *)
Fixpoint nonNull {A : Type} (l : list (option A)) : list A :=
  match l with
  | [] => []
  | Some x :: rest => x :: nonNull rest
  | None :: rest => nonNull rest
  end.

(** The shared cars a user sees: for each share, the car when it is there
    and not archived. *)
Definition sharedCarOf (db : Db) (s : ShareDoc) : option CarDoc :=
  match getBy car_id (cars db) (shareCarId (share s)) with
  | Some car => if archived car then None else Some car
  | None => None
  end.

Definition getUserCars (db : Db) (auth : option Id) : Result (list ListedCar) :=
  do userId <- requireUser auth;
  let ownedCars := carsByOwnerActive db userId None in
  let sharedCarIds := sharesByUser db userId in
  let sharedCars :=
    List.map (fun s => (fun car => mkListed car true (role s)) <$> sharedCarOf db s)
             sharedCarIds in
  inr (List.map (fun car => mkListed car false owner) ownedCars ++ nonNull sharedCars).

Definition getCar (db : Db) (auth : option Id) (carId : Id) : Result CarDoc :=
  do (_, car) <- carWithAccess db auth carId;
  inr car.

Definition getArchivedCars (db : Db) (auth : option Id) : Result (list CarDoc) :=
  do userId <- requireUser auth;
  inr (carsByOwnerActive db userId (Some true)).

Definition getAvailableCarsForTradeIn (db : Db) (auth : option Id) (excludeCarId : Id)
  : Result (list CarDoc) :=
  do userId <- requireUser auth;
  inr (List.filter (fun car => negb (String.eqb (car_id car) excludeCarId))
                   (carsByOwnerActive db userId None)).

(** [getCarUsers]: the owner first, when the user document is there, then
    the user of each share of the car. *)
Definition getCarUsers (db : Db) (auth : option Id) (carId : Id)
  : Result (list (UserDoc * Role)) :=
  do (_, car) <- carWithAccess db auth carId;
  let ownerDoc := getBy user_id (users db) (ownerId (loan car)) in
  let first := match ownerDoc with
               | Some u => [(u, owner)]
               | None => []
               end in
  let shares := sharesByCar db carId in
  inr (first ++ nonNull (List.map (fun s =>
         (fun u => (u, role s)) <$> getBy user_id (users db) (shareUserId (share s)))
       shares)).

(** ** Mutations on cars *)

Definition noPurchase : PurchaseInfo :=
  mkPurchase None None None None None None None None None None None None None None None
             None None None None.
Definition noSale : SaleInfo := mkSale None None None.
Definition noTotalLoss : TotalLossInfo := mkTotalLoss None None None None None None.
Definition notArchived : ArchiveInfo := mkArchive None None None.

(** In-place changes of a car document. *)
Definition withLoan (car : CarDoc) (l : Car) (now : Z) : CarDoc :=
  mkCarDoc (car_id car) l (basic car) (purchase car) (buyerAccessories car)
           (sale car) (totalLoss car) (archive car) (createdAt car) now.
Definition withBasic (car : CarDoc) (b : BasicInfo) (now : Z) : CarDoc :=
  mkCarDoc (car_id car) (loan car) b (purchase car) (buyerAccessories car)
           (sale car) (totalLoss car) (archive car) (createdAt car) now.
Definition withAccessories (car : CarDoc) (l : list Accessory) (now : Z) : CarDoc :=
  mkCarDoc (car_id car) (loan car) (basic car) (purchase car) (Some l)
           (sale car) (totalLoss car) (archive car) (createdAt car) now.
Definition withArchive (car : CarDoc) (reason : string) (now : Z) : CarDoc :=
  mkCarDoc (car_id car) (loan car) (basic car) (purchase car) (buyerAccessories car)
           (sale car) (totalLoss car) (mkArchive (Some true) (Some now) (Some reason))
           (createdAt car) now.

Definition patchCar (db : Db) (carId : Id) (f : CarDoc -> CarDoc) : Db :=
  setCars db (patchBy car_id carId f (cars db)).

Definition createCar (db : Db) (auth : option Id) (now : Z) (newId : Id)
    (make model : string) (trim : option string) (year : Q) (nickname : option string)
  : Result (Db * Id) :=
  do userId <- requireUser auth;
  let car :=
    mkCarDoc newId (mkCar userId None None None None None None)
             (mkBasic make model trim year nickname None None)
             noPurchase None noSale noTotalLoss notArchived now now in
  inr (setCars db (cars db ++ [car]), newId).

Definition updateCarBasicInfo (db : Db) (auth : option Id) (now : Z) (carId : Id)
    (make model : string) (trim : option string) (year : Q)
    (nickname vin color : option string) : Result Db :=
  do _ <- carWithAccess db auth carId;
  inr (patchCar db carId (fun car =>
         withBasic car
           (mkBasic make model (orKeep trim (Store.trim (basic car))) year
                    (orKeep nickname (Store.nickname (basic car)))
                    (orKeep vin (Store.vin (basic car)))
                    (orKeep color (Store.color (basic car))))
           now)).

(** The arguments of [updateCarPurchaseDetails] other than the car. *)
Record PurchaseArgs := mkPurchaseArgs {
  given_purchaseDate : option Z;
  given_purchaseMileage : option Q;
  given_baseMsrp : option Q;
  given_baseMsrpFeatures : option (list string);
  given_optionalPackages : option (list Package);
  given_destinationDelivery : option Q;
  given_dealershipAccessories : option (list DealerAccessory);
  given_actualPurchasePrice : option Q;
  given_discount : option Q;
  given_dealershipFees : option (list Fee);
  given_downPayments : option (list DownPayment);
  given_tradeInValue : option Q;
  given_tradeInMake : option string;
  given_tradeInModel : option string;
  given_tradeInTrim : option string;
  given_tradeInYear : option Q;
  given_tradeInVin : option string;
  given_tradeInMileage : option Q;
  given_salesperson : option Salesperson
}.

Definition patchPurchase (a : PurchaseArgs) (car : CarDoc) (now : Z) : CarDoc :=
  let l := loan car in
  let p := purchase car in
  mkCarDoc (car_id car)
    (mkCar (ownerId l) (orKeep (given_purchaseDate a) (purchaseDate l))
           (loanAmount l) (loanTerm l) (interestRate l) (monthlyPayment l) (loanBank l))
    (basic car)
    (mkPurchase
      (orKeep (given_purchaseMileage a) (purchaseMileage p))
      (orKeep (given_baseMsrp a) (baseMsrp p))
      (orKeep (given_baseMsrpFeatures a) (baseMsrpFeatures p))
      (orKeep (given_optionalPackages a) (optionalPackages p))
      (orKeep (given_destinationDelivery a) (destinationDelivery p))
      (orKeep (given_dealershipAccessories a) (dealershipAccessories p))
      (orKeep (given_actualPurchasePrice a) (actualPurchasePrice p))
      (orKeep (given_discount a) (discount p))
      (orKeep (given_dealershipFees a) (dealershipFees p))
      (orKeep (given_downPayments a) (downPayments p))
      (orKeep (given_tradeInValue a) (tradeInValue p))
      (tradeInVehicle p)
      (orKeep (given_tradeInMake a) (tradeInMake p))
      (orKeep (given_tradeInModel a) (tradeInModel p))
      (orKeep (given_tradeInTrim a) (tradeInTrim p))
      (orKeep (given_tradeInYear a) (tradeInYear p))
      (orKeep (given_tradeInVin a) (tradeInVin p))
      (orKeep (given_tradeInMileage a) (tradeInMileage p))
      (orKeep (given_salesperson a) (salesperson p)))
    (buyerAccessories car) (sale car) (totalLoss car) (archive car) (createdAt car) now.

Definition updateCarPurchaseDetails (db : Db) (auth : option Id) (now : Z) (carId : Id)
    (a : PurchaseArgs) : Result Db :=
  do _ <- carAsOwner db auth carId "Only the owner can update purchase details";
  inr (patchCar db carId (fun car => patchPurchase a car now)).

(** The arguments of [updateCarLoanDetails] other than the car. *)
Record LoanArgs := mkLoanArgs {
  given_loanAmount : option Q;
  given_loanTerm : option Z;
  given_interestRate : option Q;
  given_monthlyPayment : option Q;
  given_loanBank : option string
}.

Definition patchLoan (a : LoanArgs) (l : Car) : Car :=
  mkCar (ownerId l) (purchaseDate l)
        (orKeep (given_loanAmount a) (loanAmount l))
        (orKeep (given_loanTerm a) (loanTerm l))
        (orKeep (given_interestRate a) (interestRate l))
        (orKeep (given_monthlyPayment a) (monthlyPayment l))
        (orKeep (given_loanBank a) (loanBank l)).

Definition updateCarLoanDetails (db : Db) (auth : option Id) (now : Z) (carId : Id)
    (a : LoanArgs) : Result Db :=
  do _ <- carAsOwner db auth carId "Only the owner can update loan details";
  inr (patchCar db carId (fun car => withLoan car (patchLoan a (loan car)) now)).

Definition archiveCar (db : Db) (auth : option Id) (now : Z) (carId : Id) (reason : string)
  : Result Db :=
  do _ <- carAsOwner db auth carId "Only the owner can archive this car";
  inr (patchCar db carId (fun car => withArchive car reason now)).

Definition markCarAsTotaled (db : Db) (auth : option Id) (now : Z) (carId : Id)
    (lossDate : Z) (lossMileage : Q) (company claim : option string)
    (payout : option Q) (accident : option string) : Result Db :=
  do _ <- carAsOwner db auth carId "Only the owner can mark this car as totaled";
  inr (patchCar db carId (fun car =>
         mkCarDoc (car_id car) (loan car) (basic car) (purchase car) (buyerAccessories car)
                  (sale car)
                  (mkTotalLoss (Some lossDate) (Some lossMileage) company claim payout accident)
                  (mkArchive (Some true) (Some now) (Some "totaled"))
                  (createdAt car) now)).

Definition markCarAsSold (db : Db) (auth : option Id) (now : Z) (carId : Id)
    (price mileage : Q) (buyer : BuyerInfo) : Result Db :=
  do _ <- carAsOwner db auth carId "Only the owner can mark this car as sold";
  inr (patchCar db carId (fun car =>
         mkCarDoc (car_id car) (loan car) (basic car) (purchase car) (buyerAccessories car)
                  (mkSale (Some price) (Some mileage) (Some buyer))
                  (totalLoss car)
                  (mkArchive (Some true) (Some now) (Some "sold"))
                  (createdAt car) now)).

(** [.withIndex("email", q => q.eq("email", userEmail))] *)
Definition usersByEmail (db : Db) (userEmail : string) : list UserDoc :=
  List.filter (fun u => match email u with
                        | Some e => String.eqb e userEmail
                        | None => false
                        end)
              (users db).

Definition shareCar (db : Db) (auth : option Id) (now : Z) (newId : Id)
    (carId : Id) (userEmail : string) : Result Db :=
  do (userId, _) <- carAsOwner db auth carId "Only the owner can share this car";
  do targetUser <- uniqueOf (usersByEmail db userEmail);
  match targetUser with
  | None => inl (Error "User not found")
  | Some target =>
      do existingShare <- uniqueOf (sharesByCarUser db carId (user_id target));
      match existingShare with
      | Some _ => inl (Error "Car is already shared with this user")
      | None =>
          inr (setShares db
                 (carShares db
                  ++ [mkShare newId (mkCarShare carId (user_id target)) shared now userId]))
      end
  end.

Definition unshareCar (db : Db) (auth : option Id) (carId userId : Id) : Result Db :=
  do _ <- carAsOwner db auth carId "Only the owner can unshare this car";
  do found <- uniqueOf (sharesByCarUser db carId userId);
  match found with
  | Some s => inr (setShares db (deleteBy share_id (share_id s) (carShares db)))
  | None => inr db
  end.

(** ** Expenses *)

(** [.withIndex("by_car", q => q.eq("carId", c))] *)
Definition expensesByCar (db : Db) (car : Id) : list ExpenseDoc :=
  List.filter (fun e => String.eqb (carId (base e)) car) (expenses db).

(** [.withIndex("by_car_category", q => q.eq("carId", c).eq("category", k))] *)
Definition expensesByCarCategory (db : Db) (car : Id) (k : Category) : list ExpenseDoc :=
  List.filter (fun e => String.eqb (carId (base e)) car
                        && Category_eqb (category (base e)) k)
              (expenses db).

(** A stable sort, ascending on an integer key. *)
Fixpoint insertOn {A : Type} (key : A -> Z) (x : A) (l : list A) : list A :=
  match l with
  | [] => [x]
  | y :: l' => if key x <=? key y then x :: l else y :: insertOn key x l'
  end.

Definition sortOn {A : Type} (key : A -> Z) (l : list A) : list A :=
  List.fold_right (insertOn key) [] l.

Definition expenseDate (e : ExpenseDoc) : Z := date (base e).

(** [.withIndex("by_car_date", q => q.eq("carId", c)).order("desc")]: by
    date, then by creation, backwards. *)
Definition getCarExpenses (db : Db) (auth : option Id) (car : Id)
  : Result (list ExpenseDoc) :=
  do _ <- carWithAccess db auth car;
  inr (List.rev (sortOn expenseDate (expensesByCar db car))).

Definition categoryName (k : Category) : string :=
  match k with
  | fuel => "fuel"
  | maintenance => "maintenance"
  | repair => "repair"
  | insurance => "insurance"
  | registration => "registration"
  | inspection => "inspection"
  | parking => "parking"
  | tolls => "tolls"
  | accessories => "accessories"
  | loan_payment => "loan_payment"
  | other => "other"
  end.

(** [expenses.reduce((sum, expense) => sum + expense.amount, 0)]: the amounts
    are added one by one, in the order of the list. *)
Definition sumAmounts (l : list ExpenseDoc) : Q :=
  List.fold_left (fun sum e => (sum + amount (base e))%Q) l 0%Q.

(** [downPayments.reduce((sum, payment) => sum + payment.amount, 0)] *)
Definition sumDownPayments (l : list DownPayment) : Q :=
  List.fold_left (fun sum p => (sum + dp_amount p)%Q) l 0%Q.

(** [categoryTotals[c] = (categoryTotals[c] || 0) + expense.amount] *)
Definition addToCategory (totals : gmap string Q) (e : ExpenseDoc) : gmap string Q :=
  let k := categoryName (category (base e)) in
  <[k := (orZero (totals !! k) + amount (base e))%Q]> totals.

Record ExpenseSummary := mkSummary {
  totalExpenses : Q;
  categoryTotals : gmap string Q;
  expenseCount : nat
}.

Definition downPaymentsTotalOf (car : CarDoc) : Q :=
  match downPayments (purchase car) with
  | Some l => sumDownPayments l
  | None => 0%Q
  end.

Definition getExpenseSummary (db : Db) (auth : option Id) (car : Id)
  : Result ExpenseSummary :=
  do (_, carDoc) <- carWithAccess db auth car;
  let found := expensesByCar db car in
  let total := sumAmounts found in
  let downPaymentsTotal := downPaymentsTotalOf carDoc in
  let totals := List.fold_left addToCategory found ∅ in
  let totals := if Qlt_bool 0 downPaymentsTotal
                then <["down_payments" := downPaymentsTotal]> totals
                else totals in
  inr (mkSummary (total + downPaymentsTotal)%Q totals (length found)).

Definition addExpense (db : Db) (auth : option Id) (now : Z) (newId : Id)
    (car : Id) (k : Category) (amt : Q) (descr : string) (when : Z)
    (miles : option Q) (place : option string) (principal interest : option Q)
  : Result (Db * Id) :=
  do (userId, _) <- carWithAccess db auth car;
  let doc := mkExpenseDoc (mkExpense newId car k amt when principal interest)
                          userId descr None miles place None None now in
  inr (setExpenses db (expenses db ++ [doc]), newId).

(** The expense, with the user, once the checks of [updateExpense] and
    [deleteExpense] pass. *)
Definition expenseWithAccess (db : Db) (auth : option Id) (id : Id) : Result ExpenseDoc :=
  do userId <- requireUser auth;
  match getBy expenseId (expenses db) id with
  | None => inl (Error "Expense not found")
  | Some e =>
      do car <- requireCar db (carId (base e));
      do _ <- requireAccess db car (carId (base e)) userId;
      inr e
  end.

Definition updateExpense (db : Db) (auth : option Id) (id : Id)
    (k : Category) (amt : Q) (descr : string) (when : Z)
    (miles : option Q) (place : option string) : Result Db :=
  do _ <- expenseWithAccess db auth id;
  inr (setExpenses db
         (patchBy expenseId id
            (fun e =>
               mkExpenseDoc
                 (mkExpense (_id (base e)) (carId (base e)) k amt when
                            (principalAmount (base e)) (interestAmount (base e)))
                 (recordedBy e) descr (subcategory e) miles place (vendor e)
                 (receiptId e) (expenseCreatedAt e))
            (expenses db))).

Definition deleteExpense (db : Db) (auth : option Id) (id : Id) : Result Db :=
  do _ <- expenseWithAccess db auth id;
  inr (setExpenses db (deleteBy expenseId id (expenses db))).

(** The categories [getExpensesByCategory] accepts: all but [inspection]. *)
Inductive QueryCategory :=
  | q_fuel | q_maintenance | q_repair | q_insurance | q_registration
  | q_parking | q_tolls | q_accessories | q_loan_payment | q_other.

Definition toCategory (k : QueryCategory) : Category :=
  match k with
  | q_fuel => fuel
  | q_maintenance => maintenance
  | q_repair => repair
  | q_insurance => insurance
  | q_registration => registration
  | q_parking => parking
  | q_tolls => tolls
  | q_accessories => accessories
  | q_loan_payment => loan_payment
  | q_other => other
  end.

Definition getExpensesByCategory (db : Db) (auth : option Id) (car : Id)
    (k : QueryCategory) : Result (list ExpenseDoc) :=
  do _ <- carWithAccess db auth car;
  inr (List.rev (expensesByCarCategory db car (toCategory k))).

Record UserTotal := mkUserTotal {
  userTotalExpenses : Q;
  carCount : nat
}.

(** The cars [getTotalUserExpenses] goes through: owned and active, then
    shared and not archived. *)
Definition carsOfUser (db : Db) (userId : Id) : list CarDoc :=
  carsByOwnerActive db userId None
  ++ nonNull (List.map (sharedCarOf db) (sharesByUser db userId)).

(** One turn of [for (const car of allCars)]; the state is
    [(totalExpenses, totalDownPayments)]. *)
Definition addCarTotals (db : Db) (st : Q * Q) (car : CarDoc) : Q * Q :=
  let '(total, down) := st in
  let total := (total + sumAmounts (expensesByCar db (car_id car)))%Q in
  match downPayments (purchase car) with
  | Some l => (total, (down + sumDownPayments l)%Q)
  | None => (total, down)
  end.

Definition getTotalUserExpenses (db : Db) (auth : option Id) : Result UserTotal :=
  do userId <- requireUser auth;
  let allCars := carsOfUser db userId in
  let '(total, down) := List.fold_left (addCarTotals db) allCars (0%Q, 0%Q) in
  inr (mkUserTotal (total + down)%Q (length allCars)).

(** ** Buyer accessories *)

(** [`Buyer accessory: ${name}`] *)
Definition accessoryDescription (name : string) : string :=
  "Buyer accessory: " +:+ name.

(** [car.buyerAccessories || []] *)
Definition accessoriesOf (car : CarDoc) : list Accessory :=
  match buyerAccessories car with
  | Some l => l
  | None => []
  end.

Definition addBuyerAccessory (db : Db) (auth : option Id) (now : Z) (newId : Id)
    (car : Id) (name : string) (price : Q) (dateAdded : Z) : Result Db :=
  do (userId, carDoc) <- carWithAccess db auth car;
  let currentAccessories := accessoriesOf carDoc in
  let newAccessory := mkAccessory name price dateAdded in
  let db := patchCar db car (fun c =>
              withAccessories c (currentAccessories ++ [newAccessory]) now) in
  let doc := mkExpenseDoc
               (mkExpense newId car accessories price dateAdded None None)
               userId (accessoryDescription name) None None None None None now in
  inr (setExpenses db (expenses db ++ [doc])).

(** [index < 0 || index >= length] *)
Definition invalidIndex (index : Q) (len : nat) : bool :=
  Qlt_bool index 0 || Qle_bool (inject_Z (Z.of_nat len)) index.

(** The position a number denotes in an array, when it is a whole number. *)
Definition asIndex (index : Q) : option nat :=
  if Qeq_bool index (inject_Z (Qfloor index))
  then Some (Z.to_nat (Qfloor index))
  else None.

(** The expenses recorded for an accessory of that name, and the one of
    them [expenses.sort((a, b) => b.date - a.date)[0]] picks. *)
Definition accessoryExpenses (db : Db) (car : Id) (name : string) : list ExpenseDoc :=
  List.filter (fun e => String.eqb (description e) (accessoryDescription name))
              (expensesByCarCategory db car accessories).

Definition latestFirst (l : list ExpenseDoc) : list ExpenseDoc :=
  sortOn (fun e => - expenseDate e) l.

Definition updateBuyerAccessory (db : Db) (auth : option Id) (now : Z)
    (car : Id) (accessoryIndex : Q) (name : string) (price : Q) (dateAdded : Z)
  : Result Db :=
  do (_, carDoc) <- carWithAccess db auth car;
  let currentAccessories := accessoriesOf carDoc in
  if invalidIndex accessoryIndex (length currentAccessories)
  then inl (Error "Invalid accessory index")
  else
    match asIndex accessoryIndex with
    | None => inl TypeError
    | Some i =>
        match currentAccessories !! i with
        | None => inl TypeError
        | Some oldAccessory =>
            let updatedAccessories :=
              <[i := mkAccessory name price dateAdded]> currentAccessories in
            let db := patchCar db car (fun c => withAccessories c updatedAccessories now) in
            match latestFirst (accessoryExpenses db car (acc_name oldAccessory)) with
            | [] => inr db
            | expenseToUpdate :: _ =>
                inr (setExpenses db
                       (patchBy expenseId (expenseId expenseToUpdate)
                          (fun e =>
                             mkExpenseDoc
                               (mkExpense (_id (base e)) (carId (base e))
                                          (category (base e)) price dateAdded
                                          (principalAmount (base e))
                                          (interestAmount (base e)))
                               (recordedBy e) (accessoryDescription name)
                               (subcategory e) (mileage e) (location e) (vendor e)
                               (receiptId e) (expenseCreatedAt e))
                          (expenses db)))
            end
        end
    end.

(** [currentAccessories.filter((_, index) => index !== i)] *)
Definition dropAt {A : Type} (i : nat) (l : list A) : list A :=
  firstn i l ++ skipn (S i) l.

Definition removeBuyerAccessory (db : Db) (auth : option Id) (now : Z)
    (car : Id) (accessoryIndex : Q) : Result Db :=
  do (_, carDoc) <- carWithAccess db auth car;
  let currentAccessories := accessoriesOf carDoc in
  if invalidIndex accessoryIndex (length currentAccessories)
  then inl (Error "Invalid accessory index")
  else
    match asIndex accessoryIndex with
    | None => inl TypeError
    | Some i =>
        match currentAccessories !! i with
        | None => inl TypeError
        | Some accessoryToRemove =>
            let updatedAccessories := dropAt i currentAccessories in
            let db := patchCar db car (fun c => withAccessories c updatedAccessories now) in
            match latestFirst (accessoryExpenses db car (acc_name accessoryToRemove)) with
            | [] => inr db
            | expenseToRemove :: _ =>
                inr (setExpenses db
                       (deleteBy expenseId (expenseId expenseToRemove) (expenses db)))
            end
        end
    end.

(** ** The mutations as one interface *)

(** A call of one of the mutations of the two files, with its arguments. *)
Inductive Mutation :=
  | CreateCar (make model : string) (trim : option string) (year : Q)
              (nickname : option string)
  | UpdateCarBasicInfo (carId : Id) (make model : string) (trim : option string)
                       (year : Q) (nickname vin color : option string)
  | UpdateCarPurchaseDetails (carId : Id) (a : PurchaseArgs)
  | UpdateCarLoanDetails (carId : Id) (a : LoanArgs)
  | ArchiveCar (carId : Id) (reason : string)
  | MarkCarAsTotaled (carId : Id) (lossDate : Z) (lossMileage : Q)
                     (company claim : option string) (payout : option Q)
                     (accident : option string)
  | MarkCarAsSold (carId : Id) (price mileage : Q) (buyer : BuyerInfo)
  | ShareCar (carId : Id) (userEmail : string)
  | UnshareCar (carId userId : Id)
  | AddBuyerAccessory (carId : Id) (name : string) (price : Q) (dateAdded : Z)
  | UpdateBuyerAccessory (carId : Id) (accessoryIndex : Q) (name : string) (price : Q)
                         (dateAdded : Z)
  | RemoveBuyerAccessory (carId : Id) (accessoryIndex : Q)
  | AddExpense (carId : Id) (k : Category) (amt : Q) (descr : string) (when : Z)
               (miles : option Q) (place : option string) (principal interest : option Q)
  | UpdateExpense (id : Id) (k : Category) (amt : Q) (descr : string) (when : Z)
                  (miles : option Q) (place : option string)
  | DeleteExpense (id : Id).

(** The store a call leaves, for the user [auth] at time [now]; [newId] is
    the id the store allots should the call insert a document. *)
Definition run (db : Db) (auth : option Id) (now : Z) (newId : Id) (m : Mutation)
  : Result Db :=
  match m with
  | CreateCar make model trim year nickname =>
      do (db', _) <- createCar db auth now newId make model trim year nickname;
      inr db'
  | UpdateCarBasicInfo carId make model trim year nickname vin color =>
      updateCarBasicInfo db auth now carId make model trim year nickname vin color
  | UpdateCarPurchaseDetails carId a => updateCarPurchaseDetails db auth now carId a
  | UpdateCarLoanDetails carId a => updateCarLoanDetails db auth now carId a
  | ArchiveCar carId reason => archiveCar db auth now carId reason
  | MarkCarAsTotaled carId lossDate lossMileage company claim payout accident =>
      markCarAsTotaled db auth now carId lossDate lossMileage company claim payout accident
  | MarkCarAsSold carId price mileage buyer =>
      markCarAsSold db auth now carId price mileage buyer
  | ShareCar carId userEmail => shareCar db auth now newId carId userEmail
  | UnshareCar carId userId => unshareCar db auth carId userId
  | AddBuyerAccessory carId name price dateAdded =>
      addBuyerAccessory db auth now newId carId name price dateAdded
  | UpdateBuyerAccessory carId accessoryIndex name price dateAdded =>
      updateBuyerAccessory db auth now carId accessoryIndex name price dateAdded
  | RemoveBuyerAccessory carId accessoryIndex =>
      removeBuyerAccessory db auth now carId accessoryIndex
  | AddExpense carId k amt descr when miles place principal interest =>
      do (db', _) <- addExpense db auth now newId carId k amt descr when miles place
                                principal interest;
      inr db'
  | UpdateExpense id k amt descr when miles place =>
      updateExpense db auth id k amt descr when miles place
  | DeleteExpense id => deleteExpense db auth id
  end.

(** An id the store may allot: one no document has. *)
Definition fresh (db : Db) (id : Id) : Prop :=
  ~ In id (List.map car_id (cars db))
  /\ ~ In id (List.map share_id (carShares db))
  /\ ~ In id (List.map expenseId (expenses db)).

(** The stores the application can be in: no cars, shares or expenses to
    begin with, then any successful call; the table of users is kept by the
    authentication library and may change at any time. *)
Inductive reachable : Db -> Prop :=
  | reach_init (us : list UserDoc) : reachable (mkDb us [] [] [])
  | reach_users (db : Db) (us : list UserDoc) :
      reachable db -> reachable (mkDb us (cars db) (carShares db) (expenses db))
  | reach_run (db db' : Db) (auth : option Id) (now : Z) (newId : Id) (m : Mutation) :
      reachable db -> fresh db newId -> run db auth now newId m = inr db' ->
      reachable db'.

(** ** The store as the loan queries see it *)

Definition ctxOf (db : Db) (auth : option Id) (now : Z) : Ctx :=
  mkCtx auth
        (list_to_map (List.map (fun car => (car_id car, loan car)) (cars db)))
        (List.map share (carShares db))
        (List.map base (expenses db))
        now.

End Store.

(** ** What holds of a store the application has built *)

(** The error of the loan queries for what the shared checks throw. *)
Definition asQueryError (t : Store.Thrown) : QueryError :=
  match t with
  | Store.Error m =>
      if String.eqb m "Not authenticated" then NotAuthenticated
      else if String.eqb m "Car not found" then CarNotFound
      else AccessDenied
  | Store.NotUniqueError => NotUnique
  | Store.TypeError => NotUnique
  end.

(** A car has been changed, not replaced: same id, owner and creation time,
    and still archived if it was. *)
Definition carKept (c c' : Store.CarDoc) : Prop :=
  Store.car_id c' = Store.car_id c
  /\ ownerId (Store.loan c') = ownerId (Store.loan c)
  /\ Store.createdAt c' = Store.createdAt c
  /\ (Store.archived c = true -> Store.archived c' = true)
  /\ (Store.isArchived (Store.archive c) <> Some false ->
      Store.isArchived (Store.archive c') <> Some false).

(** Ids are not shared within a table. *)
Definition distinctIds (db : Store.Db) : Prop :=
  NoDup (List.map Store.car_id (Store.cars db))
  /\ NoDup (List.map Store.share_id (Store.carShares db))
  /\ NoDup (List.map Store.expenseId (Store.expenses db)).

(** A share is of an existing car, was made by its owner, and has the role
    [shared]. *)
Definition shareSound (db : Store.Db) (s : Store.ShareDoc) : Prop :=
  Store.role s = Store.shared
  /\ exists c, Store.getBy Store.car_id (Store.cars db) (shareCarId (Store.share s)) = Some c
               /\ ownerId (Store.loan c) = Store.sharedBy s.

Definition expenseSound (db : Store.Db) (e : Store.ExpenseDoc) : Prop :=
  exists c, Store.getBy Store.car_id (Store.cars db) (carId (Store.base e)) = Some c.

Definition wellFormed (db : Store.Db) : Prop :=
  distinctIds db
  /\ NoDup (List.map Store.share (Store.carShares db))
  /\ Forall (fun c => Store.isArchived (Store.archive c) <> Some false) (Store.cars db)
  /\ Forall (shareSound db) (Store.carShares db)
  /\ Forall (expenseSound db) (Store.expenses db).

(** [l.reduce((sum, x) => sum + x, 0)] *)
Definition sumQ (l : list Q) : Q := List.fold_left Qplus l 0%Q.

(** What only the owner may change of a car: the loan and purchase fields,
    the sale, the total loss and the archive state. *)
Definition ownerPart (c : Store.CarDoc)
  : Car * Store.PurchaseInfo * Store.SaleInfo * Store.TotalLossInfo * Store.ArchiveInfo :=
  (Store.loan c, Store.purchase c, Store.sale c, Store.totalLoss c, Store.archive c).

(** The car a call archives, for the three calls that archive one. *)
Definition archives (m : Store.Mutation) : option Id :=
  match m with
  | Store.ArchiveCar carId _ => Some carId
  | Store.MarkCarAsTotaled carId _ _ _ _ _ _ => Some carId
  | Store.MarkCarAsSold carId _ _ _ => Some carId
  | _ => None
  end.

(** ** A worked store *)

Module StoreEx.

Import Store.

Definition alice : UserDoc :=
  mkUser "u1" (Some "Alice") (Some "alice@example.com") None None None None None.
Definition bob : UserDoc :=
  mkUser "u2" (Some "Bob") (Some "bob@example.com") None None None None None.
Definition carol : UserDoc :=
  mkUser "u3" (Some "Carol") (Some "carol@example.com") None None None None None.

(** The store a call leaves, or the store as it was when the call throws. *)
Definition after (db : Db) (user : Id) (now : Z) (newId : Id) (m : Mutation) : Db :=
  match run db (Some user) now newId m with
  | inr db' => db'
  | inl _ => db
  end.

Definition purchased : PurchaseArgs :=
  mkPurchaseArgs (Some Ex.T0) None None None None None None None None None
                 (Some [mkDownPayment by_cash 2000 None]) None None None None None None
                 None None.

Definition financed : LoanArgs :=
  mkLoanArgs (Some 20000%Q) (Some 60) (Some 6%Q) (Some 400%Q) None.

Definition db0 : Db := mkDb [alice; bob; carol] [] [] [].

(** Alice creates a car, enters its purchase and its loan, shares it with
    Bob; Bob records fuel, Alice a loan payment and a roof rack. *)
Definition db1 : Db :=
  after db0 "u1" Ex.T0 "c1" (CreateCar "Honda" "Civic" None 2020 (Some "Daily")).
Definition db2 : Db :=
  after db1 "u1" (Ex.T0 + 1) "n2" (UpdateCarPurchaseDetails "c1" purchased).
Definition db3 : Db :=
  after db2 "u1" (Ex.T0 + 2) "n3" (UpdateCarLoanDetails "c1" financed).
Definition db4 : Db :=
  after db3 "u1" (Ex.T0 + 3) "s1" (ShareCar "c1" "bob@example.com").
Definition db5 : Db :=
  after db4 "u2" (Ex.T0 + Ex.days 3) "e1"
        (AddExpense "c1" fuel 40 "Fuel" (Ex.T0 + Ex.days 3) None None None None).
Definition db6 : Db :=
  after db5 "u1" (Ex.T0 + Ex.days 31) "e2"
        (AddExpense "c1" loan_payment 400 "January" (Ex.T0 + Ex.days 31) None None
                    None None).
Definition db7 : Db :=
  after db6 "u1" (Ex.T0 + Ex.days 32) "e3"
        (AddBuyerAccessory "c1" "Roof rack" 300 (Ex.T0 + Ex.days 10)).

(** A car without interest: 1200 over 12 months, 100 a month. *)
Definition carNoInterest : Car :=
  mkCar "u1" (Some Ex.T0) (Some 1200%Q) (Some 12) None (Some 100%Q) None.

End StoreEx.

(** * Properties *)

(** ** The calendar *)

Lemma YearFromDay_spec d :
  DayFromYear (YearFromDay d) <= d < DayFromYear (YearFromDay d + 1).
Proof.
  unfold YearFromDay, DayFromYear.
  repeat case_match; rewrite ?Z.ltb_lt, ?Z.ltb_ge, ?Z.leb_le, ?Z.leb_gt in *;
  Z.div_mod_to_equations; lia.
Qed.

Section Calendar.

Lemma DayFromYear_succ y :
  DayFromYear (y + 1) = DayFromYear y + (if isLeap y then 366 else 365).
Proof.
  unfold DayFromYear, isLeap.
  repeat case_match; rewrite ?andb_true_iff, ?andb_false_iff, ?orb_true_iff, ?orb_false_iff,
    ?negb_true_iff, ?negb_false_iff, ?Z.eqb_eq, ?Z.eqb_neq in *;
  Z.div_mod_to_equations; lia.
Qed.

Lemma DayFromYear_mono y y' : y <= y' -> DayFromYear y <= DayFromYear y'.
Proof. unfold DayFromYear. intros H. Z.div_mod_to_equations. lia. Qed.

Lemma YearFromDay_unique d y :
  DayFromYear y <= d < DayFromYear (y + 1) -> YearFromDay d = y.
Proof.
  intros H. pose proof (YearFromDay_spec d) as H'.
  destruct (Z.lt_trichotomy (YearFromDay d) y) as [Hlt|[E|Hgt]]; [|exact E|].
  - pose proof (DayFromYear_mono (YearFromDay d + 1) y). lia.
  - pose proof (DayFromYear_mono (y + 1) (YearFromDay d)). lia.
Qed.

End Calendar.

Section Fields.

Lemma DayWithinYear_range t :
  0 <= DayWithinYear t < 365 + InLeapYear t.
Proof.
  unfold DayWithinYear, InLeapYear, YearFromTime.
  pose proof (YearFromDay_spec (Day t)) as H.
  rewrite DayFromYear_succ in H. destruct (isLeap _); lia.
Qed.

Lemma months_cases m : 0 <= m < 12 ->
  m = 0 \/ m = 1 \/ m = 2 \/ m = 3 \/ m = 4 \/ m = 5 \/ m = 6
  \/ m = 7 \/ m = 8 \/ m = 9 \/ m = 10 \/ m = 11.
Proof. lia. Qed.

Lemma monthFromDay_start d l :
  0 <= d -> daysBeforeMonth (monthFromDay d l) l <= d.
Proof.
  intros H. unfold monthFromDay.
  repeat (split_ltb; [cbn [daysBeforeMonth]; lia|]). cbn [daysBeforeMonth]. lia.
Qed.

Lemma monthFromDay_end d l :
  (l = 0 \/ l = 1) -> d < 365 + l -> d - daysBeforeMonth (monthFromDay d l) l < 31.
Proof.
  intros Hl H. unfold monthFromDay.
  repeat (split_ltb; [cbn [daysBeforeMonth]; lia|]). cbn [daysBeforeMonth]. lia.
Qed.

Lemma monthFromDay_of_month m l dt :
  0 <= m < 12 -> (l = 0 \/ l = 1) -> 1 <= dt <= 28 ->
  0 <= daysBeforeMonth m l + dt - 1 < 365
  /\ monthFromDay (daysBeforeMonth m l + dt - 1) l = m.
Proof.
  intros Hm Hl Hdt.
  destruct (months_cases m Hm) as [->|[->|[->|[->|[->|[->|[->|[->|[->|[->|[->| ->]]]]]]]]]]];
    cbn [daysBeforeMonth]; (split; [lia|]); unfold monthFromDay;
    repeat (split_ltb; try lia); reflexivity.
Qed.

Lemma InLeapYear_cases t : InLeapYear t = 0 \/ InLeapYear t = 1.
Proof. unfold InLeapYear. destruct (isLeap _); lia. Qed.

Lemma DateFromTime_range t : 1 <= DateFromTime t <= 31.
Proof.
  pose proof (DayWithinYear_range t) as H.
  pose proof (InLeapYear_cases t) as Hl.
  unfold DateFromTime, MonthFromTime.
  pose proof (monthFromDay_start (DayWithinYear t) (InLeapYear t)).
  pose proof (monthFromDay_end (DayWithinYear t) (InLeapYear t)).
  lia.
Qed.

Lemma Day_MakeDate day time :
  0 <= time < msPerDay -> Day (MakeDate day time) = day.
Proof.
  unfold Day, MakeDate, msPerDay. intros H. Z.div_mod_to_equations. lia.
Qed.

Lemma TimeWithinDay_range t : 0 <= TimeWithinDay t < msPerDay.
Proof. unfold TimeWithinDay, msPerDay. Z.div_mod_to_equations. lia. Qed.

(** A day of the month that every month has lands in the month asked for. *)
Lemma MakeDay_fields year month dt time :
  1 <= dt <= 28 -> 0 <= time < msPerDay ->
  let u := MakeDate (MakeDay year month dt) time in
  YearFromTime u = year + month / 12
  /\ MonthFromTime u = month mod 12
  /\ DateFromTime u = dt.
Proof.
  intros Hdt Htime u.
  assert (Hday : Day u = MakeDay year month dt) by now apply Day_MakeDate.
  unfold MakeDay in Hday.
  set (ym := year + month / 12) in *. set (mn := month mod 12) in *.
  assert (Hmn : 0 <= mn < 12) by (subst mn; Z.div_mod_to_equations; lia).
  set (l := if isLeap ym then 1 else 0) in *.
  assert (Hl : l = 0 \/ l = 1) by (subst l; destruct (isLeap ym); lia).
  destruct (monthFromDay_of_month mn l dt Hmn Hl Hdt) as [Hrange Hmonth].
  assert (Hy : YearFromTime u = ym).
  { unfold YearFromTime. apply YearFromDay_unique.
    rewrite DayFromYear_succ. destruct (isLeap ym); lia. }
  split; [exact Hy|].
  assert (Hleap : InLeapYear u = l) by (unfold InLeapYear; now rewrite Hy).
  assert (Hd : DayWithinYear u = daysBeforeMonth mn l + dt - 1)
    by (unfold DayWithinYear; rewrite Hy; lia).
  assert (Hm : MonthFromTime u = mn)
    by (unfold MonthFromTime; now rewrite Hd, Hleap).
  split; [exact Hm|].
  unfold DateFromTime. rewrite Hm, Hd, Hleap. lia.
Qed.

End Fields.

Section DueDates.

(** Bought on a day every month has, installment [k] falls due in the
    [k]-th calendar month after the purchase, on the same day. *)
Lemma dueDateOf_fields pd k u :
  DateFromTime pd <= 28 ->
  dueDateOf (newDate pd) k = Some u ->
  YearFromTime u = YearFromTime pd + (MonthFromTime pd + k) / 12
  /\ MonthFromTime u = (MonthFromTime pd + k) mod 12
  /\ DateFromTime u = DateFromTime pd.
Proof.
  intros Hday. unfold dueDateOf, newDate, TimeClip.
  destruct (Z.abs pd <=? maxTime); [|discriminate].
  simpl. unfold TimeClip. destruct (Z.abs _ <=? maxTime); [|discriminate].
  intros [= <-]. apply MakeDay_fields.
  - pose proof (DateFromTime_range pd). lia.
  - apply TimeWithinDay_range.
Qed.

Lemma dueDateOf_month_index pd k u :
  DateFromTime pd <= 28 ->
  dueDateOf (newDate pd) k = Some u ->
  YearFromTime u * 12 + MonthFromTime u
  = YearFromTime pd * 12 + MonthFromTime pd + k.
Proof.
  intros Hday Hu. destruct (dueDateOf_fields pd k u Hday Hu) as (-> & -> & _).
  Z.div_mod_to_equations. lia.
Qed.

End DueDates.

(** 2000-02-29, 2023-12-31T23:59:59.999 and the last millisecond of 1969. *)
Example ex_known_dates :
  (YearFromTime 951782400000, MonthFromTime 951782400000, DateFromTime 951782400000)
    = (2000, 1, 29)
  /\ (YearFromTime 1704067199999, MonthFromTime 1704067199999, DateFromTime 1704067199999)
    = (2023, 11, 31)
  /\ (YearFromTime (-1), MonthFromTime (-1), DateFromTime (-1)) = (1969, 11, 31).
Proof. repeat split; reflexivity. Qed.

(** January 31 set to February runs on to March 3; set to March it is
    March 31. *)
Example ex_setMonth_rolls_over :
  setMonth (newDate Ex.Jan31) (Some 1) = Some 1677801600000
  /\ (MonthFromTime 1677801600000, DateFromTime 1677801600000) = (2, 3)
  /\ setMonth (newDate Ex.Jan31) (Some 2) = Some 1680220800000
  /\ (MonthFromTime 1680220800000, DateFromTime 1680220800000) = (2, 31).
Proof. repeat split; reflexivity. Qed.

Example ex_monthKey :
  monthKey (newDate Ex.T0) = "2024-0" /\ monthKey None = "NaN-NaN".
Proof. split; reflexivity. Qed.

(** ** Sorting *)

Section Sorting.

Lemma insertByDate_perm p l : Permutation (p :: l) (insertByDate p l).
Proof.
  induction l as [|q l IH]; simpl; [reflexivity|].
  destruct (date p <=? date q); [reflexivity|].
  rewrite perm_swap. now apply perm_skip.
Qed.

Lemma sortByDate_perm l : Permutation l (sortByDate l).
Proof.
  induction l as [|p l IH]; simpl; [constructor|].
  rewrite <- insertByDate_perm. now apply perm_skip.
Qed.

Lemma insertByDate_sorted p l :
  StronglySorted byDate l -> StronglySorted byDate (insertByDate p l).
Proof.
  induction 1 as [|q l Hs IH Hq]; simpl.
  - repeat constructor.
  - destruct (date p <=? date q) eqn:E.
    + apply Z.leb_le in E. constructor; [now constructor|].
      constructor; [exact E|].
      eapply List.Forall_impl; [|exact Hq]. unfold byDate. intros; simpl in *; lia.
    + apply Z.leb_gt in E. constructor; [exact IH|].
      rewrite <- insertByDate_perm. constructor; [unfold byDate; lia | exact Hq].
Qed.

Lemma sortByDate_sorted l : StronglySorted byDate (sortByDate l).
Proof.
  induction l as [|p l IH]; simpl; [constructor|]. now apply insertByDate_sorted.
Qed.

(** The sort is stable: payments of one same date keep the order they had. *)
Lemma insertByDate_same_date d p l :
  List.filter (fun e => date e =? d) (insertByDate p l)
  = List.filter (fun e => date e =? d) (p :: l).
Proof.
  induction l as [|q l IH]; [reflexivity|].
  cbn [insertByDate]. destruct (Z.leb_spec (date p) (date q)) as [Hle|Hgt]; [reflexivity|].
  cbn [List.filter] in *. rewrite IH.
  destruct (Z.eqb_spec (date p) d) as [Hp|Hp], (Z.eqb_spec (date q) d) as [Hq|Hq];
    try reflexivity.
  lia.
Qed.

Lemma sortByDate_stable d l : paymentsOn d (sortByDate l) = paymentsOn d l.
Proof.
  unfold paymentsOn. induction l as [|p l IH]; [reflexivity|].
  cbn [sortByDate List.fold_right]. rewrite insertByDate_same_date.
  cbn [List.filter]. fold (sortByDate l). now rewrite IH.
Qed.

Lemma sorted_distinct_strict l :
  StronglySorted byDate l -> NoDup (List.map date l) -> StronglySorted beforeDate l.
Proof.
  induction 1 as [|q l Hs IH Hq]; simpl; intros Hnd; [constructor|].
  apply NoDup_cons in Hnd as [Hnotin Hnd].
  constructor; [now apply IH|].
  rewrite List.Forall_forall in Hq |- *. intros x Hx.
  specialize (Hq x Hx). unfold byDate, beforeDate in *.
  assert (date q <> date x); [|lia].
  intros E. apply Hnotin. rewrite E. apply list_elem_of_In. now apply in_map.
Qed.

#[local] Instance beforeDate_antisymm : AntiSymm (=) beforeDate.
Proof. intros a b; unfold beforeDate; lia. Qed.

Lemma sortByDate_unique l1 l2 :
  Permutation l1 l2 -> NoDup (List.map date l1) -> sortByDate l1 = sortByDate l2.
Proof.
  intros Hp Hnd.
  assert (Hnd1 : NoDup (List.map date (sortByDate l1))).
  { now rewrite <- (Permutation_map date (sortByDate_perm l1)). }
  assert (Hnd2 : NoDup (List.map date (sortByDate l2))).
  { rewrite <- (Permutation_map date (sortByDate_perm l2)).
    now rewrite <- (Permutation_map date Hp). }
  apply (StronglySorted_unique beforeDate).
  - apply sorted_distinct_strict; [apply sortByDate_sorted | exact Hnd1].
  - apply sorted_distinct_strict; [apply sortByDate_sorted | exact Hnd2].
  - rewrite <- !sortByDate_perm. exact Hp.
Qed.

Lemma insertByDate_last p s q :
  date p <= date q -> insertByDate p (s ++ [q]) = insertByDate p s ++ [q].
Proof.
  intros H. induction s as [|a s IH]; simpl.
  - apply Z.leb_le in H. now rewrite H.
  - destruct (date p <=? date a); [reflexivity|]. now rewrite IH.
Qed.

Lemma sortByDate_snoc l q :
  (forall p, In p l -> date p <= date q) -> sortByDate (l ++ [q]) = sortByDate l ++ [q].
Proof.
  induction l as [|a l IH]; intros H; simpl; [reflexivity|].
  rewrite IH by (intros; apply H; now right).
  apply insertByDate_last. apply H. now left.
Qed.

End Sorting.

(** ** What the sorted list depends on *)

Section Stable.

Lemma on_head_sorted (a : Expense) (l : list Expense) (x : Expense) :
  StronglySorted byDate (a :: l) -> In x (paymentsOn (date x) (a :: l)) -> date a <= date x.
Proof.
  intros Hs Hin. apply StronglySorted_inv in Hs as [_ Hall].
  apply List.filter_In in Hin as [[<-|Hin] _]; [lia|].
  rewrite List.Forall_forall in Hall. now apply Hall.
Qed.

(** Two lists in date order that agree date by date are equal. *)
Lemma sorted_same_dates_eq (l1 l2 : list Expense) :
  StronglySorted byDate l1 -> StronglySorted byDate l2 ->
  (forall d, paymentsOn d l1 = paymentsOn d l2) -> l1 = l2.
Proof.
  revert l2. induction l1 as [|a l1 IH]; intros [|b l2] H1 H2 Hon.
  - reflexivity.
  - specialize (Hon (date b)). unfold paymentsOn in Hon. simpl in Hon.
    rewrite Z.eqb_refl in Hon. discriminate.
  - specialize (Hon (date a)). unfold paymentsOn in Hon. simpl in Hon.
    rewrite Z.eqb_refl in Hon. discriminate.
  - assert (Hab : date a = date b).
    { assert (date a <= date b).
      { apply (on_head_sorted a l1 b H1). rewrite Hon. unfold paymentsOn. simpl.
        rewrite Z.eqb_refl. now left. }
      assert (date b <= date a).
      { apply (on_head_sorted b l2 a H2). rewrite <- Hon. unfold paymentsOn. simpl.
        rewrite Z.eqb_refl. now left. }
      lia. }
    assert (a = b).
    { pose proof (Hon (date a)) as E. unfold paymentsOn in E. simpl in E.
      rewrite <- Hab, Z.eqb_refl in E. now inversion E. }
    subst b. f_equal. apply IH.
    + now apply StronglySorted_inv in H1.
    + now apply StronglySorted_inv in H2.
    + intros d. specialize (Hon d). unfold paymentsOn in *. simpl in Hon.
      destruct (date a =? d); [now inversion Hon | exact Hon].
Qed.

Lemma sortByDate_same_dates (l1 l2 : list Expense) :
  (forall d, paymentsOn d l1 = paymentsOn d l2) -> sortByDate l1 = sortByDate l2.
Proof.
  intros Hon. apply sorted_same_dates_eq; try apply sortByDate_sorted.
  intros d. rewrite !sortByDate_stable. apply Hon.
Qed.

Lemma distinct_dates_same_order (l1 l2 : list Expense) :
  Permutation l1 l2 -> NoDup (List.map date l1) -> forall d, paymentsOn d l1 = paymentsOn d l2.
Proof.
  intros Hp Hnd d.
  pose proof (sortByDate_unique l1 l2 Hp Hnd) as E.
  rewrite <- (sortByDate_stable d l1), <- (sortByDate_stable d l2).
  now rewrite E.
Qed.

End Stable.

(** ** The balance loop *)

Section Balance.

Variable monthlyInterestRate : Q.

Lemma applyPayment_nonneg st payment :
  (0 <= fst (applyPayment monthlyInterestRate st payment))%Q.
Proof. destruct st as [b d]; simpl. apply Q.le_max_l. Qed.

Lemma applyPayment_le st payment :
  (0 <= fst st)%Q ->
  (fst (applyPayment monthlyInterestRate st payment) <= fst st)%Q.
Proof.
  destruct st as [b d]; simpl. intros Hb.
  apply Q.max_lub; [exact Hb|].
  set (pp := Qmax 0 _).
  assert (0 <= pp)%Q by apply Q.le_max_l.
  lra.
Qed.

Lemma replayPayments_app st l1 l2 :
  replayPayments monthlyInterestRate st (l1 ++ l2)
  = replayPayments monthlyInterestRate (replayPayments monthlyInterestRate st l1) l2.
Proof. apply fold_left_app. Qed.

Lemma replayPayments_nonneg st l :
  (0 <= fst st)%Q -> (0 <= fst (replayPayments monthlyInterestRate st l))%Q.
Proof.
  revert st. induction l as [|p l IH]; intros st H; simpl; [exact H|].
  apply IH, applyPayment_nonneg.
Qed.

End Balance.

(** ** Month keys *)

Section Keys.

Lemma dash_split a1 a2 b1 b2 :
  hasDash b1 = false -> hasDash b2 = false ->
  a1 +:+ String "-" b1 = a2 +:+ String "-" b2 -> a1 = a2 /\ b1 = b2.
Proof.
  intros H1 H2. revert a2.
  induction a1 as [|c a1 IH]; intros [|c' a2]; simpl; intros E.
  - now inversion E.
  - inversion E; subst. clear -H1. exfalso.
    induction a2 as [|c a2 IH]; simpl in H1.
    + discriminate.
    + apply orb_false_iff in H1 as [_ H1]. auto.
  - inversion E; subst. clear -H2. exfalso.
    induction a1 as [|c a1 IH]; simpl in H2.
    + discriminate.
    + apply orb_false_iff in H2 as [_ H2]. auto.
  - inversion E; subst. destruct (IH a2) as [-> ->]; auto.
Qed.

Lemma numToString_inj a b : numToString a = numToString b -> a = b.
Proof.
  unfold numToString. intros E.
  apply DecimalZ.to_int_inj.
  assert (Hn : forall z, Z.to_int z <> Decimal.Pos Decimal.Nil
                         /\ Z.to_int z <> Decimal.Neg Decimal.Nil).
  { intros [|p|p]; simpl; split; try discriminate;
      intros [= H]; now apply Unsigned.to_uint_nonnil in H. }
  apply (f_equal NilZero.int_of_string) in E.
  rewrite !NilZero.isi in E by apply Hn. congruence.
Qed.

Lemma MonthFromTime_range t : 0 <= MonthFromTime t <= 11.
Proof. unfold MonthFromTime, monthFromDay. repeat case_match; lia. Qed.

Lemma month_noDash t : hasDash (numToString (MonthFromTime t)) = false.
Proof.
  pose proof (MonthFromTime_range t) as H.
  assert (E : exists n : nat, (n < 12)%nat /\ MonthFromTime t = Z.of_nat n).
  { exists (Z.to_nat (MonthFromTime t)). lia. }
  destruct E as (n & Hn & ->).
  do 12 (destruct n as [|n]; [reflexivity|]). lia.
Qed.

Lemma month_not_NaN t : numToString (MonthFromTime t) <> "NaN".
Proof.
  pose proof (MonthFromTime_range t) as H.
  assert (E : exists n : nat, (n < 12)%nat /\ MonthFromTime t = Z.of_nat n).
  { exists (Z.to_nat (MonthFromTime t)). lia. }
  destruct E as (n & Hn & ->).
  do 12 (destruct n as [|n]; [discriminate|]). lia.
Qed.

(** Two dates have the same key exactly when they read the same year and
    month (two Invalid Dates both read NaN). *)
Lemma monthKey_eq_iff d1 d2 :
  monthKey d1 = monthKey d2 <->
  getFullYear d1 = getFullYear d2 /\ getMonth d1 = getMonth d2.
Proof.
  split; [|intros [Hy Hm]; unfold monthKey; now rewrite Hy, Hm].
  unfold monthKey. destruct d1 as [t1|], d2 as [t2|]; simpl; intros E.
  - apply dash_split in E; try apply month_noDash.
    destruct E as [Ey Em].
    apply numToString_inj in Ey. apply numToString_inj in Em. now rewrite Ey, Em.
  - change (numToString (YearFromTime t1) +:+ String "-" (numToString (MonthFromTime t1))
            = "NaN" +:+ String "-" "NaN") in E.
    apply dash_split in E; [|apply month_noDash|reflexivity].
    destruct E as [_ E]. now apply month_not_NaN in E.
  - change ("NaN" +:+ String "-" "NaN"
            = numToString (YearFromTime t2) +:+ String "-" (numToString (MonthFromTime t2))) in E.
    apply dash_split in E; [|reflexivity|apply month_noDash].
    destruct E as [_ E]. symmetry in E. now apply month_not_NaN in E.
  - split; reflexivity.
Qed.

Lemma paidMonths_has (loanPayments : list Expense) (d : Date) :
  monthKey d ∈ paidMonthsOf loanPayments <-> paidInMonthOf loanPayments d.
Proof.
  unfold paidMonthsOf, paidInMonthOf. rewrite elem_of_list_to_set, list_elem_of_In, in_map_iff.
  split.
  - intros (p & E & Hin). exists p. split; [exact Hin|]. now apply monthKey_eq_iff.
  - intros (p & Hin & Hy & Hm). exists p. split; [|exact Hin]. now apply monthKey_eq_iff.
Qed.

Lemma paidMonthsOf_perm l1 l2 : Permutation l1 l2 -> paidMonthsOf l1 = paidMonthsOf l2.
Proof.
  intros Hp. apply set_eq. intros k. unfold paidMonthsOf.
  rewrite !elem_of_list_to_set, !list_elem_of_In.
  split; apply Permutation_in; [|symmetry]; now apply Permutation_map.
Qed.

End Keys.

(** ** The search for the next unpaid month *)

Section NextDue.

Variable paidMonths : gset string.
Variable purchase : Date.

Lemma firstUnpaid_None k n :
  firstUnpaid paidMonths purchase k n = None <->
  forall j, k <= j < k + Z.of_nat n -> monthKey (dueDateOf purchase j) ∈ paidMonths.
Proof.
  revert k. induction n as [|n IH]; intros k; simpl.
  - split; [intros _ j Hj; lia | reflexivity].
  - case_bool_decide as Hk.
    + rewrite IH. split; intros H j Hj.
      * destruct (Z.eq_dec j k) as [->|]; [exact Hk | apply H; lia].
      * apply H; lia.
    + split; [discriminate|]. intros H. exfalso. apply Hk, H. lia.
Qed.

Lemma firstUnpaid_Some k n dueDate j :
  firstUnpaid paidMonths purchase k n = Some (dueDate, j) <->
  k <= j < k + Z.of_nat n
  /\ dueDate = dueDateOf purchase j
  /\ (monthKey (dueDateOf purchase j) ∉ paidMonths)
  /\ forall i, k <= i < j -> monthKey (dueDateOf purchase i) ∈ paidMonths.
Proof.
  revert k. induction n as [|n IH]; intros k; simpl.
  - split; [discriminate | lia].
  - case_bool_decide as Hk.
    + rewrite IH. split.
      * intros (Hj & Hd & Hno & Hall). repeat split; try lia; auto.
        intros i Hi. destruct (Z.eq_dec i k) as [->|]; [exact Hk | apply Hall; lia].
      * intros (Hj & Hd & Hno & Hall).
        assert (j <> k) by (intros ->; contradiction).
        repeat split; try lia; auto. intros i Hi. apply Hall; lia.
    + split.
      * intros [= <- <-]. repeat split; try lia; auto.
      * intros (Hj & Hd & Hno & Hall).
        destruct (Z.eq_dec j k) as [->|]; [now subst|].
        exfalso. apply Hk, Hall. lia.
Qed.

Lemma findNextDue_None term :
  findNextDue paidMonths purchase term = None <->
  forall j, 1 <= j <= term -> monthKey (dueDateOf purchase j) ∈ paidMonths.
Proof.
  unfold findNextDue. rewrite firstUnpaid_None.
  split; intros H j Hj; apply H; lia.
Qed.

Lemma findNextDue_Some term dueDate j :
  findNextDue paidMonths purchase term = Some (dueDate, j) <->
  1 <= j <= term
  /\ dueDate = dueDateOf purchase j
  /\ (monthKey (dueDateOf purchase j) ∉ paidMonths)
  /\ forall i, 1 <= i < j -> monthKey (dueDateOf purchase i) ∈ paidMonths.
Proof.
  unfold findNextDue. rewrite firstUnpaid_Some.
  split; intros (Hj & H); (split; [lia | exact H]).
Qed.

End NextDue.

(** ** The handlers, unfolded *)

Lemma replayPayments_spec r l b d :
  replayPayments r (b, d) l = Spec.project b d r (datedAmounts l).
Proof.
  revert b d. induction l as [|p l IH]; intros b d; simpl; [reflexivity|].
  apply IH.
Qed.

(** ** The loop and the projector, over numbers of any kind *)

Section AnyNumbers.

Context {N : Type} (ops : Numbers N).

Lemma replayPaymentsOver_spec (r : N) (l : list (Z * N)) (b : N) (d : Z) :
  replayPaymentsOver ops r (b, d) l = Spec.projectOver ops b d r l.
Proof.
  revert b d. induction l as [|[pd pa] l IH]; intros b d; [reflexivity|].
  cbn [replayPaymentsOver List.fold_left Spec.projectOver].
  apply IH.
Qed.

End AnyNumbers.

(** The loop of this development is the loop over the exact rationals. *)
Lemma replayPayments_exact (r : Q) (l : list Expense) (st : Q * Z) :
  replayPayments r st l = replayPaymentsOver exactNumbers r st (datedAmounts l).
Proof.
  revert st. induction l as [|p l IH]; intros [b d]; [reflexivity|].
  cbn [replayPayments replayPaymentsOver datedAmounts List.map List.fold_left].
  apply IH.
Qed.

Lemma project_exact (b : Q) (d : Z) (r : Q) (l : list (Z * Q)) :
  Spec.project b d r l = Spec.projectOver exactNumbers b d r l.
Proof.
  revert b d. induction l as [|[pd pa] l IH]; intros b d; [reflexivity|].
  cbn [Spec.project Spec.projectOver]. apply IH.
Qed.

Section Handlers.

Variables (car : Car) (fetched : list Expense) (now : Z).
Variables (la mp : Q) (lt pd : Z).
Hypothesis Hla : truthyQ (loanAmount car) = Some la.
Hypothesis Hmp : truthyQ (monthlyPayment car) = Some mp.
Hypothesis Hlt : truthyZ (loanTerm car) = Some lt.
Hypothesis Hpd : truthyZ (purchaseDate car) = Some pd.

Let final := replayPayments (monthlyInterestRateOf car) (la, pd) (sortByDate fetched).

Lemma nextLoanPayment_paid_by_balance :
  Qle_bool (roundCents (fst final)) (1 # 100) = true ->
  nextLoanPayment car fetched now = Some PaidOff.
Proof.
  unfold nextLoanPayment. rewrite Hla, Hmp, Hlt, Hpd.
  subst final. destruct (replayPayments _ _ _) as [b d]; simpl.
  now intros ->.
Qed.

Lemma nextLoanPayment_paid_by_months :
  findNextDue (paidMonthsOf (sortByDate fetched)) (newDate pd) lt = None ->
  nextLoanPayment car fetched now = Some PaidOff.
Proof.
  unfold nextLoanPayment. rewrite Hla, Hmp, Hlt, Hpd.
  destruct (replayPayments _ _ _) as [b d]. intros ->.
  now destruct (Qle_bool _ _).
Qed.

Lemma nextLoanPayment_due r :
  nextLoanPayment car fetched now = Some (NotPaidOff r) <->
  Qle_bool (roundCents (fst final)) (1 # 100) = false
  /\ exists nextDueDate paymentNumber,
      findNextDue (paidMonthsOf (sortByDate fetched)) (newDate pd) lt
        = Some (nextDueDate, paymentNumber)
      /\ let remainingBalance := roundCents (fst final) in
         let paidThisPeriod :=
           sumOf amount (List.filter (inPeriod (periodStartOf nextDueDate) nextDueDate)
                                     (sortByDate fetched)) in
         r = {| NextLoanPayment.nextDueDate := getTime nextDueDate;
                NextLoanPayment.monthlyPayment := mp;
                NextLoanPayment.amountDue :=
                  roundCents (if Qlt_bool remainingBalance mp
                              then Qmax 0 (remainingBalance - paidThisPeriod)
                              else Qmax 0 (mp - paidThisPeriod));
                NextLoanPayment.paidThisPeriod := roundCents paidThisPeriod;
                NextLoanPayment.remainingBalance := remainingBalance;
                NextLoanPayment.paymentNumber := paymentNumber;
                NextLoanPayment.isOverdue := dateGt (newDate now) nextDueDate |}.
Proof.
  unfold nextLoanPayment. rewrite Hla, Hmp, Hlt, Hpd.
  subst final. destruct (replayPayments _ _ _) as [b d]; simpl.
  destruct (Qle_bool _ _).
  - split; [discriminate | intros [? _]; discriminate].
  - destruct (findNextDue _ _ _) as [[nd k]|].
    + split.
      * intros [= <-]. split; [reflexivity|]. now exists nd, k.
      * intros (_ & nd' & k' & [= <- <-] & ->). reflexivity.
    + split; [discriminate | intros (_ & ? & ? & ? & _); discriminate].
Qed.

End Handlers.

Section PaidOff.

Variables (car : Car) (fetched : list Expense) (now : Z).
Variables (la mp : Q) (lt pd : Z).
Hypothesis Hla : truthyQ (loanAmount car) = Some la.
Hypothesis Hmp : truthyQ (monthlyPayment car) = Some mp.
Hypothesis Hlt : truthyZ (loanTerm car) = Some lt.
Hypothesis Hpd : truthyZ (purchaseDate car) = Some pd.

Let final := replayPayments (monthlyInterestRateOf car) (la, pd) (sortByDate fetched).

(** The two ways [getNextLoanPayment] has of answering [{ isPaidOff: true }],
    and no other. *)
Lemma nextLoanPayment_paid_iff :
  nextLoanPayment car fetched now = Some PaidOff <->
  Qle_bool (roundCents (fst final)) (1 # 100) = true
  \/ findNextDue (paidMonthsOf (sortByDate fetched)) (newDate pd) lt = None.
Proof.
  unfold nextLoanPayment. rewrite Hla, Hmp, Hlt, Hpd.
  subst final. destruct (replayPayments _ _ _) as [b d]; simpl.
  destruct (Qle_bool _ _).
  - split; [now left | reflexivity].
  - destruct (findNextDue _ _ _) as [[nd k]|].
    + split; [discriminate | intros [?|?]; discriminate].
    + split; [now right | reflexivity].
Qed.

(** With the loan fields present the answer is never [null]. *)
Lemma nextLoanPayment_answers :
  nextLoanPayment car fetched now = Some PaidOff
  \/ exists r, nextLoanPayment car fetched now = Some (NotPaidOff r).
Proof.
  unfold nextLoanPayment. rewrite Hla, Hmp, Hlt, Hpd.
  destruct (replayPayments _ _ _) as [b d]; simpl.
  destruct (Qle_bool _ _); [now left|].
  destruct (findNextDue _ _ _) as [[nd k]|]; [right; eexists; reflexivity | now left].
Qed.

End PaidOff.

Section Details.

Variables (car : Car) (fetched : list Expense) (now : Z).
Variables (la mp : Q) (lt : Z).
Hypothesis Hla : truthyQ (loanAmount car) = Some la.
Hypothesis Hmp : truthyQ (monthlyPayment car) = Some mp.
Hypothesis Hlt : truthyZ (loanTerm car) = Some lt.

Let start : Z := match truthyZ (purchaseDate car) with Some d => d | None => now end.
Let final := replayPayments (monthlyInterestRateOf car) (la, start) (sortByDate fetched).
Let projected : Q :=
  (fst final + fst final * monthlyInterestRateOf car
               * Qmax 0 (inject_Z (now - snd final) / msPerMonth))%Q.

Lemma loanDetails_balance :
  exists d, loanDetails car fetched now = Some d
    /\ LoanDetails.remainingBalance d = Qmax 0 (roundCents projected)
    /\ LoanDetails.isPaidOff d = Qle_bool (roundCents projected) (1 # 100).
Proof.
  unfold loanDetails. rewrite Hla, Hmp, Hlt.
  subst projected final start.
  destruct (replayPayments _ _ _) as [b d]. simpl.
  eexists. split; [reflexivity|]. simpl. split; reflexivity.
Qed.

End Details.

(** ** Rounding and clamping *)

Section Numbers.

Lemma Qmax_0_nonneg x : (0 <= x)%Q -> (Qmax 0 x == x)%Q.
Proof. apply Q.max_r. Qed.

Lemma roundCents_comp x y : (x == y)%Q -> roundCents x = roundCents y.
Proof.
  intros E. unfold roundCents, Math_round.
  assert (H : (x * 100 + (1 # 2) == y * 100 + (1 # 2))%Q) by now rewrite E.
  now rewrite (Qfloor_comp _ _ H).
Qed.

Lemma roundCents_le x y : (x <= y)%Q -> (roundCents x <= roundCents y)%Q.
Proof.
  intros H. unfold roundCents, Math_round.
  apply Qmult_le_compat_r; [|discriminate].
  rewrite <- Zle_Qle. apply Qfloor_resp_le. lra.
Qed.

Lemma roundCents_0 : (roundCents 0 == 0)%Q.
Proof. reflexivity. Qed.

Lemma roundCents_nonneg x : (0 <= x)%Q -> (0 <= roundCents x)%Q.
Proof. intros H. rewrite <- roundCents_0. now apply roundCents_le. Qed.

End Numbers.

(** ** Sums *)

Section Sums.

Variable f : Expense -> Q.

Lemma sumOf_from (l : list Expense) (a : Q) :
  (List.fold_left (fun sum payment => sum + f payment) l a
   == a + List.fold_right (fun payment total => f payment + total) 0 l)%Q.
Proof.
  revert a. induction l as [|p l IH]; intros a; simpl; [ring|].
  rewrite IH. ring.
Qed.

Lemma sumOf_fold_right (l : list Expense) :
  (sumOf f l == List.fold_right (fun payment total => f payment + total) 0 l)%Q.
Proof. unfold sumOf. rewrite sumOf_from. ring. Qed.

End Sums.

(** ** Null results *)

Lemma truthyQ_None x : truthyQ x = None <-> unsetQ x.
Proof.
  destruct x as [q|]; simpl; [|tauto].
  destruct (Qeq_bool q 0) eqn:E.
  - apply Qeq_bool_eq in E. tauto.
  - apply Qeq_bool_neq in E. split; [discriminate | tauto].
Qed.

Lemma truthyZ_None x : truthyZ x = None <-> unsetZ x.
Proof.
  destruct x as [z|]; simpl; [|tauto].
  destruct (Z.eqb_spec z 0); split; auto; try discriminate. tauto.
Qed.

Lemma nextLoanPayment_null car fetched now :
  nextLoanPayment car fetched now = None <->
  truthyQ (loanAmount car) = None \/ truthyQ (monthlyPayment car) = None
  \/ truthyZ (loanTerm car) = None \/ truthyZ (purchaseDate car) = None.
Proof.
  unfold nextLoanPayment.
  destruct (truthyQ (loanAmount car)), (truthyQ (monthlyPayment car)),
    (truthyZ (purchaseDate car)), (truthyZ (loanTerm car)); try tauto.
  destruct (replayPayments _ _ _) as [b d].
  destruct (Qle_bool _ _); [|destruct (findNextDue _ _ _) as [[nd k]|]];
    (split; [discriminate | intros [H|[H|[H|H]]]; discriminate]).
Qed.

Lemma loanDetails_null car fetched now :
  loanDetails car fetched now = None <->
  truthyQ (loanAmount car) = None \/ truthyQ (monthlyPayment car) = None
  \/ truthyZ (loanTerm car) = None.
Proof.
  unfold loanDetails.
  destruct (truthyQ (loanAmount car)), (truthyQ (monthlyPayment car)),
    (truthyZ (loanTerm car)); try tauto.
  destruct (replayPayments _ _ _) as [b d].
  split; [discriminate | intros [H|[H|H]]; discriminate].
Qed.

Lemma getNextLoanPayment_granted ctx id car :
  fetchCar ctx id = inr car ->
  getNextLoanPayment ctx id = inr (nextLoanPayment car (loanPaymentsOf ctx id) (now ctx)).
Proof. unfold getNextLoanPayment. now intros ->. Qed.

Lemma getLoanDetails_granted ctx id car :
  fetchCar ctx id = inr car ->
  getLoanDetails ctx id = inr (loanDetails car (loanPaymentsOf ctx id) (now ctx)).
Proof. unfold getLoanDetails. now intros ->. Qed.

(** ** The payments of a period *)

Section Period.

Variables currentPeriodStart nextDueDate : Date.

Lemma paid_filter (l : list Expense) :
  (sumOf amount (List.filter (inPeriod currentPeriodStart nextDueDate) l)
   == Spec.paidThisPeriod currentPeriodStart nextDueDate (datedAmounts l))%Q.
Proof.
  rewrite sumOf_fold_right.
  induction l as [|p l IH]; simpl; [reflexivity|].
  unfold inPeriod at 1.
  destruct (dateGt _ _ && dateLe _ _); simpl; now rewrite IH.
Qed.

Lemma paidThisPeriod_perm (l1 l2 : list Expense) :
  Permutation l1 l2 ->
  (Spec.paidThisPeriod currentPeriodStart nextDueDate (datedAmounts l1)
   == Spec.paidThisPeriod currentPeriodStart nextDueDate (datedAmounts l2))%Q.
Proof.
  induction 1 as [|p l l' _ IH|p q l|l l' l'' _ IH1 _ IH2]; simpl.
  - reflexivity.
  - destruct (dateGt _ _ && dateLe _ _); now rewrite IH.
  - repeat destruct (dateGt _ _ && dateLe _ _); ring.
  - now rewrite IH1.
Qed.

End Period.

(** ** Paid months, whatever the order of the list *)

Lemma paidMonths_sorted_has (fetched : list Expense) (d : Date) :
  monthKey d ∈ paidMonthsOf (sortByDate fetched) <-> paidInMonthOf fetched d.
Proof.
  rewrite <- (paidMonthsOf_perm _ _ (sortByDate_perm fetched)). apply paidMonths_has.
Qed.

(** ** Paying the balance off *)

Section Payoff.

Variable monthlyInterestRate : Q.

(** What a payment leaves is what was owed at its date, the balance and the
    interest accrued on it, less the amount paid, and never less than
    nothing; when the amount does not cover the interest, the balance
    stays. *)
Lemma applyPayment_left (currentBalance : Q) (lastPaymentDate : Z) (payment : Expense) :
  (0 <= currentBalance)%Q ->
  let accrued :=
    (currentBalance * monthlyInterestRate
     * Qmax 0 (inject_Z (date payment - lastPaymentDate) / msPerMonth))%Q in
  let left := fst (applyPayment monthlyInterestRate (currentBalance, lastPaymentDate) payment) in
  (0 <= left)%Q
  /\ ((accrued <= amount payment)%Q ->
      (left == Qmax 0 (currentBalance + accrued - amount payment))%Q)
  /\ ((amount payment < accrued)%Q -> (left == currentBalance)%Q).
Proof.
  intros Hb accrued left. subst left. simpl. fold accrued.
  split; [apply Q.le_max_l|]. split; intros H.
  - rewrite (Q.min_r _ _ H).
    rewrite (Q.max_r 0 (amount payment - accrued)) by lra.
    apply Q.max_compat; [reflexivity | ring].
  - rewrite (Q.min_l (amount payment) accrued) by lra.
    assert (E : (amount payment - amount payment == 0)%Q) by ring.
    rewrite E, (Q.max_l 0 0) by lra.
    rewrite Q.max_r by lra. ring.
Qed.

(** A payment that covers what is owed leaves nothing; one that falls short
    of it by less than half a cent leaves less than half a cent. *)
Lemma applyPayment_covers (currentBalance : Q) (lastPaymentDate : Z) (payment : Expense) :
  (0 <= currentBalance)%Q ->
  (currentBalance
   + currentBalance * monthlyInterestRate
     * Qmax 0 (inject_Z (date payment - lastPaymentDate) / msPerMonth)
   <= amount payment)%Q ->
  (fst (applyPayment monthlyInterestRate (currentBalance, lastPaymentDate) payment) == 0)%Q.
Proof.
  intros Hb Ha.
  destruct (applyPayment_left currentBalance lastPaymentDate payment Hb) as (_ & Hc & _).
  rewrite Hc by lra. apply Q.max_l. lra.
Qed.

Lemma applyPayment_nearly (currentBalance : Q) (lastPaymentDate : Z) (payment : Expense) :
  (0 <= currentBalance)%Q ->
  (currentBalance
   + currentBalance * monthlyInterestRate
     * Qmax 0 (inject_Z (date payment - lastPaymentDate) / msPerMonth)
   - (1 # 200) < amount payment)%Q ->
  (0 <= fst (applyPayment monthlyInterestRate (currentBalance, lastPaymentDate) payment)
   < 1 # 200)%Q.
Proof.
  intros Hb Ha.
  destruct (applyPayment_left currentBalance lastPaymentDate payment Hb) as (H0 & Hc & Hs).
  split; [exact H0|].
  set (accrued := (currentBalance * monthlyInterestRate * _)%Q) in *.
  destruct (Qlt_le_dec (amount payment) accrued) as [Hlt | Hle].
  - rewrite (Hs Hlt). lra.
  - rewrite (Hc Hle). apply Q.max_lub_lt; lra.
Qed.

End Payoff.

(** An amount under half a cent rounds to nothing. *)
Lemma roundCents_small (x : Q) : (0 <= x)%Q -> (x < 1 # 200)%Q -> (roundCents x == 0)%Q.
Proof.
  intros H0 H1. unfold roundCents, Math_round.
  assert (E : Qfloor (x * 100 + (1 # 2)) = 0).
  { pose proof (Qfloor_le (x * 100 + (1 # 2))) as Hle.
    pose proof (Qlt_floor (x * 100 + (1 # 2))) as Hlt.
    rewrite inject_Z_plus in Hlt. change (inject_Z 1) with 1%Q in Hlt.
    assert (Ha : (inject_Z (Qfloor (x * 100 + (1 # 2))) < inject_Z 1)%Q).
    { change (inject_Z 1) with 1%Q. lra. }
    assert (Hb : (inject_Z (-1) < inject_Z (Qfloor (x * 100 + (1 # 2))))%Q).
    { change (inject_Z (-1)) with (-1 # 1)%Q. lra. }
    rewrite <- Zlt_Qlt in Ha, Hb. lia. }
  rewrite E. reflexivity.
Qed.

(** ** The example of the specification (section 8)

    20000 at 6 percent, one payment of 400 after 31 days: 19701.84 remains. *)

Example ex_spec_section_8 :
  exists r,
    nextLoanPayment Ex.car0 [Ex.pay (Ex.T0 + Ex.days 31) 400] (Ex.T0 + Ex.days 40)
      = Some (NotPaidOff r)
    /\ (NextLoanPayment.remainingBalance r == 1970184 # 100)%Q
    /\ NextLoanPayment.paymentNumber r = 2.
Proof. eexists. split; [vm_compute; reflexivity|]. split; vm_compute; reflexivity. Qed.

(** * The claims *)

(** C1: with the loan fields of the car present, both handlers replay the
    payments in ascending date order (payments of one date staying in the
    order they were fetched in) from [loanAmount] and [purchaseDate] at the
    monthly rate [(interestRate or 0) / 100 / 12]; the loop they run is the
    specification's steps 1 to 6, operation for operation and so whatever
    the kind of numbers it is run on, elapsed time being counted in months
    of 30.44 days. [getNextLoanPayment] answers paid off exactly when the
    balance of that loop rounds to 0.01 or less or every installment's month
    holds a payment, and otherwise reports that balance rounded to cents;
    [getLoanDetails] reports the balance with the interest accrued on it up
    to now, rounded to cents and not below zero, and paid off exactly when
    that rounds to 0.01 or less. *)
Theorem C1_handlers_replay_as_specified
    (car : Car) (fetched : list Expense) (now : Z) (la mp : Q) (lt pd : Z) :
  truthyQ (loanAmount car) = Some la ->
  truthyQ (monthlyPayment car) = Some mp ->
  truthyZ (loanTerm car) = Some lt ->
  truthyZ (purchaseDate car) = Some pd ->
  let rate := (orZero (interestRate car) / 100 / 12)%Q in
  exists ordered : list Expense,
    Permutation fetched ordered
    /\ StronglySorted byDate ordered
    /\ (forall d, paymentsOn d ordered = paymentsOn d fetched)
    /\ (Spec.avgMonth == inject_Z (3044 * 864000))%Q
    /\ (forall (N : Type) (ops : Numbers N) (monthlyRate balance : N) (start : Z)
               (payments : list (Z * N)),
          replayPaymentsOver ops monthlyRate (balance, start) payments
          = Spec.projectOver ops balance start monthlyRate payments)
    /\ let loop := replayPayments (monthlyInterestRateOf car) (la, pd) ordered in
       loop = replayPaymentsOver exactNumbers (monthlyInterestRateOf car) (la, pd)
                                 (datedAmounts ordered)
       /\ loop = Spec.project la pd rate (datedAmounts ordered)
       /\ (nextLoanPayment car fetched now = Some PaidOff <->
           Qle_bool (roundCents (fst loop)) (1 # 100) = true
           \/ forall k, 1 <= k <= lt ->
                paidInMonthOf fetched (dueDateOf (newDate pd) k))
       /\ (nextLoanPayment car fetched now <> Some PaidOff ->
           exists r, nextLoanPayment car fetched now = Some (NotPaidOff r)
             /\ NextLoanPayment.remainingBalance r = roundCents (fst loop))
       /\ (forall r, nextLoanPayment car fetched now = Some (NotPaidOff r) ->
           NextLoanPayment.remainingBalance r = roundCents (fst loop))
       /\ exists d, loanDetails car fetched now = Some d
           /\ LoanDetails.remainingBalance d
              = Qmax 0 (roundCents (fst loop
                   + Spec.interestAccrued (fst loop) rate
                       (Spec.monthsElapsed now (snd loop))))
           /\ LoanDetails.isPaidOff d
              = Qle_bool (roundCents (fst loop
                   + Spec.interestAccrued (fst loop) rate
                       (Spec.monthsElapsed now (snd loop)))) (1 # 100).
Proof.
  intros Hla Hmp Hlt Hpd rate.
  exists (sortByDate fetched).
  split; [apply sortByDate_perm|].
  split; [apply sortByDate_sorted|].
  split; [intros d; apply sortByDate_stable|].
  split; [reflexivity|].
  split; [intros N ops r b d l; apply replayPaymentsOver_spec|].
  cbv zeta.
  assert (Hdue : forall r, nextLoanPayment car fetched now = Some (NotPaidOff r) ->
    NextLoanPayment.remainingBalance r
    = roundCents (fst (replayPayments (monthlyInterestRateOf car) (la, pd)
                         (sortByDate fetched)))).
  { intros r Hr.
    apply (nextLoanPayment_due car fetched now la mp lt pd Hla Hmp Hlt Hpd) in Hr.
    destruct Hr as (_ & nd & k & _ & ->). reflexivity. }
  split; [apply replayPayments_exact|].
  split; [apply replayPayments_spec|].
  split.
  { rewrite (nextLoanPayment_paid_iff car fetched now la mp lt pd Hla Hmp Hlt Hpd).
    rewrite findNextDue_None.
    split; (intros [H|H]; [now left | right]);
      intros k Hk; apply paidMonths_sorted_has, H, Hk. }
  split.
  { intros Hnot.
    destruct (nextLoanPayment_answers car fetched now la mp lt pd Hla Hmp Hlt Hpd)
      as [H | [r Hr]]; [contradiction|].
    exists r. split; [exact Hr | now apply Hdue]. }
  split; [exact Hdue|].
  destruct (loanDetails_balance car fetched now la mp lt Hla Hmp Hlt)
    as (d & Hd & Hrem & Hpaid).
  exists d. split; [exact Hd|]. rewrite Hrem, Hpaid, Hpd. split; reflexivity.
Qed.

Lemma C1_witness :
  let car := Ex.car0 in
  let fetched := [Ex.pay (Ex.T0 + Ex.days 62) 400; Ex.pay (Ex.T0 + Ex.days 31) 400] in
  let now := Ex.T0 + Ex.days 70 in
  let ordered := [Ex.pay (Ex.T0 + Ex.days 31) 400; Ex.pay (Ex.T0 + Ex.days 62) 400] in
  let loop := replayPayments (monthlyInterestRateOf car) (20000%Q, Ex.T0) ordered in
  loop = Spec.project 20000 Ex.T0 (6 / 100 / 12) (datedAmounts ordered)
  /\ (roundCents (fst loop) == 1940216 # 100)%Q
  /\ (exists r, nextLoanPayment car fetched now = Some (NotPaidOff r)
        /\ NextLoanPayment.remainingBalance r = roundCents (fst loop))
  /\ (exists d, loanDetails car fetched now = Some d
        /\ LoanDetails.isPaidOff d = false
        /\ (LoanDetails.remainingBalance d == 1942766 # 100)%Q).
Proof.
  cbv zeta.
  destruct (C1_handlers_replay_as_specified Ex.car0
              [Ex.pay (Ex.T0 + Ex.days 62) 400; Ex.pay (Ex.T0 + Ex.days 31) 400]
              (Ex.T0 + Ex.days 70) 20000 400 60 Ex.T0 eq_refl eq_refl eq_refl eq_refl)
    as (ordered & Hperm & Hsorted & Hstable & _ & _ & Hloop).
  assert (E : ordered
              = [Ex.pay (Ex.T0 + Ex.days 31) 400; Ex.pay (Ex.T0 + Ex.days 62) 400]).
  { apply sorted_same_dates_eq; [exact Hsorted | |].
    - repeat constructor; vm_compute; discriminate.
    - intros d. rewrite Hstable. unfold paymentsOn. cbn [List.filter date Ex.pay].
      destruct (Ex.T0 + Ex.days 62 =? d) eqn:E1, (Ex.T0 + Ex.days 31 =? d) eqn:E2;
        try reflexivity.
      apply Z.eqb_eq in E1, E2. exfalso. rewrite <- E2 in E1. vm_compute in E1.
      discriminate. }
  subst ordered. cbv zeta in Hloop.
  destruct Hloop as (_ & Hspec & Hpaid & Hdue & _ & d & Hd & Hrem & Hoff).
  split; [exact Hspec|].
  split; [vm_compute; reflexivity|].
  split.
  - apply Hdue. intros Hp. apply Hpaid in Hp as [Hp | Hp].
    + vm_compute in Hp. discriminate.
    + destruct (Hp 5 ltac:(lia)) as (p & Hin & _ & Hm).
      destruct Hin as [<- | [<- | []]]; vm_compute in Hm; discriminate.
  - exists d. split; [exact Hd|]. split.
    + rewrite Hoff. vm_compute. reflexivity.
    + rewrite Hrem. vm_compute. reflexivity.
Defined.

(** C2, as the code has it: once the caller is authenticated and granted
    access, neither handler raises; [getNextLoanPayment] returns null exactly
    when one of [loanAmount], [monthlyPayment], [loanTerm], [purchaseDate] is
    absent or zero, [getLoanDetails] exactly when one of [loanAmount],
    [monthlyPayment], [loanTerm] is absent or zero, and each returns a
    result that is not null in every other case. *)
Theorem C2_null_exactly_when_a_loan_field_is_unset (ctx : Ctx) (id : Id) (car : Car) :
  fetchCar ctx id = inr car ->
  (exists res, getNextLoanPayment ctx id = inr res
     /\ (res = None <->
         unsetQ (loanAmount car) \/ unsetQ (monthlyPayment car)
         \/ unsetZ (loanTerm car) \/ unsetZ (purchaseDate car)))
  /\ (exists res, getLoanDetails ctx id = inr res
     /\ (res = None <->
         unsetQ (loanAmount car) \/ unsetQ (monthlyPayment car)
         \/ unsetZ (loanTerm car))).
Proof.
  intros Hfetch. split.
  - eexists. split; [exact (getNextLoanPayment_granted _ _ _ Hfetch)|].
    rewrite nextLoanPayment_null, !truthyQ_None, !truthyZ_None. reflexivity.
  - eexists. split; [exact (getLoanDetails_granted _ _ _ Hfetch)|].
    rewrite loanDetails_null, !truthyQ_None, !truthyZ_None. reflexivity.
Qed.

(** C2 fails as stated: a car that lacks none of its loan fields, its loan
    amount being zero, gets null from both handlers. *)
Lemma C2_counterexample :
  let ctx := Ex.ctxOf Ex.carZero [] (Ex.T0 + Ex.days 40) in
  fetchCar ctx "car1" = inr Ex.carZero
  /\ (loanAmount Ex.carZero <> None /\ monthlyPayment Ex.carZero <> None
      /\ loanTerm Ex.carZero <> None /\ purchaseDate Ex.carZero <> None)
  /\ getNextLoanPayment ctx "car1" = inr None
  /\ getLoanDetails ctx "car1" = inr None.
Proof.
  cbv zeta. split; [reflexivity|].
  split; [repeat split; discriminate|].
  split; reflexivity.
Qed.

Lemma C2_witness :
  let ctx := Ex.ctxOf Ex.car0 [Ex.pay (Ex.T0 + Ex.days 31) 400] (Ex.T0 + Ex.days 40) in
  fetchCar ctx "car1" = inr Ex.car0
  /\ (exists res, getNextLoanPayment ctx "car1" = inr res
     /\ (res = None <->
         unsetQ (loanAmount Ex.car0) \/ unsetQ (monthlyPayment Ex.car0)
         \/ unsetZ (loanTerm Ex.car0) \/ unsetZ (purchaseDate Ex.car0)))
  /\ (exists res, getLoanDetails ctx "car1" = inr res
     /\ (res = None <->
         unsetQ (loanAmount Ex.car0) \/ unsetQ (monthlyPayment Ex.car0)
         \/ unsetZ (loanTerm Ex.car0))).
Proof.
  cbv zeta. split; [reflexivity|].
  apply (C2_null_exactly_when_a_loan_field_is_unset _ "car1" Ex.car0). reflexivity.
Defined.

(** C3: from an opening balance that is not negative, the balance after each
    payment is applied is not negative and not above the balance before it,
    in the loop the two handlers share. *)
Theorem C3_balance_never_negative_never_grows
    (monthlyInterestRate opening : Q) (anchor : Z)
    (applied : list Expense) (payment : Expense) :
  (0 <= opening)%Q ->
  let before := fst (replayPayments monthlyInterestRate (opening, anchor) applied) in
  let after :=
    fst (replayPayments monthlyInterestRate (opening, anchor) (applied ++ [payment])) in
  (0 <= after)%Q /\ (after <= before)%Q.
Proof.
  intros Hopen before after. subst before after.
  rewrite replayPayments_app. simpl. split.
  - apply applyPayment_nonneg.
  - apply applyPayment_le. now apply replayPayments_nonneg.
Qed.

Lemma C3_witness :
  let before := fst (replayPayments (6 / 100 / 12) (20000%Q, Ex.T0)
                       [Ex.pay (Ex.T0 + Ex.days 31) 400]) in
  let after := fst (replayPayments (6 / 100 / 12) (20000%Q, Ex.T0)
                       ([Ex.pay (Ex.T0 + Ex.days 31) 400] ++ [Ex.pay (Ex.T0 + Ex.days 62) 400])) in
  (0 <= 20000)%Q /\ (0 <= after)%Q /\ (after <= before)%Q.
Proof.
  cbv zeta.
  assert (H : (0 <= 20000)%Q) by (vm_compute; discriminate).
  split; [exact H|].
  exact (C3_balance_never_negative_never_grows (6 / 100 / 12) 20000 Ex.T0
           [Ex.pay (Ex.T0 + Ex.days 31) 400] (Ex.pay (Ex.T0 + Ex.days 62) 400) H).
Defined.


(** C4: when every installment month from 1 to [loanTerm] holds a payment
    of the same year and month as its due date, [getNextLoanPayment] answers
    [{ isPaidOff: true }] whatever the balance is; the balance is looked at
    first, and a paid-off answer comes from one of the two signals. *)
Theorem C4_all_months_paid_reports_paid_off
    (car : Car) (fetched : list Expense) (now : Z) (la mp : Q) (lt pd : Z) :
  truthyQ (loanAmount car) = Some la ->
  truthyQ (monthlyPayment car) = Some mp ->
  truthyZ (loanTerm car) = Some lt ->
  truthyZ (purchaseDate car) = Some pd ->
  let allMonthsPaid :=
    forall k, 1 <= k <= lt -> paidInMonthOf fetched (dueDateOf (newDate pd) k) in
  let balance :=
    fst (replayPayments (monthlyInterestRateOf car) (la, pd) (sortByDate fetched)) in
  (allMonthsPaid -> nextLoanPayment car fetched now = Some PaidOff)
  /\ (nextLoanPayment car fetched now = Some PaidOff <->
      Qle_bool (roundCents balance) (1 # 100) = true \/ allMonthsPaid).
Proof.
  intros Hla Hmp Hlt Hpd allMonthsPaid balance.
  assert (Hall : allMonthsPaid <->
                 findNextDue (paidMonthsOf (sortByDate fetched)) (newDate pd) lt = None).
  { rewrite findNextDue_None. subst allMonthsPaid.
    split; intros H k Hk; apply paidMonths_sorted_has, H, Hk. }
  split.
  - intros H. apply Hall in H.
    now apply nextLoanPayment_paid_by_months with (la := la) (mp := mp) (lt := lt) (pd := pd).
  - split.
    + intros Hpaid. rewrite Hall.
      unfold nextLoanPayment in Hpaid. rewrite Hla, Hmp, Hlt, Hpd in Hpaid.
      subst balance. destruct (replayPayments _ _ _) as [b d]; simpl in *.
      destruct (Qle_bool _ _); [now left|].
      destruct (findNextDue _ _ _) as [[nd k]|]; [discriminate | now right].
    + intros [H|H].
      * now apply nextLoanPayment_paid_by_balance
          with (la := la) (mp := mp) (lt := lt) (pd := pd).
      * apply Hall in H.
        now apply nextLoanPayment_paid_by_months
          with (la := la) (mp := mp) (lt := lt) (pd := pd).
Qed.

Lemma C4_witness :
  nextLoanPayment Ex.carOneMonth [Ex.pay (Ex.T0 + Ex.days 31) 400] (Ex.T0 + Ex.days 40)
    = Some PaidOff
  /\ Qle_bool
       (roundCents (fst (replayPayments (monthlyInterestRateOf Ex.carOneMonth)
                           (20000%Q, Ex.T0)
                           (sortByDate [Ex.pay (Ex.T0 + Ex.days 31) 400]))))
       (1 # 100) = false.
Proof.
  split; [|vm_compute; reflexivity].
  apply (proj1 (C4_all_months_paid_reports_paid_off Ex.carOneMonth
           [Ex.pay (Ex.T0 + Ex.days 31) 400] (Ex.T0 + Ex.days 40) 20000 400 1 Ex.T0
           eq_refl eq_refl eq_refl eq_refl)).
  intros k Hk. assert (k = 1) as -> by lia.
  exists (Ex.pay (Ex.T0 + Ex.days 31) 400).
  split; [now left|]. split; vm_compute; reflexivity.
Defined.

(** C5: [getLoanDetails] reports the balance carried forward to now, the
    rounding to cents of [currentBalance + currentBalance * monthlyInterestRate
    * monthsElapsed] with [monthsElapsed] counted from the last payment (the
    final [Math.max(0, ...)] changes nothing when neither the loan amount nor
    the rate is negative); [getNextLoanPayment] reports the balance after the
    loop, rounded, with nothing accrued. On one same loan at a positive rate,
    some time after its last payment, the two balances differ. *)
Theorem C5_details_accrue_to_now_next_payment_does_not :
  (forall (car : Car) (fetched : list Expense) (now : Z) (la mp : Q) (lt pd : Z),
     truthyQ (loanAmount car) = Some la ->
     truthyQ (monthlyPayment car) = Some mp ->
     truthyZ (loanTerm car) = Some lt ->
     truthyZ (purchaseDate car) = Some pd ->
     let monthlyInterestRate := monthlyInterestRateOf car in
     let final := replayPayments monthlyInterestRate (la, pd) (sortByDate fetched) in
     let currentBalance := fst final in
     let monthsElapsed := Qmax 0 (inject_Z (now - snd final) / msPerMonth) in
     let forward :=
       roundCents (currentBalance + currentBalance * monthlyInterestRate * monthsElapsed) in
     (exists d, loanDetails car fetched now = Some d
        /\ LoanDetails.remainingBalance d = Qmax 0 forward
        /\ ((0 <= la)%Q -> (0 <= orZero (interestRate car))%Q ->
            (LoanDetails.remainingBalance d == forward)%Q))
     /\ (forall r, nextLoanPayment car fetched now = Some (NotPaidOff r) ->
         NextLoanPayment.remainingBalance r = roundCents currentBalance))
  /\ (exists (car : Car) (fetched : list Expense) (now : Z) d r,
        (0 < orZero (interestRate car))%Q
        /\ (forall payment, In payment fetched -> date payment < now)
        /\ loanDetails car fetched now = Some d
        /\ nextLoanPayment car fetched now = Some (NotPaidOff r)
        /\ ~ (LoanDetails.remainingBalance d == NextLoanPayment.remainingBalance r)%Q).
Proof.
  split.
  - intros car fetched now la mp lt pd Hla Hmp Hlt Hpd rate final cb me forward.
    split.
    + destruct (loanDetails_balance car fetched now la mp lt Hla Hmp Hlt)
        as (d & Hd & Hrem & _).
      rewrite Hpd in Hrem. fold rate final cb me forward in Hrem.
      exists d. split; [exact Hd|]. split; [exact Hrem|].
      intros Hla0 Hrate0. rewrite Hrem. apply Qmax_0_nonneg.
      subst forward. apply roundCents_nonneg.
      assert (Hcb : (0 <= cb)%Q) by (apply replayPayments_nonneg; exact Hla0).
      assert (Hme : (0 <= me)%Q) by apply Q.le_max_l.
      assert (Hr : (0 <= rate)%Q).
      { subst rate. unfold monthlyInterestRateOf.
        apply Qle_shift_div_l; [reflexivity|]. apply Qle_shift_div_l; [reflexivity|]. lra. }
      assert (0 <= cb * rate * me)%Q
        by (apply Qmult_le_0_compat; [apply Qmult_le_0_compat|]; assumption).
      lra.
    + intros r Hr.
      apply (nextLoanPayment_due car fetched now la mp lt pd Hla Hmp Hlt Hpd) in Hr.
      destruct Hr as (_ & nd & k & _ & ->). reflexivity.
  - exists Ex.car0, [Ex.pay (Ex.T0 + Ex.days 31) 400], (Ex.T0 + Ex.days 40).
    eexists. eexists.
    split; [reflexivity|].
    split; [intros p [<-|[]]; vm_compute; reflexivity|].
    split; [vm_compute; reflexivity|].
    split; [vm_compute; reflexivity|].
    vm_compute. discriminate.
Qed.

Lemma C5_witness :
  exists d r,
    loanDetails Ex.car0 [Ex.pay (Ex.T0 + Ex.days 31) 400] (Ex.T0 + Ex.days 40) = Some d
    /\ nextLoanPayment Ex.car0 [Ex.pay (Ex.T0 + Ex.days 31) 400] (Ex.T0 + Ex.days 40)
       = Some (NotPaidOff r)
    /\ (LoanDetails.remainingBalance d == 1973097 # 100)%Q
    /\ (NextLoanPayment.remainingBalance r == 1970184 # 100)%Q.
Proof.
  destruct (proj1 C5_details_accrue_to_now_next_payment_does_not Ex.car0
              [Ex.pay (Ex.T0 + Ex.days 31) 400] (Ex.T0 + Ex.days 40) 20000%Q 400%Q 60 Ex.T0
              eq_refl eq_refl eq_refl eq_refl) as [(d & Hd & _ & Hfwd) Hnext].
  exists d. eexists.
  split; [exact Hd|].
  split; [vm_compute; reflexivity|].
  split.
  - rewrite Hfwd; [vm_compute; reflexivity | vm_compute; discriminate | vm_compute; discriminate].
  - vm_compute. reflexivity.
Defined.

(** C6: when [getNextLoanPayment] finds a next installment, it is due one
    calendar month after the start of its period, [paidThisPeriod] is the sum
    of the payments dated after that start and up to the due date, and
    [amountDue] is [max(0, effectivePayment - paidThisPeriod)] rounded to
    cents, the installment being the remaining balance when that is below the
    monthly payment, the monthly payment otherwise. *)
Theorem C6_amount_due_of_next_installment
    (car : Car) (fetched : list Expense) (now : Z) (la mp : Q) (lt pd : Z)
    (r : NextLoanPayment.t) :
  truthyQ (loanAmount car) = Some la ->
  truthyQ (monthlyPayment car) = Some mp ->
  truthyZ (loanTerm car) = Some lt ->
  truthyZ (purchaseDate car) = Some pd ->
  nextLoanPayment car fetched now = Some (NotPaidOff r) ->
  let dueDate := dueDateOf (newDate pd) (NextLoanPayment.paymentNumber r) in
  let currentPeriodStart := setMonth dueDate ((fun m => m - 1) <$> getMonth dueDate) in
  let paid := Spec.paidThisPeriod currentPeriodStart dueDate (datedAmounts fetched) in
  1 <= NextLoanPayment.paymentNumber r <= lt
  /\ NextLoanPayment.nextDueDate r = getTime dueDate
  /\ NextLoanPayment.monthlyPayment r = mp
  /\ NextLoanPayment.paidThisPeriod r = roundCents paid
  /\ NextLoanPayment.amountDue r
     = roundCents (Spec.amountDue (NextLoanPayment.remainingBalance r) mp paid).
Proof.
  intros Hla Hmp Hlt Hpd Hr.
  apply (nextLoanPayment_due car fetched now la mp lt pd Hla Hmp Hlt Hpd) in Hr.
  destruct Hr as (_ & nd & k & Hfind & ->).
  apply findNextDue_Some in Hfind as (Hk & -> & _ & _). simpl.
  change (setMonth (dueDateOf (newDate pd) k) _)
    with (periodStartOf (dueDateOf (newDate pd) k)).
  assert (Hpaid :
    (sumOf amount
       (List.filter (inPeriod (periodStartOf (dueDateOf (newDate pd) k))
                              (dueDateOf (newDate pd) k)) (sortByDate fetched))
     == Spec.paidThisPeriod (periodStartOf (dueDateOf (newDate pd) k))
          (dueDateOf (newDate pd) k) (datedAmounts fetched))%Q).
  { rewrite paid_filter. apply paidThisPeriod_perm. symmetry. apply sortByDate_perm. }
  split; [exact Hk|]. split; [reflexivity|]. split; [reflexivity|].
  split; [now apply roundCents_comp|].
  apply roundCents_comp. unfold Spec.amountDue, Spec.effectivePayment.
  destruct (Qlt_bool _ _); now rewrite Hpaid.
Qed.

Lemma C6_witness :
  exists r,
    nextLoanPayment Ex.car0
      [Ex.pay (Ex.T0 + Ex.days 35) 150; Ex.pay (Ex.T0 + Ex.days 31) 400]
      (Ex.T0 + Ex.days 40) = Some (NotPaidOff r)
    /\ NextLoanPayment.paymentNumber r = 2
    /\ NextLoanPayment.nextDueDate r = Some (Ex.T0 + Ex.days 60)
    /\ (NextLoanPayment.paidThisPeriod r == 150)%Q
    /\ (NextLoanPayment.amountDue r == 250)%Q.
Proof.
  eexists.
  assert (H : nextLoanPayment Ex.car0
      [Ex.pay (Ex.T0 + Ex.days 35) 150; Ex.pay (Ex.T0 + Ex.days 31) 400]
      (Ex.T0 + Ex.days 40) = Some (NotPaidOff _)) by (vm_compute; reflexivity).
  split; [exact H|].
  destruct (C6_amount_due_of_next_installment Ex.car0 _ _ 20000 400 60 Ex.T0 _
              eq_refl eq_refl eq_refl eq_refl H) as (_ & _ & _ & Hp & Ha).
  split; [reflexivity|]. split; [reflexivity|].
  split; [rewrite Hp | rewrite Ha]; vm_compute; reflexivity.
Defined.

(** C7, as the code has it: the search counts a payment toward installment
    [k] exactly when it falls in the year and month of that installment's due
    date, whatever its day and its place in the list; so when the months of
    installments 1 to [n - 1] each hold a payment and the month of
    installment [n] holds none, installment [n] is reported next (with a term
    of 12 and the first three months paid, installment 4), the loan not being
    paid off by its balance. For a purchase on a day of the month up to the
    28th, the month of installment [k] is the [k]-th calendar month after the
    purchase. *)
Theorem C7_payments_count_by_calendar_month
    (car : Car) (fetched : list Expense) (now : Z) (la mp : Q) (lt pd n : Z) :
  truthyQ (loanAmount car) = Some la ->
  truthyQ (monthlyPayment car) = Some mp ->
  truthyZ (loanTerm car) = Some lt ->
  truthyZ (purchaseDate car) = Some pd ->
  let dueDate := dueDateOf (newDate pd) in
  let balance :=
    fst (replayPayments (monthlyInterestRateOf car) (la, pd) (sortByDate fetched)) in
  (forall k, bool_decide (monthKey (dueDate k) ∈ paidMonthsOf (sortByDate fetched)) = true
             <-> paidInMonthOf fetched (dueDate k))
  /\ (Qle_bool (roundCents balance) (1 # 100) = false ->
      1 <= n <= lt ->
      (forall k, 1 <= k < n -> paidInMonthOf fetched (dueDate k)) ->
      ~ paidInMonthOf fetched (dueDate n) ->
      exists r, nextLoanPayment car fetched now = Some (NotPaidOff r)
        /\ NextLoanPayment.paymentNumber r = n
        /\ NextLoanPayment.nextDueDate r = getTime (dueDate n))
  /\ (DateFromTime pd <= 28 ->
      forall k u, dueDate k = Some u ->
        YearFromTime u * 12 + MonthFromTime u
        = YearFromTime pd * 12 + MonthFromTime pd + k).
Proof.
  intros Hla Hmp Hlt Hpd dueDate balance. split; [|split].
  - intros k. rewrite bool_decide_eq_true. apply paidMonths_sorted_has.
  - intros Hbal Hn Hpaid Hnot.
    assert (Hfind : findNextDue (paidMonthsOf (sortByDate fetched)) (newDate pd) lt
                    = Some (dueDate n, n)).
    { apply findNextDue_Some. split; [exact Hn|]. split; [reflexivity|]. split.
      - intros Hin. apply Hnot. now apply paidMonths_sorted_has.
      - intros i Hi. apply paidMonths_sorted_has. now apply Hpaid. }
    eexists. split.
    + apply (nextLoanPayment_due car fetched now la mp lt pd Hla Hmp Hlt Hpd).
      split; [exact Hbal|]. exists (dueDate n), n. split; [exact Hfind|]. reflexivity.
    + split; reflexivity.
  - intros Hday k u. now apply dueDateOf_month_index.
Qed.

Lemma C7_witness :
  exists r, nextLoanPayment Ex.car12 Ex.threeMonths (Ex.T0 + Ex.days 90) = Some (NotPaidOff r)
    /\ NextLoanPayment.paymentNumber r = 4
    /\ NextLoanPayment.nextDueDate r = getTime (dueDateOf (newDate Ex.T0) 4).
Proof.
  apply (proj1 (proj2 (C7_payments_count_by_calendar_month Ex.car12 Ex.threeMonths
                  (Ex.T0 + Ex.days 90) 20000 400 12 Ex.T0 4
                  eq_refl eq_refl eq_refl eq_refl))).
  - vm_compute. reflexivity.
  - lia.
  - intros k Hk.
    assert (k = 1 \/ k = 2 \/ k = 3) as [-> | [-> | ->]] by lia.
    + exists (Ex.pay (Ex.T0 + Ex.days 26) 400).
      split; [right; now left|]. split; vm_compute; reflexivity.
    + exists (Ex.pay (Ex.T0 + Ex.days 65) 400).
      split; [now left|]. split; vm_compute; reflexivity.
    + exists (Ex.pay (Ex.T0 + Ex.days 81) 400).
      split; [right; right; now left|]. split; vm_compute; reflexivity.
  - intros (p & Hin & _ & Hm).
    destruct Hin as [<- | [<- | [<- | Hin]]]; [| | |destruct Hin];
      vm_compute in Hm; discriminate.
Defined.

(** C7 fails as stated. On [Ex.carJan31], bought on January 31, 2023 over
    twelve months, the due dates of installments 1 to 4 are the last day of
    January moved on by one to four months, which the calendar turns into
    March 3, March 31, May 1 and May 31: with a payment in each of the first
    three calendar months after the purchase (February 15, March 5 and
    April 10), the March payment counts for installments 1 and 2, no payment
    falls in May, and installment 3 is reported next, not installment 4.
    On [Ex.car12], bought on the 15th, payments in the first three months of
    which the first repays the whole loan make the handler answer paid off,
    and no installment is reported. *)
Lemma C7_counterexample :
  let fetched :=
    [Ex.pay (Ex.Jan31 + Ex.days 15) 400; Ex.pay Ex.Mar5 400;
     Ex.pay (Ex.Jan31 + Ex.days 69) 400] in
  List.map (fun payment => (YearFromTime (date payment), MonthFromTime (date payment)))
           fetched
    = [(2023, 1); (2023, 2); (2023, 3)]
  /\ List.map (fun k => (fun u => (YearFromTime u, MonthFromTime u, DateFromTime u))
                          <$> dueDateOf (newDate Ex.Jan31) k) [1; 2; 3; 4]
     = [Some (2023, 2, 3); Some (2023, 2, 31); Some (2023, 4, 1); Some (2023, 4, 31)]
  /\ (exists r, nextLoanPayment Ex.carJan31 fetched (Ex.Jan31 + Ex.days 80)
                = Some (NotPaidOff r)
        /\ NextLoanPayment.paymentNumber r = 3
        /\ NextLoanPayment.paymentNumber r <> 4)
  /\ nextLoanPayment Ex.car12
       [Ex.pay (Ex.T0 + Ex.days 26) 25000; Ex.pay (Ex.T0 + Ex.days 65) 400;
        Ex.pay (Ex.T0 + Ex.days 81) 400] (Ex.T0 + Ex.days 90)
     = Some PaidOff.
Proof.
  cbv zeta. split; [vm_compute; reflexivity|].
  split; [vm_compute; reflexivity|].
  split; [|vm_compute; reflexivity].
  eexists. split; [vm_compute; reflexivity|].
  split; [reflexivity | discriminate].
Qed.


(** C8, as the code has it: from any state the replay reaches on a loan
    whose amount is not negative, one more payment, dated no earlier than the
    others, of the whole balance plus the interest accrued on it up to the
    date of that payment (nothing at a zero rate, or with no time elapsed),
    or of more, or of less by under half a cent, leaves a balance that rounds
    to zero cents, and [getNextLoanPayment] reports the loan paid off;
    [getLoanDetails] does too when the payment is not short of that sum. *)
Theorem C8_paying_balance_and_accrued_interest_pays_off
    (car : Car) (fetched : list Expense) (payoff : Expense) (now : Z)
    (la mp : Q) (lt pd : Z) :
  truthyQ (loanAmount car) = Some la ->
  truthyQ (monthlyPayment car) = Some mp ->
  truthyZ (loanTerm car) = Some lt ->
  truthyZ (purchaseDate car) = Some pd ->
  (0 <= la)%Q ->
  let rate := monthlyInterestRateOf car in
  let reached := replayPayments rate (la, pd) (sortByDate fetched) in
  let accrued :=
    (fst reached * rate
     * Qmax 0 (inject_Z (date payoff - snd reached) / msPerMonth))%Q in
  (forall payment, In payment fetched -> date payment <= date payoff) ->
  (fst reached + accrued - (1 # 200) < amount payoff)%Q ->
  (roundCents (fst (replayPayments rate (la, pd) (sortByDate (fetched ++ [payoff]))))
   == 0)%Q
  /\ nextLoanPayment car (fetched ++ [payoff]) now = Some PaidOff
  /\ ((fst reached + accrued <= amount payoff)%Q ->
      exists d, loanDetails car (fetched ++ [payoff]) now = Some d
        /\ LoanDetails.isPaidOff d = true
        /\ (LoanDetails.remainingBalance d == 0)%Q).
Proof.
  intros Hla Hmp Hlt Hpd Hla0 rate reached accrued Hlast Hamount.
  assert (Hafter :
    replayPayments rate (la, pd) (sortByDate (fetched ++ [payoff]))
    = applyPayment rate reached payoff).
  { rewrite sortByDate_snoc by exact Hlast. now rewrite replayPayments_app. }
  assert (Hreached : (0 <= fst reached)%Q) by now apply replayPayments_nonneg.
  rewrite Hafter. subst accrued.
  destruct reached as [b d] eqn:E. cbn [fst snd] in *.
  assert (Hzero : (roundCents (fst (applyPayment rate (b, d) payoff)) == 0)%Q).
  { destruct (applyPayment_nearly rate b d payoff Hreached Hamount) as [H0 H1].
    now apply roundCents_small. }
  split; [exact Hzero|]. split.
  - apply nextLoanPayment_paid_by_balance
      with (la := la) (mp := mp) (lt := lt) (pd := pd); try assumption.
    fold rate. rewrite Hafter. apply Qle_bool_iff. rewrite Hzero. discriminate.
  - intros Hcovers.
    pose proof (applyPayment_covers rate b d payoff Hreached Hcovers) as Hnone.
    destruct (loanDetails_balance car (fetched ++ [payoff]) now la mp lt Hla Hmp Hlt)
      as (det & Hd & Hrem & Hpaid).
    rewrite Hpd in Hrem, Hpaid. fold rate in Hrem, Hpaid.
    rewrite Hafter in Hrem, Hpaid.
    set (final := applyPayment rate (b, d) payoff) in *.
    assert (Hproj :
      (fst final + fst final * rate * Qmax 0 (inject_Z (now - snd final) / msPerMonth)
       == 0)%Q) by (rewrite Hnone; ring).
    rewrite (roundCents_comp _ 0 Hproj) in Hrem, Hpaid.
    exists det. split; [exact Hd|]. split; [rewrite Hpaid; reflexivity|].
    rewrite Hrem. reflexivity.
Qed.

(** On [Ex.car0] after a first payment of 400: 31 days later 19802.16 and a
    fraction of a cent are owed, and the payment of 19802.17 pays the loan
    off. *)
Lemma C8_witness :
  let fetched := [Ex.pay (Ex.T0 + Ex.days 31) 400] in
  let payoff := Ex.pay (Ex.T0 + Ex.days 62) (1980217 # 100) in
  let now := Ex.T0 + Ex.days 70 in
  (roundCents (fst (replayPayments (monthlyInterestRateOf Ex.car0) (20000%Q, Ex.T0)
                      (sortByDate (fetched ++ [payoff])))) == 0)%Q
  /\ nextLoanPayment Ex.car0 (fetched ++ [payoff]) now = Some PaidOff
  /\ exists d, loanDetails Ex.car0 (fetched ++ [payoff]) now = Some d
       /\ LoanDetails.isPaidOff d = true
       /\ (LoanDetails.remainingBalance d == 0)%Q.
Proof.
  cbv zeta.
  destruct (C8_paying_balance_and_accrued_interest_pays_off Ex.car0
              [Ex.pay (Ex.T0 + Ex.days 31) 400]
              (Ex.pay (Ex.T0 + Ex.days 62) (1980217 # 100)) (Ex.T0 + Ex.days 70)
              20000 400 60 Ex.T0 eq_refl eq_refl eq_refl eq_refl)
    as (Hzero & Hpaid & Hdetails).
  - vm_compute. discriminate.
  - intros p [<- | []]. vm_compute. discriminate.
  - vm_compute. reflexivity.
  - split; [exact Hzero|]. split; [exact Hpaid|].
    apply Hdetails. vm_compute. discriminate.
Defined.

(** The same loan is paid off by 19802.16, which is short of what is owed by
    a tenth of a cent. *)
Example ex_payoff_short_of_a_fraction_of_a_cent :
  let fetched := [Ex.pay (Ex.T0 + Ex.days 31) 400] in
  let payoff := Ex.pay (Ex.T0 + Ex.days 62) (1980216 # 100) in
  nextLoanPayment Ex.car0 (fetched ++ [payoff]) (Ex.T0 + Ex.days 70) = Some PaidOff
  /\ (0 < fst (replayPayments (monthlyInterestRateOf Ex.car0) (20000%Q, Ex.T0)
                 (sortByDate (fetched ++ [payoff]))) < 1 # 200)%Q.
Proof. cbv zeta. split; [|split]; vm_compute; reflexivity. Qed.

(** C8 fails as stated: on [Ex.car0], after a first payment of 400, a
    payment of exactly the balance reached, made 31 days later, first covers
    the interest accrued on that balance; about 100 is left and neither
    handler reports the loan paid off. *)
Lemma C8_counterexample :
  let fetched := [Ex.pay (Ex.T0 + Ex.days 31) 400] in
  let reached :=
    replayPayments (monthlyInterestRateOf Ex.car0) (20000%Q, Ex.T0) (sortByDate fetched) in
  let payoff := Ex.pay (Ex.T0 + Ex.days 62) (fst reached) in
  let now := Ex.T0 + Ex.days 62 in
  amount payoff = fst reached
  /\ (100 < fst (replayPayments (monthlyInterestRateOf Ex.car0) (20000%Q, Ex.T0)
                   (sortByDate (fetched ++ [payoff]))))%Q
  /\ (exists r, nextLoanPayment Ex.car0 (fetched ++ [payoff]) now = Some (NotPaidOff r)
        /\ (NextLoanPayment.remainingBalance r == 10032 # 100)%Q)
  /\ (exists d, loanDetails Ex.car0 (fetched ++ [payoff]) now = Some d
        /\ LoanDetails.isPaidOff d = false
        /\ (LoanDetails.remainingBalance d == 10032 # 100)%Q).
Proof.
  cbv zeta. split; [reflexivity|].
  split; [vm_compute; reflexivity|].
  split; eexists; (split; [vm_compute; reflexivity|]); try split;
    vm_compute; reflexivity.
Qed.

(** C9, as the code has it: two permutations of one payment list in which
    the payments of any one date come in the same order (as they do whenever
    the dates are pairwise distinct) are sorted into the same list, so both
    handlers return the same result, ending balance included. *)
Theorem C9_order_matters_only_within_a_date
    (car : Car) (l1 l2 : list Expense) (now : Z) :
  Permutation l1 l2 ->
  (NoDup (List.map date l1) \/ forall d, paymentsOn d l1 = paymentsOn d l2) ->
  sortByDate l1 = sortByDate l2
  /\ (forall rate st,
        replayPayments rate st (sortByDate l1) = replayPayments rate st (sortByDate l2))
  /\ nextLoanPayment car l1 now = nextLoanPayment car l2 now
  /\ loanDetails car l1 now = loanDetails car l2 now.
Proof.
  intros Hp Hsame.
  assert (E : sortByDate l1 = sortByDate l2).
  { apply sortByDate_same_dates.
    destruct Hsame as [Hnd|Hon]; [now apply distinct_dates_same_order | exact Hon]. }
  split; [exact E|]. split; [intros; now rewrite E|].
  unfold nextLoanPayment, loanDetails. now rewrite E.
Qed.

(** C9 fails as stated: two payments of one same date, 50 and 400, are kept
    in the order they are fetched in, and the interest of 100 accrued is
    charged to whichever comes first, so the two orders end 50 apart. *)
Lemma C9_counterexample :
  let l1 := [Ex.pay Ex.T1 50; Ex.pay Ex.T1 400] in
  let l2 := [Ex.pay Ex.T1 400; Ex.pay Ex.T1 50] in
  let now := Ex.T1 in
  Permutation l1 l2
  /\ (exists r1 r2,
        nextLoanPayment Ex.car0 l1 now = Some (NotPaidOff r1)
        /\ nextLoanPayment Ex.car0 l2 now = Some (NotPaidOff r2)
        /\ (NextLoanPayment.remainingBalance r1 == 19600)%Q
        /\ (NextLoanPayment.remainingBalance r2 == 19650)%Q)
  /\ (exists d1 d2,
        loanDetails Ex.car0 l1 now = Some d1
        /\ loanDetails Ex.car0 l2 now = Some d2
        /\ (LoanDetails.remainingBalance d1 == 19600)%Q
        /\ (LoanDetails.remainingBalance d2 == 19650)%Q).
Proof.
  cbv zeta. split; [apply perm_swap|].
  split; do 2 eexists;
    (split; [vm_compute; reflexivity|]); (split; [vm_compute; reflexivity|]);
    split; vm_compute; reflexivity.
Qed.

Lemma C9_witness :
  let l1 := [Ex.pay Ex.T1 50; Ex.pay (Ex.T0 + Ex.days 62) 400; Ex.pay Ex.T1 400] in
  let l2 := [Ex.pay (Ex.T0 + Ex.days 62) 400; Ex.pay Ex.T1 50; Ex.pay Ex.T1 400] in
  nextLoanPayment Ex.car0 l1 Ex.T1 = nextLoanPayment Ex.car0 l2 Ex.T1
  /\ loanDetails Ex.car0 l1 Ex.T1 = loanDetails Ex.car0 l2 Ex.T1.
Proof.
  cbv zeta.
  apply (C9_order_matters_only_within_a_date Ex.car0
           [Ex.pay Ex.T1 50; Ex.pay (Ex.T0 + Ex.days 62) 400; Ex.pay Ex.T1 400]
           [Ex.pay (Ex.T0 + Ex.days 62) 400; Ex.pay Ex.T1 50; Ex.pay Ex.T1 400] Ex.T1).
  - apply perm_swap.
  - right. intros d. unfold paymentsOn. cbn [List.filter Ex.pay date].
    destruct (Z.eqb_spec Ex.T1 d) as [H1|H1],
             (Z.eqb_spec (Ex.T0 + Ex.days 62) d) as [H2|H2]; try reflexivity.
    exfalso. rewrite <- H1 in H2. vm_compute in H2. discriminate.
Defined.

(** C10: a car bought on January 31, 2023: installment 1 falls due on March 3
    (February 31 rolled over) and installment 2 on March 31, both in the
    bucket of March 2023, and no installment falls in February. A single
    payment made in March settles both, and each handler then reports
    installment 3 (due May 1) as the next one, installment 2 being passed
    over. *)
Theorem C10_month_end_purchase_shares_a_bucket :
  exists (car : Car) (purchase : Z) (term k k' : Z) (payment : Expense) (now : Z),
    purchaseDate car = Some purchase
    /\ loanTerm car = Some term
    /\ 29 <= DateFromTime purchase <= 31
    /\ 1 <= k <= term /\ 1 <= k' <= term /\ k <> k'
    /\ monthKey (dueDateOf (newDate purchase) k)
       = monthKey (dueDateOf (newDate purchase) k')
    /\ (forall j, 1 <= j <= term ->
          monthKey (dueDateOf (newDate purchase) j) <> "2023-1")
    /\ paidInMonthOf [payment] (dueDateOf (newDate purchase) k)
    /\ paidInMonthOf [payment] (dueDateOf (newDate purchase) k')
    /\ (exists r, nextLoanPayment car [payment] now = Some (NotPaidOff r)
          /\ NextLoanPayment.paymentNumber r = 3
          /\ NextLoanPayment.nextDueDate r = getTime (dueDateOf (newDate purchase) 3))
    /\ (exists d, loanDetails car [payment] now = Some d
          /\ LoanDetails.nextPaymentDate d
             = Some (getTime (dueDateOf (newDate purchase) 3))).
Proof.
  exists Ex.carJan31, Ex.Jan31, 12, 1, 2, (Ex.pay Ex.Mar5 400), Ex.Mar5.
  split; [reflexivity|]. split; [reflexivity|].
  split; [vm_compute; split; discriminate|].
  split; [lia|]. split; [lia|]. split; [lia|].
  split; [vm_compute; reflexivity|].
  split.
  { intros j Hj.
    assert (j = 1 \/ j = 2 \/ j = 3 \/ j = 4 \/ j = 5 \/ j = 6 \/ j = 7 \/ j = 8
            \/ j = 9 \/ j = 10 \/ j = 11 \/ j = 12) as Hcases by lia.
    repeat (destruct Hcases as [-> | Hcases]; [vm_compute; discriminate|]).
    subst j. vm_compute. discriminate. }
  split; [exists (Ex.pay Ex.Mar5 400); split; [now left | split; vm_compute; reflexivity]|].
  split; [exists (Ex.pay Ex.Mar5 400); split; [now left | split; vm_compute; reflexivity]|].
  split; eexists; (split; [vm_compute; reflexivity|]); try split; vm_compute; reflexivity.
Qed.

(** * Further properties of the handlers *)

(** ** More on rounding to cents *)

Section Cents.

Lemma Qfloor_unique (q : Q) (z : Z) :
  (inject_Z z <= q)%Q -> (q < inject_Z (z + 1))%Q -> Qfloor q = z.
Proof.
  intros Hle Hlt.
  pose proof (Qfloor_le q) as H1. pose proof (Qlt_floor q) as H2.
  assert (Ha : (inject_Z (Qfloor q) < inject_Z (z + 1))%Q) by lra.
  assert (Hb : (inject_Z z < inject_Z (Qfloor q + 1))%Q) by lra.
  rewrite <- Zlt_Qlt in Ha, Hb. lia.
Qed.

Lemma Math_round_bounds (x : Q) :
  (x - (1 # 2) < inject_Z (Math_round x) <= x + (1 # 2))%Q.
Proof.
  unfold Math_round.
  pose proof (Qfloor_le (x + (1 # 2))) as H1.
  pose proof (Qlt_floor (x + (1 # 2))) as H2.
  rewrite inject_Z_plus in H2. change (inject_Z 1) with 1%Q in H2.
  split; lra.
Qed.

Lemma Math_round_inject (z : Z) : Math_round (inject_Z z) = z.
Proof.
  unfold Math_round. apply Qfloor_unique.
  - lra.
  - rewrite inject_Z_plus. change (inject_Z 1) with 1%Q. lra.
Qed.

(** [Math.round(x * 100) / 100] is within half a cent of [x]. *)
Lemma roundCents_near (x : Q) :
  (x - (1 # 200) < roundCents x <= x + (1 # 200))%Q.
Proof.
  unfold roundCents. pose proof (Math_round_bounds (x * 100)) as [H1 H2].
  set (n := inject_Z (Math_round (x * 100))) in *.
  split.
  - apply Qlt_shift_div_l; [reflexivity|]. lra.
  - apply Qle_shift_div_r; [reflexivity|]. lra.
Qed.

Lemma roundCents_cents (z : Z) :
  roundCents (inject_Z z / 100) = (inject_Z z / 100)%Q.
Proof.
  unfold roundCents. f_equal. f_equal.
  assert (E : (inject_Z z / 100 * 100 == inject_Z z)%Q) by (field).
  unfold Math_round. rewrite (Qfloor_comp _ (inject_Z z + (1 # 2))) by now rewrite E.
  apply Math_round_inject.
Qed.

Lemma roundCents_idem (x : Q) : roundCents (roundCents x) = roundCents x.
Proof. unfold roundCents at 2 3. apply roundCents_cents. Qed.

End Cents.

(** Name every [Qmax] and [Qmin] in sight, case on which argument it is,
    and finish by linear arithmetic. *)
Ltac q_minmax_step t spec :=
  let H := fresh "H" in
  let m := fresh "m" in
  pose proof spec as H;
  set (m := t) in *;
  clearbody m; destruct H as [[? ?]|[? ?]].

Ltac q_minmax :=
  repeat match goal with
    | |- context [Qmax ?a ?b] => q_minmax_step (Qmax a b) (Q.max_spec a b)
    | |- context [Qmin ?a ?b] => q_minmax_step (Qmin a b) (Q.min_spec a b)
    | _ : context [Qmax ?a ?b] |- _ => q_minmax_step (Qmax a b) (Q.max_spec a b)
    | _ : context [Qmin ?a ?b] |- _ => q_minmax_step (Qmin a b) (Q.min_spec a b)
    end;
  try lra.

Section ZeroRate.

Variable monthlyInterestRate : Q.
Hypothesis Hzero : (monthlyInterestRate == 0)%Q.

Lemma applyPayment_zero_rate (b : Q) (d : Z) (p : Expense) :
  (fst (applyPayment monthlyInterestRate (b, d) p) == Qmax 0 (b - Qmax 0 (amount p)))%Q.
Proof.
  simpl. set (me := Qmax 0 (_ / msPerMonth)).
  assert (Hacc : (b * monthlyInterestRate * me == 0)%Q) by (rewrite Hzero; ring).
  rewrite Hacc.
  assert (Hpp : (Qmax 0 (amount p - Qmin (amount p) 0) == Qmax 0 (amount p))%Q)
    by q_minmax.
  now rewrite Hpp.
Qed.

Lemma sumOf_cons (f : Expense -> Q) (p : Expense) (l : list Expense) :
  (sumOf f (p :: l) == f p + sumOf f l)%Q.
Proof. rewrite !sumOf_fold_right. reflexivity. Qed.

Lemma sumOf_nonneg (f : Expense -> Q) (l : list Expense) :
  (forall p, (0 <= f p)%Q) -> (0 <= sumOf f l)%Q.
Proof.
  intros Hf. rewrite sumOf_fold_right.
  induction l as [|p l IH]; simpl; [lra|]. specialize (Hf p). lra.
Qed.

Lemma replayPayments_zero_rate (b : Q) (d : Z) (l : list Expense) :
  (0 <= b)%Q ->
  (fst (replayPayments monthlyInterestRate (b, d) l)
   == Qmax 0 (b - sumOf (fun p => Qmax 0 (amount p)) l))%Q.
Proof.
  revert b d. induction l as [|p l IH]; intros b d Hb.
  - simpl. unfold sumOf. simpl. q_minmax.
  - cbn [replayPayments List.fold_left].
    destruct (applyPayment monthlyInterestRate (b, d) p) as [b' d'] eqn:E.
    assert (Hb' : (b' == Qmax 0 (b - Qmax 0 (amount p)))%Q).
    { change b' with (fst (b', d')). rewrite <- E. apply applyPayment_zero_rate. }
    assert (Hb0 : (0 <= b')%Q) by (rewrite Hb'; apply Q.le_max_l).
    fold (replayPayments monthlyInterestRate (b', d') l).
    rewrite (IH b' d' Hb0), sumOf_cons, Hb'.
    pose proof (sumOf_nonneg (fun p => Qmax 0 (amount p)) l
                  (fun p => Q.le_max_l 0 (amount p))) as Hs.
    set (s := sumOf _ l) in *. set (a := Qmax 0 (amount p)).
    assert (0 <= a)%Q by apply Q.le_max_l.
    q_minmax.
Qed.

End ZeroRate.

Lemma sumOf_perm (f : Expense -> Q) (l1 l2 : list Expense) :
  Permutation l1 l2 -> (sumOf f l1 == sumOf f l2)%Q.
Proof.
  intros Hp. rewrite !sumOf_fold_right.
  induction Hp as [|p l l' _ IH|p q l|l l' l'' _ IH1 _ IH2]; simpl.
  - reflexivity.
  - now rewrite IH.
  - ring.
  - now rewrite IH1.
Qed.

(** ** [getLoanDetails], field by field *)

Section DetailsFields.

Variables (car : Car) (fetched : list Expense) (now : Z).
Variables (la mp : Q) (lt : Z).
Hypothesis Hla : truthyQ (loanAmount car) = Some la.
Hypothesis Hmp : truthyQ (monthlyPayment car) = Some mp.
Hypothesis Hlt : truthyZ (loanTerm car) = Some lt.

Lemma loanDetails_next (d : LoanDetails.t) :
  loanDetails car fetched now = Some d ->
  let next :=
    match LoanDetails.isPaidOff d, truthyZ (purchaseDate car) with
    | false, Some pd => findNextDue (paidMonthsOf (sortByDate fetched)) (newDate pd) lt
    | _, _ => None
    end in
  LoanDetails.nextPaymentDate d = (fun '(dueDate, _) => getTime dueDate) <$> next
  /\ LoanDetails.isOverdue d
     = match next with
       | Some (dueDate, _) => dateGt (newDate now) dueDate
       | None => false
       end.
Proof.
  unfold loanDetails. rewrite Hla, Hmp, Hlt.
  destruct (replayPayments _ _ _) as [b last]. intros [= <-]. simpl.
  split; reflexivity.
Qed.

Lemma loanDetails_history (d : LoanDetails.t) :
  loanDetails car fetched now = Some d ->
  LoanDetails.payments d
  = List.map (fun payment =>
      {| LoanDetails._id := _id payment;
         LoanDetails.date := date payment;
         LoanDetails.amount := roundCents (amount payment);
         LoanDetails.principalAmount := roundCents (orZero (principalAmount payment));
         LoanDetails.interestAmount := roundCents (orZero (interestAmount payment)) |})
      (sortByDate fetched)
  /\ LoanDetails.totalPaid d = roundCents (sumOf amount (sortByDate fetched))
  /\ LoanDetails.totalPrincipal d
     = roundCents (sumOf (fun payment => orZero (principalAmount payment)) (sortByDate fetched))
  /\ LoanDetails.totalInterest d
     = roundCents (sumOf (fun payment => orZero (interestAmount payment)) (sortByDate fetched)).
Proof.
  unfold loanDetails. rewrite Hla, Hmp, Hlt.
  destruct (replayPayments _ _ _) as [b last]. intros [= <-]. simpl.
  repeat split; reflexivity.
Qed.

End DetailsFields.

(** ** The loan queries: what the two report, and where they differ *)

Lemma monthlyInterestRateOf_nonneg car :
  (0 <= orZero (interestRate car))%Q -> (0 <= monthlyInterestRateOf car)%Q.
Proof.
  intros H. unfold monthlyInterestRateOf.
  apply Qle_shift_div_l; [reflexivity|]. apply Qle_shift_div_l; [reflexivity|]. lra.
Qed.

Lemma monthlyInterestRateOf_zero car :
  (orZero (interestRate car) == 0)%Q -> (monthlyInterestRateOf car == 0)%Q.
Proof. intros H. unfold monthlyInterestRateOf. rewrite H. reflexivity. Qed.

Lemma not_paid_off_gt x : Qle_bool x (1 # 100) = false -> ((1 # 100) < x)%Q.
Proof.
  intros H. apply Qnot_le_lt. intros Hle. apply Qle_bool_iff in Hle. congruence.
Qed.

(** X1: rounding to cents moves a value by at most half a cent and leaves a
    value already rounded as it is. *)
Theorem X1_roundCents_is_near_and_idempotent (x : Q) :
  (x - (1 # 200) < roundCents x <= x + (1 # 200))%Q
  /\ roundCents (roundCents x) = roundCents x
  /\ forall cents : Z, roundCents (inject_Z cents / 100) = (inject_Z cents / 100)%Q.
Proof.
  split; [apply roundCents_near|]. split; [apply roundCents_idem|]. apply roundCents_cents.
Qed.

(** X2: with no interest rate, or a rate of zero, every payment goes to the
    principal: the balance is the loan amount less the payments (a negative
    amount counting for nothing), never below zero, whatever the dates and the
    order of the payments; both handlers report it, rounded. *)
Theorem X2_zero_rate_balance_is_amount_less_payments
    (car : Car) (fetched : list Expense) (now : Z) (la mp : Q) (lt pd : Z) :
  truthyQ (loanAmount car) = Some la ->
  truthyQ (monthlyPayment car) = Some mp ->
  truthyZ (loanTerm car) = Some lt ->
  truthyZ (purchaseDate car) = Some pd ->
  (0 <= la)%Q ->
  (orZero (interestRate car) == 0)%Q ->
  let owed := Qmax 0 (la - sumOf (fun payment => Qmax 0 (amount payment)) fetched) in
  (Qle_bool (roundCents owed) (1 # 100) = true ->
   nextLoanPayment car fetched now = Some PaidOff)
  /\ (forall r, nextLoanPayment car fetched now = Some (NotPaidOff r) ->
      NextLoanPayment.remainingBalance r = roundCents owed)
  /\ exists d, loanDetails car fetched now = Some d
       /\ (LoanDetails.remainingBalance d == roundCents owed)%Q
       /\ LoanDetails.isPaidOff d = Qle_bool (roundCents owed) (1 # 100).
Proof.
  intros Hla Hmp Hlt Hpd Hla0 Hrate owed.
  pose proof (monthlyInterestRateOf_zero car Hrate) as Hzero.
  set (final := replayPayments (monthlyInterestRateOf car) (la, pd) (sortByDate fetched)).
  assert (Hfinal : (fst final == owed)%Q).
  { subst final owed.
    rewrite (replayPayments_zero_rate _ Hzero la pd (sortByDate fetched) Hla0).
    now rewrite (sumOf_perm _ _ _ (Permutation_sym (sortByDate_perm fetched))). }
  split; [|split].
  - intros Hpaid.
    apply nextLoanPayment_paid_by_balance
      with (la := la) (mp := mp) (lt := lt) (pd := pd); try assumption.
    fold final. now rewrite (roundCents_comp _ _ Hfinal).
  - intros r Hr.
    apply (nextLoanPayment_due car fetched now la mp lt pd Hla Hmp Hlt Hpd) in Hr.
    destruct Hr as (_ & nd & k & _ & ->). cbn. fold final.
    now apply roundCents_comp.
  - destruct (loanDetails_balance car fetched now la mp lt Hla Hmp Hlt)
      as (d & Hd & Hrem & Hpaid).
    rewrite Hpd in Hrem, Hpaid. fold final in Hrem, Hpaid.
    assert (Hfwd : (fst final + fst final * monthlyInterestRateOf car
                    * Qmax 0 (inject_Z (now - snd final) / msPerMonth) == owed)%Q)
      by (rewrite Hzero, Hfinal; ring).
    rewrite (roundCents_comp _ _ Hfwd) in Hrem, Hpaid.
    exists d. split; [exact Hd|]. split; [|exact Hpaid].
    rewrite Hrem. apply Qmax_0_nonneg, roundCents_nonneg. subst owed. apply Q.le_max_l.
Qed.

(** X3: on a loan whose amount and rate are not negative, when
    [getNextLoanPayment] reports a next installment, [getLoanDetails] reports
    the loan as not paid off, with the same next payment date and the same
    overdue flag, and a remaining balance that is not smaller. *)
Theorem X3_details_agree_with_next_payment
    (car : Car) (fetched : list Expense) (now : Z) (la mp : Q) (lt pd : Z)
    (r : NextLoanPayment.t) :
  truthyQ (loanAmount car) = Some la ->
  truthyQ (monthlyPayment car) = Some mp ->
  truthyZ (loanTerm car) = Some lt ->
  truthyZ (purchaseDate car) = Some pd ->
  (0 <= la)%Q ->
  (0 <= orZero (interestRate car))%Q ->
  nextLoanPayment car fetched now = Some (NotPaidOff r) ->
  exists d, loanDetails car fetched now = Some d
    /\ LoanDetails.isPaidOff d = false
    /\ LoanDetails.nextPaymentDate d = Some (NextLoanPayment.nextDueDate r)
    /\ LoanDetails.isOverdue d = NextLoanPayment.isOverdue r
    /\ (NextLoanPayment.remainingBalance r <= LoanDetails.remainingBalance d)%Q.
Proof.
  intros Hla Hmp Hlt Hpd Hla0 Hrate0 Hr.
  apply (nextLoanPayment_due car fetched now la mp lt pd Hla Hmp Hlt Hpd) in Hr.
  destruct Hr as (Hbal & nd & k & Hfind & ->). cbn.
  destruct (loanDetails_balance car fetched now la mp lt Hla Hmp Hlt)
    as (d & Hd & Hrem & Hpaid).
  rewrite Hpd in Hrem, Hpaid.
  set (final := replayPayments (monthlyInterestRateOf car) (la, pd) (sortByDate fetched)) in *.
  set (forward := (fst final + fst final * monthlyInterestRateOf car
                   * Qmax 0 (inject_Z (now - snd final) / msPerMonth))%Q) in *.
  assert (Hfwd : (fst final <= forward)%Q).
  { subst forward.
    assert (0 <= fst final)%Q by (apply replayPayments_nonneg; exact Hla0).
    pose proof (monthlyInterestRateOf_nonneg car Hrate0).
    assert (0 <= Qmax 0 (inject_Z (now - snd final) / msPerMonth))%Q by apply Q.le_max_l.
    assert (0 <= fst final * monthlyInterestRateOf car
                 * Qmax 0 (inject_Z (now - snd final) / msPerMonth))%Q
      by (apply Qmult_le_0_compat; [apply Qmult_le_0_compat|]; assumption).
    lra. }
  pose proof (roundCents_le _ _ Hfwd) as Hround.
  pose proof (not_paid_off_gt _ Hbal) as Hgt.
  assert (Hnot : LoanDetails.isPaidOff d = false).
  { rewrite Hpaid. destruct (Qle_bool (roundCents forward) (1 # 100)) eqn:E; [|reflexivity].
    apply Qle_bool_iff in E. lra. }
  exists d. split; [exact Hd|]. split; [exact Hnot|].
  destruct (loanDetails_next car fetched now la mp lt Hla Hmp Hlt d Hd) as [Hdate Hover].
  rewrite Hnot, Hpd, Hfind in Hdate, Hover.
  split; [exact Hdate|]. split; [exact Hover|].
  rewrite Hrem. eapply Qle_trans; [exact Hround|]. apply Q.le_max_r.
Qed.

(** X4: the two handlers can disagree the other way: when every installment
    month holds a payment, [getNextLoanPayment] answers paid off whatever is
    owed, while [getLoanDetails], if its balance is above one cent, reports
    the loan as not paid off, with no next payment date and not overdue. *)
Theorem X4_all_months_paid_but_details_not_paid_off
    (car : Car) (fetched : list Expense) (now : Z) (la mp : Q) (lt pd : Z)
    (d : LoanDetails.t) :
  truthyQ (loanAmount car) = Some la ->
  truthyQ (monthlyPayment car) = Some mp ->
  truthyZ (loanTerm car) = Some lt ->
  truthyZ (purchaseDate car) = Some pd ->
  (forall k, 1 <= k <= lt -> paidInMonthOf fetched (dueDateOf (newDate pd) k)) ->
  loanDetails car fetched now = Some d ->
  LoanDetails.isPaidOff d = false ->
  nextLoanPayment car fetched now = Some PaidOff
  /\ LoanDetails.nextPaymentDate d = None
  /\ LoanDetails.isOverdue d = false
  /\ ((1 # 100) < LoanDetails.remainingBalance d)%Q.
Proof.
  intros Hla Hmp Hlt Hpd Hall Hd Hnot.
  assert (Hnone : findNextDue (paidMonthsOf (sortByDate fetched)) (newDate pd) lt = None).
  { apply findNextDue_None. intros k Hk. apply paidMonths_sorted_has, Hall, Hk. }
  split.
  - now apply nextLoanPayment_paid_by_months
      with (la := la) (mp := mp) (lt := lt) (pd := pd).
  - destruct (loanDetails_next car fetched now la mp lt Hla Hmp Hlt d Hd) as [Hdate Hover].
    rewrite Hnot, Hpd, Hnone in Hdate, Hover.
    split; [exact Hdate|]. split; [exact Hover|].
    destruct (loanDetails_balance car fetched now la mp lt Hla Hmp Hlt)
      as (d' & Hd' & Hrem & Hpaid).
    rewrite Hd in Hd'. injection Hd' as <-.
    rewrite Hnot in Hpaid. symmetry in Hpaid. apply not_paid_off_gt in Hpaid.
    rewrite Hrem. eapply Qlt_le_trans; [exact Hpaid|]. apply Q.le_max_r.
Qed.

Lemma paidInMonthOf_incl (l l' : list Expense) (d : Date) :
  (forall p, In p l -> In p l') -> paidInMonthOf l d -> paidInMonthOf l' d.
Proof. intros Hincl (p & Hin & H). exists p. split; [now apply Hincl | exact H]. Qed.

Lemma sumOf_nonneg_on (f : Expense -> Q) (l : list Expense) :
  (forall p, In p l -> (0 <= f p)%Q) -> (0 <= sumOf f l)%Q.
Proof.
  intros Hf. rewrite sumOf_fold_right.
  induction l as [|p l IH]; simpl; [lra|].
  assert (0 <= f p)%Q by (apply Hf; now left).
  assert (0 <= fold_right (fun payment total => f payment + total) 0 l)%Q
    by (apply IH; intros q Hq; apply Hf; now right).
  lra.
Qed.

Lemma Qlt_bool_iff a b : Qlt_bool a b = true <-> (a < b)%Q.
Proof.
  unfold Qlt_bool. rewrite negb_true_iff. split.
  - intros H. apply Qnot_le_lt. intros Hle. apply Qle_bool_iff in Hle. congruence.
  - intros H. destruct (Qle_bool b a) eqn:E; [|reflexivity].
    apply Qle_bool_iff in E. lra.
Qed.

(** X5: recording more payments never moves the next installment back:
    while the loan is not reported paid off, the installment number found
    with a larger set of payments is not smaller. *)
Theorem X5_more_payments_never_lower_the_installment
    (car : Car) (fetched fetched' : list Expense) (now now' : Z) (la mp : Q) (lt pd : Z)
    (r r' : NextLoanPayment.t) :
  truthyQ (loanAmount car) = Some la ->
  truthyQ (monthlyPayment car) = Some mp ->
  truthyZ (loanTerm car) = Some lt ->
  truthyZ (purchaseDate car) = Some pd ->
  (forall payment, In payment fetched -> In payment fetched') ->
  nextLoanPayment car fetched now = Some (NotPaidOff r) ->
  nextLoanPayment car fetched' now' = Some (NotPaidOff r') ->
  NextLoanPayment.paymentNumber r <= NextLoanPayment.paymentNumber r'.
Proof.
  intros Hla Hmp Hlt Hpd Hincl Hr Hr'.
  apply (nextLoanPayment_due car fetched now la mp lt pd Hla Hmp Hlt Hpd) in Hr.
  apply (nextLoanPayment_due car fetched' now' la mp lt pd Hla Hmp Hlt Hpd) in Hr'.
  destruct Hr as (_ & nd & k & Hfind & ->). destruct Hr' as (_ & nd' & k' & Hfind' & ->).
  cbn.
  apply findNextDue_Some in Hfind as (Hk & _ & _ & Hbefore).
  apply findNextDue_Some in Hfind' as (Hk' & _ & Hunpaid' & _).
  destruct (Z.le_gt_cases k k') as [Hle|Hgt]; [exact Hle|].
  exfalso. apply Hunpaid'. apply paidMonths_sorted_has.
  apply (paidInMonthOf_incl fetched fetched'); [exact Hincl|].
  apply paidMonths_sorted_has. apply Hbefore. lia.
Qed.

(** X6: the amount due is never negative; when no payment and no monthly
    payment is negative it exceeds neither the monthly payment, rounded, nor
    the remaining balance. *)
Theorem X6_amount_due_is_bounded
    (car : Car) (fetched : list Expense) (now : Z) (la mp : Q) (lt pd : Z)
    (r : NextLoanPayment.t) :
  truthyQ (loanAmount car) = Some la ->
  truthyQ (monthlyPayment car) = Some mp ->
  truthyZ (loanTerm car) = Some lt ->
  truthyZ (purchaseDate car) = Some pd ->
  nextLoanPayment car fetched now = Some (NotPaidOff r) ->
  (0 <= NextLoanPayment.amountDue r)%Q
  /\ ((forall payment, In payment fetched -> (0 <= amount payment)%Q) ->
      (0 <= mp)%Q ->
      (NextLoanPayment.amountDue r <= roundCents mp)%Q
      /\ (NextLoanPayment.amountDue r <= NextLoanPayment.remainingBalance r)%Q
      /\ (0 <= NextLoanPayment.paidThisPeriod r)%Q).
Proof.
  intros Hla Hmp Hlt Hpd Hr.
  apply (nextLoanPayment_due car fetched now la mp lt pd Hla Hmp Hlt Hpd) in Hr.
  destruct Hr as (Hbal & nd & k & _ & ->). cbn.
  set (rb := roundCents (fst (replayPayments (monthlyInterestRateOf car) (la, pd)
                                (sortByDate fetched)))) in *.
  set (paid := sumOf amount (List.filter (inPeriod (periodStartOf nd) nd) (sortByDate fetched))).
  apply not_paid_off_gt in Hbal.
  split.
  - apply roundCents_nonneg. destruct (Qlt_bool rb mp); apply Q.le_max_l.
  - intros Hamounts Hmp0.
    assert (Hpaid : (0 <= paid)%Q).
    { apply sumOf_nonneg_on. intros p Hp. apply List.filter_In in Hp as [Hp _].
      apply Hamounts. eapply Permutation_in; [|exact Hp].
      symmetry. apply sortByDate_perm. }
    assert (Hrb : roundCents rb = rb) by apply roundCents_idem.
    clearbody rb paid.
    split; [|split].
    + apply roundCents_le.
      destruct (Qlt_bool rb mp) eqn:E; [apply Qlt_bool_iff in E|]; q_minmax.
    + apply Qle_trans with (roundCents rb); [|rewrite Hrb; apply Qle_refl].
      apply roundCents_le.
      destruct (Qlt_bool rb mp) eqn:E; [apply Qlt_bool_iff in E; q_minmax|].
      assert (~ (rb < mp)%Q) by (intros Hlt'; apply Qlt_bool_iff in Hlt'; congruence).
      q_minmax.
    + now apply roundCents_nonneg.
Qed.

(** X7: [getLoanDetails] returns the payment history oldest first, payments
    of one date in the order they were fetched in, one entry per recorded
    payment: its id, its date, and its amount, principal amount and interest
    amount rounded to cents (a missing one counting for zero). Its totals
    are the rounded sums of the amounts, principal amounts and interest
    amounts recorded on the payments, in whatever order the payments were
    fetched. *)
Theorem X7_details_history_and_totals
    (car : Car) (fetched : list Expense) (now : Z) (la mp : Q) (lt : Z) :
  truthyQ (loanAmount car) = Some la ->
  truthyQ (monthlyPayment car) = Some mp ->
  truthyZ (loanTerm car) = Some lt ->
  exists (d : LoanDetails.t) (ordered : list Expense),
    loanDetails car fetched now = Some d
    /\ Permutation fetched ordered
    /\ StronglySorted byDate ordered
    /\ (forall t, paymentsOn t ordered = paymentsOn t fetched)
    /\ LoanDetails.payments d
       = List.map (fun payment =>
           {| LoanDetails._id := _id payment;
              LoanDetails.date := date payment;
              LoanDetails.amount := roundCents (amount payment);
              LoanDetails.principalAmount := roundCents (orZero (principalAmount payment));
              LoanDetails.interestAmount := roundCents (orZero (interestAmount payment)) |})
           ordered
    /\ LoanDetails.totalPaid d = roundCents (sumOf amount fetched)
    /\ LoanDetails.totalPrincipal d
       = roundCents (sumOf (fun payment => orZero (principalAmount payment)) fetched)
    /\ LoanDetails.totalInterest d
       = roundCents (sumOf (fun payment => orZero (interestAmount payment)) fetched).
Proof.
  intros Hla Hmp Hlt.
  destruct (loanDetails_balance car fetched now la mp lt Hla Hmp Hlt) as (d & Hd & _).
  destruct (loanDetails_history car fetched now la mp lt Hla Hmp Hlt d Hd)
    as (Hpay & Htot & Hprin & Hint).
  pose proof (sortByDate_perm fetched) as Hperm.
  exists d, (sortByDate fetched).
  split; [exact Hd|]. split; [exact Hperm|].
  split; [apply sortByDate_sorted|].
  split; [intros t; apply sortByDate_stable|].
  split; [exact Hpay|].
  split; [rewrite Htot|split; [rewrite Hprin | rewrite Hint]];
    apply roundCents_comp, sumOf_perm; now symmetry.
Qed.

(** ** Tables *)

Section Tables.

Context {A : Type} (idOf : A -> Id).

Lemma getBy_Some (table : list A) (id : Id) (d : A) :
  Store.getBy idOf table id = Some d -> In d table /\ idOf d = id.
Proof.
  unfold Store.getBy. intros H. apply List.find_some in H as [Hin Heq].
  apply String.eqb_eq in Heq. now split.
Qed.

Lemma getBy_None (table : list A) (id : Id) :
  Store.getBy idOf table id = None <-> ~ In id (List.map idOf table).
Proof.
  unfold Store.getBy. induction table as [|d table IH]; simpl; [tauto|].
  destruct (String.eqb_spec (idOf d) id) as [E|E].
  - split; [discriminate | intros H; exfalso; apply H; now left].
  - rewrite IH. tauto.
Qed.

Lemma getBy_app (t1 t2 : list A) (id : Id) :
  Store.getBy idOf (t1 ++ t2) id
  = match Store.getBy idOf t1 id with
    | Some d => Some d
    | None => Store.getBy idOf t2 id
    end.
Proof.
  unfold Store.getBy. induction t1 as [|d t1 IH]; simpl; [reflexivity|].
  now destruct (String.eqb (idOf d) id).
Qed.

Lemma getBy_unique (table : list A) (d : A) :
  NoDup (List.map idOf table) -> In d table -> Store.getBy idOf table (idOf d) = Some d.
Proof.
  unfold Store.getBy. induction table as [|x table IH]; simpl; [tauto|].
  intros Hnd Hin. apply NoDup_cons in Hnd as [Hx Hnd].
  destruct (String.eqb_spec (idOf x) (idOf d)) as [E|E].
  - destruct Hin as [->|Hin]; [reflexivity|].
    exfalso. apply Hx. rewrite E. apply list_elem_of_In. now apply in_map.
  - destruct Hin as [->|Hin]; [congruence|]. now apply IH.
Qed.

Lemma patchBy_ids (id : Id) (f : A -> A) (table : list A) :
  (forall d, idOf (f d) = idOf d) ->
  List.map idOf (Store.patchBy idOf id f table) = List.map idOf table.
Proof.
  intros Hf. induction table as [|d table IH]; simpl; [reflexivity|].
  destruct (String.eqb (idOf d) id); simpl; [now rewrite Hf | now rewrite IH].
Qed.

Lemma patchBy_length (id : Id) (f : A -> A) (table : list A) :
  length (Store.patchBy idOf id f table) = length table.
Proof.
  induction table as [|d table IH]; simpl; [reflexivity|].
  destruct (String.eqb (idOf d) id); simpl; [reflexivity | now rewrite IH].
Qed.

Lemma patchBy_absent (id : Id) (f : A -> A) (table : list A) :
  Store.getBy idOf table id = None -> Store.patchBy idOf id f table = table.
Proof.
  unfold Store.getBy. induction table as [|d table IH]; simpl; [reflexivity|].
  destruct (String.eqb (idOf d) id); [discriminate|]. intros H. now rewrite IH.
Qed.

(** After a patch that keeps the id, a lookup finds the patched document
    under the patched id and the same document under any other. *)
Lemma getBy_patchBy (id id' : Id) (f : A -> A) (table : list A) :
  (forall d, idOf (f d) = idOf d) ->
  Store.getBy idOf (Store.patchBy idOf id f table) id'
  = if String.eqb id id' then f <$> Store.getBy idOf table id'
    else Store.getBy idOf table id'.
Proof.
  intros Hf. unfold Store.getBy.
  induction table as [|d table IH]; simpl.
  - now destruct (String.eqb id id').
  - destruct (String.eqb_spec (idOf d) id) as [E|E]; simpl.
    + rewrite Hf. destruct (String.eqb_spec id id') as [E'|E'].
      * subst. rewrite !String.eqb_refl. reflexivity.
      * destruct (String.eqb_spec (idOf d) id'); [congruence | reflexivity].
    + rewrite IH. destruct (String.eqb_spec (idOf d) id') as [E'|E'].
      * destruct (String.eqb_spec id id'); [congruence | reflexivity].
      * reflexivity.
Qed.

Lemma deleteBy_absent (id : Id) (table : list A) :
  ~ In id (List.map idOf table) -> Store.deleteBy idOf id table = table.
Proof.
  induction table as [|d table IH]; simpl; [reflexivity|].
  intros H. destruct (String.eqb_spec (idOf d) id) as [E|E].
  - exfalso. apply H. now left.
  - rewrite IH; [reflexivity|]. tauto.
Qed.

(** Deleting the document just appended, under an id new to the table, gives
    the table back. *)
Lemma deleteBy_appended (table : list A) (d : A) :
  ~ In (idOf d) (List.map idOf table) ->
  Store.deleteBy idOf (idOf d) (table ++ [d]) = table.
Proof.
  induction table as [|x table IH]; simpl.
  - now rewrite String.eqb_refl.
  - intros H. destruct (String.eqb_spec (idOf x) (idOf d)) as [E|E].
    + exfalso. apply H. now left.
    + rewrite IH; [reflexivity|]. tauto.
Qed.

Lemma deleteBy_sublist (id : Id) (table : list A) :
  forall d, In d (Store.deleteBy idOf id table) -> In d table.
Proof.
  induction table as [|x table IH]; simpl; [tauto|].
  intros d. destruct (String.eqb (idOf x) id); simpl; [tauto|].
  intros [->|H]; [now left | right; now apply IH].
Qed.

Lemma deleteBy_length (id : Id) (table : list A) (d : A) :
  Store.getBy idOf table id = Some d ->
  S (length (Store.deleteBy idOf id table)) = length table.
Proof.
  unfold Store.getBy. induction table as [|x table IH]; simpl; [discriminate|].
  destruct (String.eqb (idOf x) id); simpl; [reflexivity|].
  intros H. now rewrite IH.
Qed.

End Tables.

(** ** The store under the loan queries *)

Lemma ctxOf_car (db : Store.Db) (auth : option Id) (now : Z) (id : Id) :
  cars (Store.ctxOf db auth now) !! id
  = Store.loan <$> Store.getBy Store.car_id (Store.cars db) id.
Proof.
  unfold Store.ctxOf, Store.getBy. cbn [cars].
  induction (Store.cars db) as [|c l IH]; [reflexivity|].
  rewrite map_cons, list_to_map_cons. cbn [List.find].
  destruct (String.eqb_spec (Store.car_id c) id) as [E|E].
  - subst. now rewrite lookup_insert_eq.
  - rewrite lookup_insert_ne by exact E. apply IH.
Qed.

Lemma ctxOf_shares (db : Store.Db) (auth : option Id) (now : Z) (car user : Id) :
  List.filter (fun s => String.eqb (shareCarId s) car && String.eqb (shareUserId s) user)
              (carShares (Store.ctxOf db auth now))
  = List.map Store.share (Store.sharesByCarUser db car user).
Proof.
  unfold Store.ctxOf, Store.sharesByCarUser. cbn [carShares].
  induction (Store.carShares db) as [|s l IH]; [reflexivity|]. simpl.
  destruct (_ && _); simpl; now rewrite IH.
Qed.

Lemma ctxOf_uniqueShare (db : Store.Db) (auth : option Id) (now : Z) (car user : Id) :
  uniqueShare (Store.ctxOf db auth now) car user
  = match Store.uniqueOf (Store.sharesByCarUser db car user) with
    | inl e => inl (asQueryError e)
    | inr found => inr (Store.share <$> found)
    end.
Proof.
  unfold uniqueShare. rewrite ctxOf_shares.
  destruct (Store.sharesByCarUser db car user) as [|s [|s' l]]; reflexivity.
Qed.

(** The access check of the loan queries is the one of the other handlers. *)
Lemma fetchCar_ctxOf (db : Store.Db) (auth : option Id) (now : Z) (id : Id) :
  fetchCar (Store.ctxOf db auth now) id
  = match Store.carWithAccess db auth id with
    | inl e => inl (asQueryError e)
    | inr (_, car) => inr (Store.loan car)
    end.
Proof.
  unfold fetchCar, Store.carWithAccess, Store.requireUser, Store.requireCar,
    Store.requireAccess.
  destruct auth as [userId|]; [|reflexivity].
  change (authUserId (Store.ctxOf db (Some userId) now)) with (Some userId).
  cbv iota beta. rewrite ctxOf_car, ctxOf_uniqueShare.
  cbn [Store.andThen].
  destruct (Store.getBy Store.car_id (Store.cars db) id) as [c|]; [|reflexivity].
  cbn [fmap option_fmap option_map Store.andThen].
  destruct (String.eqb (ownerId (Store.loan c)) userId); [reflexivity|].
  destruct (Store.uniqueOf (Store.sharesByCarUser db id userId)) as [e|[s|]]; reflexivity.
Qed.

Lemma loanPaymentsOf_ctxOf (db : Store.Db) (auth : option Id) (now : Z) (id : Id) :
  loanPaymentsOf (Store.ctxOf db auth now) id
  = List.map Store.base (Store.expensesByCarCategory db id loan_payment).
Proof.
  unfold loanPaymentsOf, Store.expensesByCarCategory, Store.ctxOf. cbn [expenses].
  induction (Store.expenses db) as [|e l IH]; [reflexivity|]. simpl.
  destruct (_ && _); simpl; now rewrite IH.
Qed.

(** ** What a call does to each table *)

Ltac inv_step :=
  match goal with
  | H : inl _ = inr _ |- _ => discriminate H
  | H : inr _ = inr _ |- _ => injection H as H; try subst
  | H : (_, _) = (_, _) |- _ => injection H as ? ?; try subst
  | H : Store.andThen ?r _ = inr _ |- _ =>
      let E := fresh "E" in
      destruct r as [?|?] eqn:E; cbn [Store.andThen] in H; [discriminate H|]
  | H : match ?x with _ => _ end = inr _ |- _ =>
      let E := fresh "E" in destruct x eqn:E; try discriminate H
  end.

Ltac unfold_handlers H :=
  unfold Store.createCar, Store.updateCarBasicInfo, Store.updateCarPurchaseDetails,
    Store.updateCarLoanDetails, Store.archiveCar, Store.markCarAsTotaled,
    Store.markCarAsSold, Store.shareCar, Store.unshareCar, Store.addBuyerAccessory,
    Store.updateBuyerAccessory, Store.removeBuyerAccessory, Store.addExpense,
    Store.updateExpense, Store.deleteExpense in H.

Ltac inv_run H m :=
  destruct m; cbn [Store.run] in H; unfold_handlers H; repeat inv_step.

Lemma carKept_refl (c : Store.CarDoc) : carKept c c.
Proof. unfold carKept. tauto. Qed.

Lemma requireUser_inr (auth : option Id) (u : Id) :
  Store.requireUser auth = inr u -> auth = Some u.
Proof. destruct auth; cbn; congruence. Qed.

Lemma uniqueOf_Some {A : Type} (l : list A) (d : A) :
  Store.uniqueOf l = inr (Some d) -> l = [d].
Proof. destruct l as [|x [|y l]]; cbn; congruence. Qed.

Lemma uniqueOf_None {A : Type} (l : list A) :
  Store.uniqueOf l = inr None -> l = [].
Proof. destruct l as [|x [|y l]]; cbn; congruence. Qed.

Lemma sharesByCarUser_In (db : Store.Db) (c u : Id) (s : Store.ShareDoc) :
  In s (Store.sharesByCarUser db c u)
  <-> In s (Store.carShares db)
      /\ shareCarId (Store.share s) = c /\ shareUserId (Store.share s) = u.
Proof.
  unfold Store.sharesByCarUser. rewrite List.filter_In, andb_true_iff.
  now rewrite !String.eqb_eq.
Qed.

Lemma carAsOwner_inr (db : Store.Db) (auth : option Id) (id : Id) (msg : string)
    (u : Id) (c : Store.CarDoc) :
  Store.carAsOwner db auth id msg = inr (u, c) ->
  auth = Some u /\ Store.getBy Store.car_id (Store.cars db) id = Some c
  /\ ownerId (Store.loan c) = u.
Proof.
  unfold Store.carAsOwner, Store.requireUser, Store.requireCar. intros H.
  destruct auth as [u'|]; [|discriminate]. cbn [Store.andThen] in H.
  destruct (Store.getBy _ _ _) as [c'|]; [|discriminate]. cbn [Store.andThen] in H.
  destruct (String.eqb_spec (ownerId (Store.loan c')) u'); [|discriminate].
  injection H as <- <-. auto.
Qed.

Lemma carWithAccess_inr (db : Store.Db) (auth : option Id) (id : Id)
    (u : Id) (c : Store.CarDoc) :
  Store.carWithAccess db auth id = inr (u, c) ->
  auth = Some u /\ Store.getBy Store.car_id (Store.cars db) id = Some c
  /\ (ownerId (Store.loan c) = u
      \/ exists s, Store.sharesByCarUser db id u = [s]).
Proof.
  unfold Store.carWithAccess, Store.requireUser, Store.requireCar, Store.requireAccess.
  intros H.
  destruct auth as [u'|]; [|discriminate]. cbn [Store.andThen] in H.
  destruct (Store.getBy _ _ _) as [c'|]; [|discriminate]. cbn [Store.andThen] in H.
  destruct (String.eqb_spec (ownerId (Store.loan c')) u').
  - cbn [Store.andThen] in H. injection H as <- <-. auto.
  - destruct (Store.sharesByCarUser db id u') as [|s [|s' l]] eqn:E;
      cbn in H; try discriminate.
    injection H as <- <-. split; [reflexivity|]. split; [reflexivity|]. right. now exists s.
Qed.

Ltac use_checks :=
  repeat match goal with
    | H : Store.carAsOwner _ _ _ _ = inr ?p |- _ => is_var p; destruct p
    | H : Store.carAsOwner _ _ _ _ = inr (_, _) |- _ =>
        apply carAsOwner_inr in H as (? & ? & ?)
    | H : Store.carWithAccess _ _ _ = inr ?p |- _ => is_var p; destruct p
    | H : Store.carWithAccess _ _ _ = inr (_, _) |- _ =>
        apply carWithAccess_inr in H as (? & ? & ?)
    | H : Store.uniqueOf _ = inr (Some _) |- _ => apply uniqueOf_Some in H
    | H : Store.uniqueOf _ = inr None |- _ => apply uniqueOf_None in H
    | H : Store.requireUser _ = inr _ |- _ => apply requireUser_inr in H
    end.

Lemma run_users (db db' : Store.Db) (auth : option Id) (now : Z) (newId : Id)
    (m : Store.Mutation) :
  Store.run db auth now newId m = inr db' -> Store.users db' = Store.users db.
Proof.
  intros H. inv_run H m; try reflexivity.
Qed.

(** The cars after a call: as before, or one of them changed in place, or a
    new one at the end. *)
Lemma run_cars (db db' : Store.Db) (auth : option Id) (now : Z) (newId : Id)
    (m : Store.Mutation) :
  Store.run db auth now newId m = inr db' ->
  Store.cars db' = Store.cars db
  \/ (exists id f, Store.cars db' = Store.patchBy Store.car_id id f (Store.cars db)
                   /\ forall c, carKept c (f c))
  \/ (exists c, Store.cars db' = Store.cars db ++ [c]
                /\ Store.car_id c = newId
                /\ Store.archive c = Store.notArchived
                /\ auth = Some (ownerId (Store.loan c))).
Proof.
  intros H. inv_run H m; cbn [Store.cars Store.setCars Store.setShares Store.setExpenses
                               Store.patchCar];
    try (left; reflexivity);
    try (right; left; eexists _, _; split; [reflexivity|];
         intros ?; unfold carKept; cbn; intuition congruence).
  right; right. eexists. repeat split. cbn. now apply requireUser_inr.
Qed.

(** The shares after a call: as before, or a new one at the end, or one
    deleted. *)
Lemma run_shares (db db' : Store.Db) (auth : option Id) (now : Z) (newId : Id)
    (m : Store.Mutation) :
  Store.run db auth now newId m = inr db' ->
  Store.carShares db' = Store.carShares db
  \/ (exists s c, Store.carShares db' = Store.carShares db ++ [s]
                  /\ Store.share_id s = newId
                  /\ Store.role s = Store.shared
                  /\ auth = Some (Store.sharedBy s)
                  /\ Store.getBy Store.car_id (Store.cars db) (shareCarId (Store.share s))
                     = Some c
                  /\ ownerId (Store.loan c) = Store.sharedBy s
                  /\ Store.sharesByCarUser db (shareCarId (Store.share s))
                                              (shareUserId (Store.share s)) = [])
  \/ (exists s c, Store.carShares db'
                  = Store.deleteBy Store.share_id (Store.share_id s) (Store.carShares db)
                  /\ Store.sharesByCarUser db (shareCarId (Store.share s))
                                              (shareUserId (Store.share s)) = [s]
                  /\ Store.getBy Store.car_id (Store.cars db) (shareCarId (Store.share s))
                     = Some c
                  /\ auth = Some (ownerId (Store.loan c))).
Proof.
  intros H. inv_run H m; cbn [Store.carShares Store.setCars Store.setShares
                               Store.setExpenses Store.patchCar];
    try (left; reflexivity).
  - use_checks. subst.
    right; left. eexists _, _. repeat split; cbn; eassumption.
  - use_checks. subst.
    match goal with H : Store.sharesByCarUser db ?car ?user = [?x] |- _ =>
      assert (Hs : In x (Store.sharesByCarUser db car user)) by (rewrite H; now left);
      apply sharesByCarUser_In in Hs as (_ & <- & <-);
      right; right; exists x
    end.
    eexists. repeat split; eassumption.
Qed.

(** The expenses after a call: as before, or a new one at the end, or one
    changed in place, or one deleted. *)
Lemma run_expenses (db db' : Store.Db) (auth : option Id) (now : Z) (newId : Id)
    (m : Store.Mutation) :
  Store.run db auth now newId m = inr db' ->
  Store.expenses db' = Store.expenses db
  \/ (exists e c, Store.expenses db' = Store.expenses db ++ [e]
                  /\ Store.expenseId e = newId
                  /\ Store.getBy Store.car_id (Store.cars db) (carId (Store.base e)) = Some c)
  \/ (exists id f, Store.expenses db' = Store.patchBy Store.expenseId id f (Store.expenses db)
                   /\ forall e, Store.expenseId (f e) = Store.expenseId e
                                /\ carId (Store.base (f e)) = carId (Store.base e))
  \/ (exists id, Store.expenses db' = Store.deleteBy Store.expenseId id (Store.expenses db)).
Proof.
  intros H. inv_run H m; cbn [Store.expenses Store.setCars Store.setShares
                               Store.setExpenses Store.patchCar];
    try (left; reflexivity);
    try (right; right; left; eexists _, _; split; [reflexivity|]; intros ?; now cbn);
    try (right; right; right; eexists; reflexivity).
  all: use_checks; subst; right; left; eexists _, _; repeat split; cbn; eassumption.
Qed.

(** ** Cars are kept *)

Lemma carKept_trans (a b c : Store.CarDoc) : carKept a b -> carKept b c -> carKept a c.
Proof. unfold carKept. intuition congruence. Qed.

(** Whatever the call, a car that was there is still there, under the same
    id and with the same owner. *)
Lemma run_keeps_cars (db db' : Store.Db) (auth : option Id) (now : Z) (newId : Id)
    (m : Store.Mutation) (id : Id) (c : Store.CarDoc) :
  Store.run db auth now newId m = inr db' ->
  Store.getBy Store.car_id (Store.cars db) id = Some c ->
  exists c', Store.getBy Store.car_id (Store.cars db') id = Some c' /\ carKept c c'.
Proof.
  intros H Hc. apply run_cars in H as [-> | [(id' & f & -> & Hf) | (c' & -> & _)]].
  - exists c. split; [assumption | apply carKept_refl].
  - rewrite getBy_patchBy by (intros d; apply (Hf d)).
    rewrite Hc. destruct (String.eqb id' id).
    + exists (f c). split; [reflexivity | apply Hf].
    + exists c. split; [reflexivity | apply carKept_refl].
  - rewrite getBy_app, Hc. exists c. split; [reflexivity | apply carKept_refl].
Qed.

Lemma run_car_ids (db db' : Store.Db) (auth : option Id) (now : Z) (newId : Id)
    (m : Store.Mutation) :
  Store.run db auth now newId m = inr db' ->
  List.map Store.car_id (Store.cars db') = List.map Store.car_id (Store.cars db)
  \/ List.map Store.car_id (Store.cars db') = List.map Store.car_id (Store.cars db) ++ [newId].
Proof.
  intros H. apply run_cars in H as [-> | [(id' & f & -> & Hf) | (c' & -> & <- & _)]].
  - now left.
  - left. apply patchBy_ids. intros d. apply (Hf d).
  - right. now rewrite List.map_app.
Qed.

(** ** Well-formed stores stay well formed *)

Lemma NoDup_snoc {A : Type} (l : list A) (x : A) :
  NoDup l -> ~ In x l -> NoDup (l ++ [x]).
Proof.
  intros Hl Hx. apply NoDup_app. split; [assumption|]. split.
  - intros y Hy Hy'. apply list_elem_of_In in Hy. apply list_elem_of_singleton in Hy'.
    subst. contradiction.
  - apply NoDup_singleton.
Qed.

Lemma deleteBy_map_sublist {A B : Type} (idOf : A -> Id) (g : A -> B) (id : Id)
    (t : list A) :
  sublist (List.map g (Store.deleteBy idOf id t)) (List.map g t).
Proof.
  induction t as [|d t IH]; cbn; [constructor|].
  destruct (String.eqb (idOf d) id); cbn.
  - apply sublist_cons. reflexivity.
  - now apply sublist_skip.
Qed.

Lemma deleteBy_NoDup {A B : Type} (idOf : A -> Id) (g : A -> B) (id : Id) (t : list A) :
  NoDup (List.map g t) -> NoDup (List.map g (Store.deleteBy idOf id t)).
Proof. intros H. exact (sublist_NoDup _ _ H (deleteBy_map_sublist idOf g id t)). Qed.

Lemma run_distinctIds (db db' : Store.Db) (auth : option Id) (now : Z) (newId : Id)
    (m : Store.Mutation) :
  Store.fresh db newId -> Store.run db auth now newId m = inr db' ->
  distinctIds db -> distinctIds db'.
Proof.
  intros (Fc & Fs & Fe) H (Hc & Hs & He). unfold distinctIds. repeat split.
  - destruct (run_car_ids _ _ _ _ _ _ H) as [-> | ->]; [assumption|].
    now apply NoDup_snoc.
  - destruct (run_shares _ _ _ _ _ _ H)
      as [-> | [(s & c & -> & <- & _) | (s & c & -> & _)]]; [assumption| |].
    + rewrite List.map_app. now apply NoDup_snoc.
    + now apply deleteBy_NoDup.
  - destruct (run_expenses _ _ _ _ _ _ H)
      as [-> | [(e & c & -> & <- & _) | [(id & f & -> & Hf) | (id & ->)]]]; [assumption| | |].
    + rewrite List.map_app. now apply NoDup_snoc.
    + rewrite patchBy_ids; [assumption|]. intros d. apply (Hf d).
    + now apply deleteBy_NoDup.
Qed.

Lemma sharesByCarUser_nil (db : Store.Db) (c u : Id) :
  Store.sharesByCarUser db c u = [] ->
  ~ In (mkCarShare c u) (List.map Store.share (Store.carShares db)).
Proof.
  intros E Hin. apply List.in_map_iff in Hin as (s & Hs & Hin).
  assert (In s (Store.sharesByCarUser db c u)) as Hin'.
  { apply sharesByCarUser_In. rewrite Hs. cbn. auto. }
  rewrite E in Hin'. destruct Hin'.
Qed.

Lemma run_distinct_pairs (db db' : Store.Db) (auth : option Id) (now : Z) (newId : Id)
    (m : Store.Mutation) :
  Store.run db auth now newId m = inr db' ->
  NoDup (List.map Store.share (Store.carShares db)) ->
  NoDup (List.map Store.share (Store.carShares db')).
Proof.
  intros H Hp.
  destruct (run_shares _ _ _ _ _ _ H)
    as [-> | [(s & c & -> & _ & _ & _ & _ & _ & Hnone) | (s & c & -> & _)]]; [assumption| |].
  - rewrite List.map_app. apply NoDup_snoc; [assumption|].
    apply sharesByCarUser_nil in Hnone. now destruct (Store.share s).
  - now apply deleteBy_NoDup.
Qed.

Lemma run_never_unarchived_flag (db db' : Store.Db) (auth : option Id) (now : Z)
    (newId : Id) (m : Store.Mutation) :
  Store.run db auth now newId m = inr db' ->
  Forall (fun c => Store.isArchived (Store.archive c) <> Some false) (Store.cars db) ->
  Forall (fun c => Store.isArchived (Store.archive c) <> Some false) (Store.cars db').
Proof.
  intros H Hf. apply run_cars in H as [-> | [(id' & f & -> & Hk) | (c' & -> & _ & Ha & _)]].
  - assumption.
  - induction Hf as [|c l Hc Hl IH]; cbn; [constructor|].
    destruct (String.eqb (Store.car_id c) id'); constructor; auto.
    now apply (Hk c).
  - apply Forall_app. split; [assumption|]. constructor; [|constructor].
    now rewrite Ha.
Qed.

Lemma shareSound_kept (db db' : Store.Db) (auth : option Id) (now : Z) (newId : Id)
    (m : Store.Mutation) (s : Store.ShareDoc) :
  Store.run db auth now newId m = inr db' -> shareSound db s -> shareSound db' s.
Proof.
  intros H (Hr & c & Hc & Ho). split; [assumption|].
  destruct (run_keeps_cars _ _ _ _ _ _ _ _ H Hc) as (c' & Hc' & Hk).
  exists c'. split; [assumption|]. destruct Hk as (_ & -> & _). assumption.
Qed.

Lemma expenseSound_kept (db db' : Store.Db) (auth : option Id) (now : Z) (newId : Id)
    (m : Store.Mutation) (e : Store.ExpenseDoc) :
  Store.run db auth now newId m = inr db' -> expenseSound db e -> expenseSound db' e.
Proof.
  intros H (c & Hc).
  destruct (run_keeps_cars _ _ _ _ _ _ _ _ H Hc) as (c' & Hc' & _). now exists c'.
Qed.

Lemma Forall_deleteBy {A : Type} (P : A -> Prop) (idOf : A -> Id) (id : Id) (t : list A) :
  Forall P t -> Forall P (Store.deleteBy idOf id t).
Proof.
  intros H. apply Forall_forall. intros d Hd. apply list_elem_of_In in Hd.
  apply deleteBy_sublist in Hd. rewrite Forall_forall in H. apply H.
  now apply list_elem_of_In.
Qed.

Lemma Forall_patchBy {A : Type} (P : A -> Prop) (idOf : A -> Id) (id : Id) (f : A -> A)
    (t : list A) :
  (forall d, P d -> P (f d)) -> Forall P t -> Forall P (Store.patchBy idOf id f t).
Proof.
  intros Hf H. induction H as [|d l Hd Hl IH]; cbn; [constructor|].
  destruct (String.eqb (idOf d) id); constructor; auto.
Qed.

Lemma run_shares_sound (db db' : Store.Db) (auth : option Id) (now : Z) (newId : Id)
    (m : Store.Mutation) :
  Store.run db auth now newId m = inr db' ->
  Forall (shareSound db) (Store.carShares db) ->
  Forall (shareSound db') (Store.carShares db').
Proof.
  intros H Hf.
  assert (Hf' : Forall (shareSound db') (Store.carShares db)).
  { eapply List.Forall_impl; [|exact Hf]. intros s. now apply shareSound_kept with (1 := H). }
  destruct (run_shares _ _ _ _ _ _ H)
    as [-> | [(s & c & -> & _ & Hr & _ & Hc & Ho & _) | (s & c & -> & _)]]; [assumption| |].
  - apply Forall_app. split; [assumption|]. constructor; [|constructor].
    apply shareSound_kept with (1 := H). split; [assumption|]. now exists c.
  - now apply Forall_deleteBy.
Qed.

Lemma run_expenses_sound (db db' : Store.Db) (auth : option Id) (now : Z) (newId : Id)
    (m : Store.Mutation) :
  Store.run db auth now newId m = inr db' ->
  Forall (expenseSound db) (Store.expenses db) ->
  Forall (expenseSound db') (Store.expenses db').
Proof.
  intros H Hf.
  assert (Hf' : Forall (expenseSound db') (Store.expenses db)).
  { eapply List.Forall_impl; [|exact Hf]. intros s. now apply expenseSound_kept with (1 := H). }
  destruct (run_expenses _ _ _ _ _ _ H)
    as [-> | [(e & c & -> & _ & Hc) | [(id & f & -> & Hk) | (id & ->)]]]; [assumption| | |].
  - apply Forall_app. split; [assumption|]. constructor; [|constructor].
    apply expenseSound_kept with (1 := H). now exists c.
  - apply Forall_patchBy; [|assumption]. intros d (c & Hc). exists c.
    destruct (Hk d) as (_ & ->). assumption.
  - now apply Forall_deleteBy.
Qed.

Lemma run_wellFormed (db db' : Store.Db) (auth : option Id) (now : Z) (newId : Id)
    (m : Store.Mutation) :
  Store.fresh db newId -> Store.run db auth now newId m = inr db' ->
  wellFormed db -> wellFormed db'.
Proof.
  intros Hfresh H (Hi & Hp & Ha & Hs & He). unfold wellFormed. repeat split.
  - destruct (run_distinctIds _ _ _ _ _ _ Hfresh H Hi) as (? & _). assumption.
  - destruct (run_distinctIds _ _ _ _ _ _ Hfresh H Hi) as (_ & ? & _). assumption.
  - destruct (run_distinctIds _ _ _ _ _ _ Hfresh H Hi) as (_ & _ & ?). assumption.
  - now apply run_distinct_pairs with (1 := H).
  - now apply run_never_unarchived_flag with (1 := H).
  - now apply run_shares_sound with (1 := H).
  - now apply run_expenses_sound with (1 := H).
Qed.

Lemma reachable_wellFormed (db : Store.Db) : Store.reachable db -> wellFormed db.
Proof.
  induction 1 as [us | db us _ IH | db db' auth now newId m _ IH Hfresh Hrun].
  - unfold wellFormed, distinctIds. cbn. repeat split; constructor.
  - exact IH.
  - now apply run_wellFormed with (1 := Hfresh) (2 := Hrun).
Qed.

(** ** Sums of expenses *)

Lemma sumAmounts_from (l : list Store.ExpenseDoc) (a : Q) :
  (List.fold_left (fun sum e => sum + amount (Store.base e)) l a
   == a + Store.sumAmounts l)%Q.
Proof.
  unfold Store.sumAmounts. revert a.
  induction l as [|e l IH]; intros a; cbn [List.fold_left]; [ring|].
  rewrite IH, (IH (0 + _)%Q). ring.
Qed.

Lemma sumAmounts_cons (e : Store.ExpenseDoc) (l : list Store.ExpenseDoc) :
  (Store.sumAmounts (e :: l) == amount (Store.base e) + Store.sumAmounts l)%Q.
Proof.
  unfold Store.sumAmounts at 1. cbn [List.fold_left]. rewrite sumAmounts_from. ring.
Qed.

Lemma sumAmounts_snoc (l : list Store.ExpenseDoc) (e : Store.ExpenseDoc) :
  Store.sumAmounts (l ++ [e]) = (Store.sumAmounts l + amount (Store.base e))%Q.
Proof. unfold Store.sumAmounts. now rewrite List.fold_left_app. Qed.

Lemma sumQ_from (l : list Q) (a : Q) : (List.fold_left Qplus l a == a + sumQ l)%Q.
Proof.
  unfold sumQ. revert a. induction l as [|x l IH]; intros a; cbn [List.fold_left]; [ring|].
  rewrite IH, (IH (0 + x)%Q). ring.
Qed.

Lemma sumQ_cons (x : Q) (l : list Q) : (sumQ (x :: l) == x + sumQ l)%Q.
Proof. unfold sumQ at 1. cbn [List.fold_left]. rewrite sumQ_from. ring. Qed.

(** ** The index queries on expenses *)

Lemma expensesByCarCategory_filter (db : Store.Db) (car : Id) (k : Category) :
  Store.expensesByCarCategory db car k
  = List.filter (fun e => Category_eqb (category (Store.base e)) k)
                (Store.expensesByCar db car).
Proof.
  unfold Store.expensesByCarCategory, Store.expensesByCar.
  induction (Store.expenses db) as [|e l IH]; [reflexivity|]. cbn.
  destruct (String.eqb (carId (Store.base e)) car); cbn; [|exact IH].
  destruct (Category_eqb _ _); now rewrite IH.
Qed.

Lemma Category_eqb_eq (a b : Category) : Category_eqb a b = true <-> a = b.
Proof. destruct a, b; cbn; split; congruence. Qed.

Lemma categoryName_inj (a b : Category) :
  Store.categoryName a = Store.categoryName b -> a = b.
Proof. destruct a, b; cbn; intros H; try reflexivity; discriminate H. Qed.

Lemma categoryName_not_down_payments (k : Category) :
  Store.categoryName k <> "down_payments".
Proof. destruct k; discriminate. Qed.

(** ** The category totals of [getExpenseSummary] *)

(** The entry of a category after the loop: untouched when the list has no
    expense of the category, else the sum, in the order of the list, on top
    of what was there. *)
Lemma categoryTotals_lookup (l : list Store.ExpenseDoc) (m : gmap string Q) (k : Category) :
  List.fold_left Store.addToCategory l m !! Store.categoryName k
  = match List.filter (fun e => Category_eqb (category (Store.base e)) k) l with
    | [] => m !! Store.categoryName k
    | found => Some (List.fold_left (fun sum e => (sum + amount (Store.base e))%Q) found
                                    (orZero (m !! Store.categoryName k)))
    end.
Proof.
  revert m. induction l as [|e l IH]; intros m; [reflexivity|].
  cbn [List.fold_left List.filter]. rewrite IH.
  set (g := fun sum e => (sum + amount (Store.base e))%Q).
  unfold Store.addToCategory.
  destruct (Category_eqb (category (Store.base e)) k) eqn:E.
  - apply Category_eqb_eq in E. subst k. rewrite !lookup_insert_eq. cbn [orZero].
    destruct (List.filter _ l); reflexivity.
  - assert (Store.categoryName (category (Store.base e)) <> Store.categoryName k) as Hne.
    { intros Heq. apply categoryName_inj in Heq. apply Category_eqb_eq in Heq. congruence. }
    rewrite !lookup_insert_ne by exact Hne. reflexivity.
Qed.

Lemma categoryTotals_keys (l : list Store.ExpenseDoc) (m : gmap string Q) (key : string) :
  is_Some (List.fold_left Store.addToCategory l m !! key) ->
  is_Some (m !! key) \/ exists e, In e l /\ key = Store.categoryName (category (Store.base e)).
Proof.
  revert m. induction l as [|e l IH]; intros m; cbn [List.fold_left]; [now left|].
  intros H. apply IH in H as [H | (e' & He' & ->)].
  - unfold Store.addToCategory in H.
    destruct (decide (Store.categoryName (category (Store.base e)) = key)) as [<-|Hne].
    + right. exists e. split; [now left | reflexivity].
    + rewrite lookup_insert_ne in H by exact Hne. now left.
  - right. exists e'. split; [now right | reflexivity].
Qed.

(** A handler's checks read the cars and the shares only. *)
Lemma carWithAccess_setExpenses (db : Store.Db) (l : list Store.ExpenseDoc)
    (auth : option Id) (car : Id) :
  Store.carWithAccess (Store.setExpenses db l) auth car = Store.carWithAccess db auth car.
Proof. reflexivity. Qed.

(** ** The stable sort on a key *)

Section SortOn.

Context {A : Type} (key : A -> Z).

Lemma insertOn_perm (x : A) (l : list A) : Permutation (x :: l) (Store.insertOn key x l).
Proof.
  induction l as [|y l IH]; cbn; [reflexivity|].
  destruct (key x <=? key y); [reflexivity|].
  rewrite perm_swap. now apply perm_skip.
Qed.

Lemma sortOn_perm (l : list A) : Permutation l (Store.sortOn key l).
Proof.
  induction l as [|x l IH]; cbn; [constructor|].
  rewrite <- insertOn_perm. now apply perm_skip.
Qed.

Lemma insertOn_sorted (x : A) (l : list A) :
  StronglySorted (fun a b => key a <= key b) l ->
  StronglySorted (fun a b => key a <= key b) (Store.insertOn key x l).
Proof.
  induction 1 as [|y l Hs IH Hy]; cbn.
  - repeat constructor.
  - destruct (Z.leb_spec (key x) (key y)) as [E|E].
    + constructor; [now constructor|]. constructor; [exact E|].
      eapply List.Forall_impl; [|exact Hy]. cbn. intros; lia.
    + constructor; [exact IH|].
      rewrite <- (insertOn_perm x l). constructor; [lia | exact Hy].
Qed.

Lemma sortOn_sorted (l : list A) :
  StronglySorted (fun a b => key a <= key b) (Store.sortOn key l).
Proof. induction l as [|x l IH]; cbn; [constructor|]. now apply insertOn_sorted. Qed.

Lemma insertOn_same_key (d : Z) (x : A) (l : list A) :
  List.filter (fun e => key e =? d) (Store.insertOn key x l)
  = List.filter (fun e => key e =? d) (x :: l).
Proof.
  induction l as [|y l IH]; [reflexivity|].
  cbn [Store.insertOn]. destruct (Z.leb_spec (key x) (key y)) as [Hle|Hgt]; [reflexivity|].
  cbn [List.filter] in *. rewrite IH.
  destruct (Z.eqb_spec (key x) d) as [Hx|Hx], (Z.eqb_spec (key y) d) as [Hy|Hy];
    try reflexivity.
  lia.
Qed.

(** The sort is stable: the elements of one key keep the order they had. *)
Lemma sortOn_stable (d : Z) (l : list A) :
  List.filter (fun e => key e =? d) (Store.sortOn key l)
  = List.filter (fun e => key e =? d) l.
Proof.
  induction l as [|x l IH]; [reflexivity|].
  cbn [Store.sortOn List.fold_right]. rewrite insertOn_same_key.
  cbn [List.filter]. fold (Store.sortOn key l). now rewrite IH.
Qed.

(** The head of the sorted list: the first, in list order, of the elements
    of least key. *)
Lemma sortOn_head (l : list A) (x : A) (rest : list A) :
  Store.sortOn key l = x :: rest ->
  In x l /\ (forall y, In y l -> key x <= key y)
  /\ exists before after, l = before ++ x :: after
                          /\ forall y, In y before -> key x < key y.
Proof.
  revert x rest. induction l as [|a l IH]; intros x rest; [discriminate|].
  cbn [Store.sortOn List.fold_right]. fold (Store.sortOn key l).
  destruct (Store.sortOn key l) as [|y tl] eqn:E.
  - cbn. intros [= <- <-].
    assert (l = []) as ->.
    { apply Permutation_nil. rewrite <- E. symmetry. apply sortOn_perm. }
    split; [now left|]. split; [intros y [<-|[]]; lia|].
    exists [], []. split; [reflexivity | intros y []].
  - destruct (IH y tl eq_refl) as (Hin & Hmin & before & after & -> & Hbefore).
    cbn [Store.insertOn]. destruct (Z.leb_spec (key a) (key y)) as [Hle|Hgt].
    + intros [= <- <-]. split; [now left|]. split.
      * intros z [<-|Hz]; [lia|]. specialize (Hmin z Hz). lia.
      * exists [], (before ++ y :: after). split; [reflexivity | intros z []].
    + intros [= <- <-]. split; [now right|]. split.
      * intros z [<-|Hz]; [lia | now apply Hmin].
      * exists (a :: before), after. split; [reflexivity|].
        intros z [<-|Hz]; [lia | now apply Hbefore].
Qed.

End SortOn.

(** ** Shares by car and user *)

Lemma share_eq (s : CarShare) (c u : Id) :
  String.eqb (shareCarId s) c && String.eqb (shareUserId s) u = true
  <-> s = mkCarShare c u.
Proof.
  rewrite andb_true_iff, !String.eqb_eq. destruct s as [c' u']. cbn.
  split; [intros [-> ->]; reflexivity | intros [= -> ->]; auto].
Qed.

Lemma filter_nil_iff {A : Type} (f : A -> bool) (l : list A) :
  List.filter f l = [] <-> forall x, In x l -> f x = false.
Proof.
  induction l as [|y l IH]; cbn; [tauto|].
  destruct (f y) eqn:E.
  - split; [discriminate|]. intros H. specialize (H y (or_introl eq_refl)). congruence.
  - rewrite IH. split; [intros H x [<-|Hx]; auto | intros H x Hx; apply H; now right].
Qed.

(** With no pair of car and user shared twice, the index finds the one share
    of a pair. *)
Lemma sharesByCarUser_unique (db : Store.Db) (s : Store.ShareDoc) :
  NoDup (List.map Store.share (Store.carShares db)) ->
  In s (Store.carShares db) ->
  Store.sharesByCarUser db (shareCarId (Store.share s)) (shareUserId (Store.share s)) = [s].
Proof.
  unfold Store.sharesByCarUser.
  set (P := fun x => String.eqb (shareCarId (Store.share x)) (shareCarId (Store.share s))
                     && String.eqb (shareUserId (Store.share x))
                                   (shareUserId (Store.share s))).
  assert (HP : forall x, P x = true <-> Store.share x = Store.share s).
  { intros x. unfold P. rewrite share_eq. now destruct (Store.share s). }
  induction (Store.carShares db) as [|x l IH]; intros Hnd Hin; [destruct Hin|].
  cbn [List.map] in Hnd. apply NoDup_cons in Hnd as [Hx Hnd]. cbn [List.filter].
  destruct Hin as [->|Hin].
  - assert (P s = true) as -> by now apply HP.
    f_equal. apply filter_nil_iff. intros y Hy.
    destruct (P y) eqn:E; [|reflexivity]. apply HP in E. exfalso. apply Hx.
    rewrite <- E. apply list_elem_of_In. now apply List.in_map.
  - destruct (P x) eqn:E.
    + apply HP in E. exfalso. apply Hx. rewrite E.
      apply list_elem_of_In. now apply List.in_map.
    + now apply IH.
Qed.

Lemma sharesByCarUser_le_1 (db : Store.Db) (c u : Id) :
  NoDup (List.map Store.share (Store.carShares db)) ->
  (length (Store.sharesByCarUser db c u) <= 1)%nat.
Proof.
  intros Hnd. destruct (Store.sharesByCarUser db c u) as [|s l] eqn:E; [cbn; lia|].
  assert (Hs : In s (Store.sharesByCarUser db c u)) by (rewrite E; now left).
  apply sharesByCarUser_In in Hs as (Hin & <- & <-).
  rewrite (sharesByCarUser_unique db s Hnd Hin) in E. injection E as <-. cbn. lia.
Qed.

(** In such a store the check of access never fails for want of a unique
    share. *)
Lemma carWithAccess_unique (db : Store.Db) (auth : option Id) (car : Id) :
  NoDup (List.map Store.share (Store.carShares db)) ->
  Store.carWithAccess db auth car <> inl Store.NotUniqueError.
Proof.
  intros Hnd. unfold Store.carWithAccess, Store.requireUser, Store.requireCar,
    Store.requireAccess.
  destruct auth as [u|]; [|discriminate]. cbn [Store.andThen].
  destruct (Store.getBy _ _ _) as [c|]; [|discriminate]. cbn [Store.andThen].
  destruct (String.eqb _ _); [discriminate|].
  pose proof (sharesByCarUser_le_1 db car u Hnd) as Hle.
  destruct (Store.sharesByCarUser db car u) as [|s [|s' l]]; cbn in *; try discriminate.
  lia.
Qed.

(** ** Who may change what *)

Lemma carAsOwner_access (db : Store.Db) (auth : option Id) (id : Id) (msg : string)
    (u : Id) (c : Store.CarDoc) :
  Store.carAsOwner db auth id msg = inr (u, c) ->
  Store.carWithAccess db auth id = inr (u, c) /\ ownerId (Store.loan c) = u.
Proof.
  unfold Store.carAsOwner, Store.carWithAccess, Store.requireUser, Store.requireCar,
    Store.requireAccess. intros H.
  destruct auth as [u'|]; [|discriminate]. cbn [Store.andThen] in *.
  destruct (Store.getBy _ _ _) as [c'|]; [|discriminate]. cbn [Store.andThen] in *.
  destruct (String.eqb_spec (ownerId (Store.loan c')) u'); [|discriminate].
  injection H as <- <-. now split.
Qed.

Lemma expenseWithAccess_inr (db : Store.Db) (auth : option Id) (id : Id)
    (e : Store.ExpenseDoc) :
  Store.expenseWithAccess db auth id = inr e ->
  Store.getBy Store.expenseId (Store.expenses db) id = Some e
  /\ exists u c, Store.carWithAccess db auth (carId (Store.base e)) = inr (u, c).
Proof.
  unfold Store.expenseWithAccess, Store.carWithAccess. intros H.
  destruct (Store.requireUser auth) as [?|u]; [discriminate|]. cbn [Store.andThen] in *.
  destruct (Store.getBy _ _ _) as [e'|]; [|discriminate].
  destruct (Store.requireCar db _) as [?|c] eqn:Ec; [discriminate|].
  cbn [Store.andThen] in *.
  destruct (Store.requireAccess db c _ u) as [?|[]] eqn:Ea; [discriminate|].
  cbn [Store.andThen] in *. injection H as <-. split; [reflexivity|].
  exists u, c. rewrite Ec. cbn [Store.andThen]. now rewrite Ea.
Qed.

Lemma run_cars_by (db db' : Store.Db) (auth : option Id) (now : Z) (newId : Id)
    (m : Store.Mutation) :
  Store.run db auth now newId m = inr db' ->
  Store.cars db' = Store.cars db
  \/ (exists id f u c0,
        Store.cars db' = Store.patchBy Store.car_id id f (Store.cars db)
        /\ Store.carWithAccess db auth id = inr (u, c0)
        /\ (forall c, Store.car_id (f c) = Store.car_id c)
        /\ (ownerId (Store.loan c0) = u \/ forall c, ownerPart (f c) = ownerPart c))
  \/ (exists c, Store.cars db' = Store.cars db ++ [c]).
Proof.
  intros H. inv_run H m; cbn [Store.cars Store.setCars Store.setShares Store.setExpenses
                               Store.patchCar];
    try (left; reflexivity);
    try (right; right; eexists; reflexivity);
    repeat match goal with
      | H : Store.carAsOwner _ _ _ _ = inr ?p |- _ => is_var p; destruct p
      | H : Store.carWithAccess _ _ _ = inr ?p |- _ => is_var p; destruct p
      | H : Store.carAsOwner _ _ _ _ = inr (_, _) |- _ =>
          apply carAsOwner_access in H as [? ?]
      end;
    right; left; eexists _, _, _, _;
    (split; [reflexivity|]); (split; [eassumption|]); (split; [intros ?; reflexivity|]);
    first [left; assumption | right; intros ?; reflexivity].
Qed.

Lemma In_sortOn {A : Type} (key : A -> Z) (l : list A) (x : A) :
  In x (Store.sortOn key l) <-> In x l.
Proof.
  split; apply Permutation_in; [symmetry|]; apply sortOn_perm.
Qed.

Lemma accessoryExpenses_In (db : Store.Db) (car : Id) (name : string)
    (e : Store.ExpenseDoc) :
  In e (Store.accessoryExpenses db car name)
  <-> In e (Store.expenses db)
      /\ carId (Store.base e) = car
      /\ category (Store.base e) = accessories
      /\ Store.description e = Store.accessoryDescription name.
Proof.
  unfold Store.accessoryExpenses, Store.expensesByCarCategory.
  rewrite !List.filter_In, andb_true_iff, !String.eqb_eq, Category_eqb_eq. tauto.
Qed.

Lemma run_expenses_by (db db' : Store.Db) (auth : option Id) (now : Z) (newId : Id)
    (m : Store.Mutation) :
  Store.run db auth now newId m = inr db' ->
  Store.expenses db' = Store.expenses db
  \/ (exists e u c,
        Store.expenses db' = Store.expenses db ++ [e]
        /\ Store.carWithAccess db auth (carId (Store.base e)) = inr (u, c))
  \/ (exists e f u c,
        Store.expenses db'
        = Store.patchBy Store.expenseId (Store.expenseId e) f (Store.expenses db)
        /\ In e (Store.expenses db)
        /\ Store.carWithAccess db auth (carId (Store.base e)) = inr (u, c)
        /\ forall x, Store.expenseId (f x) = Store.expenseId x
                     /\ carId (Store.base (f x)) = carId (Store.base x))
  \/ (exists e u c,
        Store.expenses db'
        = Store.deleteBy Store.expenseId (Store.expenseId e) (Store.expenses db)
        /\ In e (Store.expenses db)
        /\ Store.carWithAccess db auth (carId (Store.base e)) = inr (u, c)).
Proof.
  intros H. inv_run H m; cbn [Store.expenses Store.setCars Store.setShares
                               Store.setExpenses Store.patchCar];
    try (left; reflexivity);
    repeat match goal with
      | H : Store.carWithAccess _ _ _ = inr ?p |- _ => is_var p; destruct p
      | H : Store.expenseWithAccess _ _ _ = inr _ |- _ =>
          apply expenseWithAccess_inr in H as (? & ? & ? & ?)
      | H : Store.getBy Store.expenseId _ _ = Some _ |- _ =>
          apply getBy_Some in H as [? ?]
      end.
  all: try match goal with
    | H : Store.latestFirst (Store.accessoryExpenses ?d ?car ?name) = ?e :: _ |- _ =>
        let Hin := fresh "Hin" in
        assert (Hin : In e (Store.accessoryExpenses d car name))
          by (apply (In_sortOn (fun x => - Store.expenseDate x)); unfold Store.latestFirst in H;
              rewrite H; now left);
        apply accessoryExpenses_In in Hin as (Hin & ? & _); cbn in Hin; subst car
    end.
  - right; left. eexists _, _, _. split; [reflexivity|]. cbn. eassumption.
  - right; right; left. eexists e, _, _, _. split; [reflexivity|].
    split; [assumption|]. split; [eassumption|]. intros ?. now cbn.
  - right; right; right. eexists e, _, _. split; [reflexivity|].
    split; [assumption|]. eassumption.
  - right; left. eexists _, _, _. split; [reflexivity|]. cbn. eassumption.
  - subst. right; right; left. eexists _, _, _, _. split; [reflexivity|].
    split; [eassumption|]. split; [eassumption|]. intros ?. now cbn.
  - subst. right; right; right. eexists _, _, _. split; [reflexivity|].
    split; [eassumption|]. eassumption.
Qed.

(** ** Filters after a change of another document *)

Section Others.

Context {A : Type} (idOf : A -> Id) (P : A -> bool).

Lemma filter_deleteBy_other (t : list A) (d : A) :
  NoDup (List.map idOf t) -> In d t -> P d = false ->
  List.filter P (Store.deleteBy idOf (idOf d) t) = List.filter P t.
Proof.
  induction t as [|x t IH]; intros Hnd Hin HP; [destruct Hin|].
  cbn [List.map] in Hnd. apply NoDup_cons in Hnd as [Hx Hnd]. cbn.
  destruct (String.eqb_spec (idOf x) (idOf d)) as [E|E].
  - destruct Hin as [->|Hin]; [now rewrite HP|].
    exfalso. apply Hx. rewrite E. apply list_elem_of_In. now apply List.in_map.
  - destruct Hin as [->|Hin]; [congruence|]. cbn. now rewrite IH.
Qed.

Lemma filter_patchBy_other (t : list A) (d : A) (f : A -> A) :
  NoDup (List.map idOf t) -> In d t -> P d = false -> P (f d) = false ->
  List.filter P (Store.patchBy idOf (idOf d) f t) = List.filter P t.
Proof.
  induction t as [|x t IH]; intros Hnd Hin HP HP'; [destruct Hin|].
  cbn [List.map] in Hnd. apply NoDup_cons in Hnd as [Hx Hnd]. cbn.
  destruct (String.eqb_spec (idOf x) (idOf d)) as [E|E].
  - destruct Hin as [->|Hin]; [cbn; now rewrite HP, HP'|].
    exfalso. apply Hx. rewrite E. apply list_elem_of_In. now apply List.in_map.
  - destruct Hin as [->|Hin]; [congruence|]. cbn. now rewrite IH.
Qed.

Lemma filter_snoc_other (t : list A) (d : A) :
  P d = false -> List.filter P (t ++ [d]) = List.filter P t.
Proof. intros HP. rewrite List.filter_app. cbn. rewrite HP. apply List.app_nil_r. Qed.

End Others.

(** ** The worked store *)

Ltac fresh_id := unfold Store.fresh; cbn; intuition discriminate.

Lemma db7_reachable : Store.reachable StoreEx.db7.
Proof.
  apply Store.reach_run
    with (db := StoreEx.db6) (auth := Some "u1") (now := Ex.T0 + Ex.days 32) (newId := "e3")
         (m := Store.AddBuyerAccessory "c1" "Roof rack" 300 (Ex.T0 + Ex.days 10));
    [|fresh_id|vm_compute; reflexivity].
  apply Store.reach_run
    with (db := StoreEx.db5) (auth := Some "u1") (now := Ex.T0 + Ex.days 31) (newId := "e2")
         (m := Store.AddExpense "c1" loan_payment 400 "January" (Ex.T0 + Ex.days 31)
                                None None None None);
    [|fresh_id|vm_compute; reflexivity].
  apply Store.reach_run
    with (db := StoreEx.db4) (auth := Some "u2") (now := Ex.T0 + Ex.days 3) (newId := "e1")
         (m := Store.AddExpense "c1" fuel 40 "Fuel" (Ex.T0 + Ex.days 3) None None None None);
    [|fresh_id|vm_compute; reflexivity].
  apply Store.reach_run
    with (db := StoreEx.db3) (auth := Some "u1") (now := Ex.T0 + 3) (newId := "s1")
         (m := Store.ShareCar "c1" "bob@example.com");
    [|fresh_id|vm_compute; reflexivity].
  apply Store.reach_run
    with (db := StoreEx.db2) (auth := Some "u1") (now := Ex.T0 + 2) (newId := "n3")
         (m := Store.UpdateCarLoanDetails "c1" StoreEx.financed);
    [|fresh_id|vm_compute; reflexivity].
  apply Store.reach_run
    with (db := StoreEx.db1) (auth := Some "u1") (now := Ex.T0 + 1) (newId := "n2")
         (m := Store.UpdateCarPurchaseDetails "c1" StoreEx.purchased);
    [|fresh_id|vm_compute; reflexivity].
  apply Store.reach_run
    with (db := StoreEx.db0) (auth := Some "u1") (now := Ex.T0) (newId := "c1")
         (m := Store.CreateCar "Honda" "Civic" None 2020 (Some "Daily"));
    [|fresh_id|vm_compute; reflexivity].
  apply Store.reach_init.
Qed.

Lemma db7_wellFormed : wellFormed StoreEx.db7.
Proof. apply reachable_wellFormed, db7_reachable. Qed.

Lemma db7_distinctIds : distinctIds StoreEx.db7.
Proof. apply db7_wellFormed. Qed.

(** ** Expenses: summary, lists, recording and deleting *)

Lemma StronglySorted_snoc {A : Type} (R : A -> A -> Prop) (l : list A) (x : A) :
  StronglySorted R l -> Forall (fun y => R y x) l -> StronglySorted R (l ++ [x]).
Proof.
  induction 1 as [|y l Hs IH Hy]; intros Hx; cbn.
  - repeat constructor.
  - apply Forall_cons in Hx as [Hyx Hx]. constructor; [now apply IH|].
    apply Forall_app. split; [exact Hy | now constructor].
Qed.

Lemma StronglySorted_rev {A : Type} (R : A -> A -> Prop) (l : list A) :
  StronglySorted R l -> StronglySorted (fun a b => R b a) (List.rev l).
Proof.
  induction 1 as [|y l Hs IH Hy]; cbn; [constructor|].
  apply StronglySorted_snoc; [exact IH|].
  apply Forall_forall. intros z Hz. rewrite Forall_forall in Hy. apply Hy.
  apply list_elem_of_In. apply list_elem_of_In in Hz. now apply List.in_rev.
Qed.

Lemma filter_rev' {A : Type} (f : A -> bool) (l : list A) :
  List.filter f (List.rev l) = List.rev (List.filter f l).
Proof.
  induction l as [|x l IH]; [reflexivity|]. cbn.
  rewrite List.filter_app, IH. cbn. destruct (f x); cbn; [reflexivity|].
  now rewrite List.app_nil_r.
Qed.

Lemma filter_perm {A : Type} (f : A -> bool) (l1 l2 : list A) :
  Permutation l1 l2 -> Permutation (List.filter f l1) (List.filter f l2).
Proof.
  induction 1 as [|x l1 l2 _ IH|x y l|l1 l2 l3 _ IH1 _ IH2]; cbn.
  - constructor.
  - destruct (f x); [now apply perm_skip | exact IH].
  - destruct (f x), (f y); try reflexivity. apply perm_swap.
  - now rewrite IH1.
Qed.

Lemma getCar_access (db : Store.Db) (auth : option Id) (car : Id) (u : Id)
    (c : Store.CarDoc) :
  Store.carWithAccess db auth car = inr (u, c) -> Store.getCar db auth car = inr c.
Proof. unfold Store.getCar. now intros ->. Qed.

(** Sums of amounts none of which is negative: the sum is not negative, and
    the sum of a part of the list is at most the sum of the list. *)
Lemma sumAmounts_nonneg (l : list Store.ExpenseDoc) :
  (forall e, In e l -> (0 <= amount (Store.base e))%Q) -> (0 <= Store.sumAmounts l)%Q.
Proof.
  induction l as [|e l IH]; intros H; [discriminate|].
  rewrite sumAmounts_cons.
  assert (0 <= amount (Store.base e))%Q by (apply H; now left).
  assert (0 <= Store.sumAmounts l)%Q by (apply IH; intros; apply H; now right).
  lra.
Qed.

Lemma sumAmounts_filter_le (f : Store.ExpenseDoc -> bool) (l : list Store.ExpenseDoc) :
  (forall e, In e l -> (0 <= amount (Store.base e))%Q) ->
  (0 <= Store.sumAmounts (List.filter f l) <= Store.sumAmounts l)%Q.
Proof.
  induction l as [|e l IH]; intros H; [split; discriminate|].
  assert (He : (0 <= amount (Store.base e))%Q) by (apply H; now left).
  destruct IH as [IH0 IH1]; [intros; apply H; now right|].
  cbn [List.filter]. destruct (f e); rewrite ?sumAmounts_cons; split; lra.
Qed.

(** X8: [getExpenseSummary]: the entry of a category is the sum of the
    car's expenses of that category, and is missing when there is none; the
    entry [down_payments] is there exactly when the down payments of the car
    sum to more than zero; there is no other key. The count is the number
    of recorded expenses. The total is the sum of the amounts of the car's
    expenses, added one by one in the order of recording, to which the down
    payments are added last, whatever their sign; when no amount and not the
    down payments are negative, no entry is negative and none exceeds the
    total. *)
Theorem X8_summary_is_the_sum_by_category
    (db : Store.Db) (auth : option Id) (car : Id) (s : Store.ExpenseSummary) :
  Store.getExpenseSummary db auth car = inr s ->
  exists carDoc,
    Store.getCar db auth car = inr carDoc
    /\ (forall k,
          Store.categoryTotals s !! Store.categoryName k
          = match Store.expensesByCarCategory db car k with
            | [] => None
            | found => Some (Store.sumAmounts found)
            end)
    /\ Store.categoryTotals s !! "down_payments"
       = (if Qlt_bool 0 (Store.downPaymentsTotalOf carDoc)
          then Some (Store.downPaymentsTotalOf carDoc) else None)
    /\ (forall key, is_Some (Store.categoryTotals s !! key) ->
          key = "down_payments" \/ exists k, key = Store.categoryName k)
    /\ Store.expenseCount s = length (Store.expensesByCar db car)
    /\ Store.totalExpenses s
       = (Store.sumAmounts (Store.expensesByCar db car)
          + Store.downPaymentsTotalOf carDoc)%Q
    /\ ((forall e, In e (Store.expensesByCar db car) -> (0 <= amount (Store.base e))%Q) ->
        (0 <= Store.downPaymentsTotalOf carDoc)%Q ->
        forall key q, Store.categoryTotals s !! key = Some q ->
          (0 <= q <= Store.totalExpenses s)%Q).
Proof.
  unfold Store.getExpenseSummary. intros H.
  destruct (Store.carWithAccess db auth car) as [e|[u c]] eqn:E; [discriminate|].
  cbn [Store.andThen] in H. injection H as <-. exists c.
  split; [now apply getCar_access with u|]. cbn [Store.categoryTotals Store.totalExpenses
    Store.expenseCount].
  assert (Hk : forall k,
    List.fold_left Store.addToCategory (Store.expensesByCar db car) ∅
      !! Store.categoryName k
    = match Store.expensesByCarCategory db car k with
      | [] => None
      | found => Some (Store.sumAmounts found)
      end).
  { intros k. rewrite categoryTotals_lookup, expensesByCarCategory_filter.
    rewrite lookup_empty. reflexivity. }
  set (totals := if Qlt_bool 0 (Store.downPaymentsTotalOf c) then _ else _).
  assert (Hcat : forall k,
    totals !! Store.categoryName k
    = match Store.expensesByCarCategory db car k with
      | [] => None
      | found => Some (Store.sumAmounts found)
      end).
  { intros k. subst totals.
    destruct (Qlt_bool 0 (Store.downPaymentsTotalOf c)); [|apply Hk].
    rewrite lookup_insert_ne by (apply not_eq_sym, categoryName_not_down_payments).
    apply Hk. }
  assert (Hdown : totals !! "down_payments"
                  = (if Qlt_bool 0 (Store.downPaymentsTotalOf c)
                     then Some (Store.downPaymentsTotalOf c) else None)).
  { subst totals. destruct (Qlt_bool 0 (Store.downPaymentsTotalOf c)).
    - now rewrite lookup_insert_eq.
    - destruct (_ !! "down_payments") as [q|] eqn:Eq; [|reflexivity].
      destruct (categoryTotals_keys _ _ _ (mk_is_Some _ _ Eq)) as [Hm | (e & _ & He)].
      + rewrite lookup_empty in Hm. now apply is_Some_None in Hm.
      + symmetry in He. now apply categoryName_not_down_payments in He. }
  assert (Hkeys : forall key, is_Some (totals !! key) ->
                    key = "down_payments" \/ exists k, key = Store.categoryName k).
  { intros key Hkey. subst totals.
    destruct (Qlt_bool 0 (Store.downPaymentsTotalOf c)).
    - destruct (decide ("down_payments" = key)) as [<-|Hne]; [now left|].
      rewrite lookup_insert_ne in Hkey by exact Hne.
      destruct (categoryTotals_keys _ _ _ Hkey) as [Hm | (e & _ & He)].
      + rewrite lookup_empty in Hm. now apply is_Some_None in Hm.
      + right. eexists. exact He.
    - destruct (categoryTotals_keys _ _ _ Hkey) as [Hm | (e & _ & He)].
      + rewrite lookup_empty in Hm. now apply is_Some_None in Hm.
      + right. eexists. exact He. }
  split; [exact Hcat|]. split; [exact Hdown|]. split; [exact Hkeys|].
  split; [reflexivity|]. split; [reflexivity|].
  intros Hpos Hdp key q Hq.
  pose proof (sumAmounts_nonneg _ Hpos) as Hsum.
  destruct (Hkeys key (mk_is_Some _ _ Hq)) as [-> | [k ->]].
  - rewrite Hdown in Hq. destruct (Qlt_bool 0 _); [|discriminate].
    injection Hq as <-. split; lra.
  - rewrite Hcat, expensesByCarCategory_filter in Hq.
    pose proof (sumAmounts_filter_le
                  (fun e => Category_eqb (category (Store.base e)) k) _ Hpos) as [H0 H1].
    destruct (List.filter _ _) eqn:Ef; [discriminate|].
    injection Hq as <-. split; lra.
Qed.

Lemma expensesByCar_snoc (db : Store.Db) (e : Store.ExpenseDoc) (car : Id) :
  Store.expensesByCar (Store.setExpenses db (Store.expenses db ++ [e])) car
  = if String.eqb (carId (Store.base e)) car
    then Store.expensesByCar db car ++ [e]
    else Store.expensesByCar db car.
Proof.
  unfold Store.expensesByCar. cbn [Store.expenses Store.setExpenses].
  rewrite List.filter_app. cbn [List.filter].
  destruct (String.eqb _ _); [reflexivity | apply List.app_nil_r].
Qed.

Lemma addExpense_inr (db db' : Store.Db) (auth : option Id) (now : Z) (newId id : Id)
    (car : Id) (k : Category) (amt : Q) (descr : string) (when : Z)
    (miles : option Q) (place : option string) (principal interest : option Q) :
  Store.addExpense db auth now newId car k amt descr when miles place principal interest
  = inr (db', id) ->
  exists u c,
    Store.carWithAccess db auth car = inr (u, c)
    /\ id = newId
    /\ db' = Store.setExpenses db
               (Store.expenses db
                ++ [Store.mkExpenseDoc (mkExpense newId car k amt when principal interest)
                                       u descr None miles place None None now]).
Proof.
  unfold Store.addExpense. intros H.
  destruct (Store.carWithAccess db auth car) as [e|[u c]]; [discriminate|].
  cbn [Store.andThen] in H. injection H as <- <-. now exists u, c.
Qed.

(** X9: Recording an expense with [addExpense] shows in [getExpenseSummary]
    of the car: one more expense; the amount is added to the sum of the
    amounts recorded before, and the down payments to that, so that the total
    is not lower than it was when the amount is not negative, and not higher
    when it is not positive; the entry of its category is higher by the
    amount (or created), and every other entry as it was. The summary of any
    other car is unchanged. *)
Theorem X9_recorded_expense_enters_the_summary
    (db db' : Store.Db) (auth : option Id) (now : Z) (newId id : Id)
    (car : Id) (k : Category) (amt : Q) (descr : string) (when : Z)
    (miles : option Q) (place : option string) (principal interest : option Q) :
  Store.addExpense db auth now newId car k amt descr when miles place principal interest
  = inr (db', id) ->
  id = newId
  /\ (exists s s' carDoc,
        Store.getExpenseSummary db auth car = inr s
        /\ Store.getExpenseSummary db' auth car = inr s'
        /\ Store.getCar db auth car = inr carDoc
        /\ Store.totalExpenses s
           = (Store.sumAmounts (Store.expensesByCar db car)
              + Store.downPaymentsTotalOf carDoc)%Q
        /\ Store.totalExpenses s'
           = (Store.sumAmounts (Store.expensesByCar db car) + amt
              + Store.downPaymentsTotalOf carDoc)%Q
        /\ ((0 <= amt)%Q -> (Store.totalExpenses s <= Store.totalExpenses s')%Q)
        /\ ((amt <= 0)%Q -> (Store.totalExpenses s' <= Store.totalExpenses s)%Q)
        /\ Store.expenseCount s' = S (Store.expenseCount s)
        /\ Store.categoryTotals s'
           = <[Store.categoryName k :=
                 (orZero (Store.categoryTotals s !! Store.categoryName k) + amt)%Q]>
               (Store.categoryTotals s))
  /\ (forall who other, other <> car ->
        Store.getExpenseSummary db' who other = Store.getExpenseSummary db who other).
Proof.
  intros H. apply addExpense_inr in H as (u & c & Hacc & -> & ->).
  split; [reflexivity|]. split.
  - unfold Store.getExpenseSummary. rewrite carWithAccess_setExpenses, Hacc.
    cbn [Store.andThen]. eexists _, _, c. split; [reflexivity|]. split; [reflexivity|].
    split; [now apply getCar_access with u|].
    cbn [Store.totalExpenses Store.expenseCount Store.categoryTotals].
    rewrite expensesByCar_snoc. cbn [Store.base carId]. rewrite String.eqb_refl.
    rewrite sumAmounts_snoc, List.fold_left_app, List.length_app.
    cbn [List.fold_left length Store.base amount].
    split; [reflexivity|]. split; [reflexivity|].
    split; [intros; lra|]. split; [intros; lra|]. split; [lia|].
    unfold Store.addToCategory. cbn [Store.base category amount].
    destruct (Qlt_bool 0 (Store.downPaymentsTotalOf c)); [|reflexivity].
    rewrite lookup_insert_ne by (apply not_eq_sym, categoryName_not_down_payments).
    apply insert_insert_ne. apply not_eq_sym, categoryName_not_down_payments.
  - intros who other Hne. unfold Store.getExpenseSummary.
    rewrite carWithAccess_setExpenses.
    destruct (Store.carWithAccess db who other) as [e|[u' c']]; [reflexivity|].
    cbn [Store.andThen]. rewrite expensesByCar_snoc. cbn [Store.base carId].
    destruct (String.eqb_spec car other); [congruence | reflexivity].
Qed.

(** X10: [deleteExpense] undoes [addExpense]: deleting, as the same user, the
    expense just recorded under an id no expense had gives back the store
    as it was. *)
Theorem X10_deleting_the_recorded_expense_restores_the_store
    (db db' : Store.Db) (auth : option Id) (now : Z) (newId id : Id)
    (car : Id) (k : Category) (amt : Q) (descr : string) (when : Z)
    (miles : option Q) (place : option string) (principal interest : option Q) :
  ~ In newId (List.map Store.expenseId (Store.expenses db)) ->
  Store.addExpense db auth now newId car k amt descr when miles place principal interest
  = inr (db', id) ->
  Store.deleteExpense db' auth id = inr db.
Proof.
  intros Hfresh H. apply addExpense_inr in H as (u & c & Hacc & -> & ->).
  set (doc := Store.mkExpenseDoc _ _ _ _ _ _ _ _ _).
  assert (Hget : Store.getBy Store.expenseId (Store.expenses db ++ [doc]) newId = Some doc).
  { rewrite getBy_app. apply getBy_None in Hfresh. rewrite Hfresh.
    unfold Store.getBy. cbn. now rewrite String.eqb_refl. }
  unfold Store.deleteExpense, Store.expenseWithAccess.
  cbn [Store.expenses Store.setExpenses]. rewrite Hget.
  unfold Store.carWithAccess in Hacc.
  destruct (Store.requireUser auth) as [e|u']; [discriminate|].
  cbn [Store.andThen] in *. cbn [doc Store.base carId].
  change (Store.requireCar (Store.setExpenses db (Store.expenses db ++ [doc])) car)
    with (Store.requireCar db car).
  destruct (Store.requireCar db car) as [e|c']; [discriminate|].
  cbn [Store.andThen] in *.
  change (Store.requireAccess (Store.setExpenses db (Store.expenses db ++ [doc])) c' car u')
    with (Store.requireAccess db c' car u').
  destruct (Store.requireAccess db c' car u') as [e|[]]; [discriminate|].
  cbn [Store.andThen]. f_equal.
  change newId with (Store.expenseId doc). rewrite deleteBy_appended by exact Hfresh.
  now destruct db.
Qed.

(** X11: [getCarExpenses] returns the expenses of the car, all of them and
    no other, latest date first; expenses of one same date come in the
    reverse of the order they were recorded in. [getExpensesByCategory]
    returns those of them that are of the category, in the reverse of the
    order of recording whatever their dates. *)
Theorem X11_car_expenses_latest_first
    (db : Store.Db) (auth : option Id) (car : Id) (l : list Store.ExpenseDoc) :
  Store.getCarExpenses db auth car = inr l ->
  Permutation l (Store.expensesByCar db car)
  /\ (forall e, In e l <-> In e (Store.expenses db) /\ carId (Store.base e) = car)
  /\ StronglySorted (fun a b => Store.expenseDate b <= Store.expenseDate a) l
  /\ (forall d,
        List.filter (fun e => Store.expenseDate e =? d) l
        = List.rev (List.filter (fun e => Store.expenseDate e =? d)
                                (Store.expensesByCar db car)))
  /\ (forall k, exists l',
        Store.getExpensesByCategory db auth car k = inr l'
        /\ Permutation l'
             (List.filter (fun e => Category_eqb (category (Store.base e))
                                                 (Store.toCategory k)) l)
        /\ l' = List.rev
                  (List.filter (fun e => Category_eqb (category (Store.base e))
                                                      (Store.toCategory k))
                               (Store.expensesByCar db car))).
Proof.
  unfold Store.getCarExpenses, Store.getExpensesByCategory. intros H.
  destruct (Store.carWithAccess db auth car) as [e|p]; [discriminate|].
  cbn [Store.andThen] in *. injection H as <-.
  assert (Hperm : Permutation (List.rev (Store.sortOn Store.expenseDate
                                 (Store.expensesByCar db car)))
                              (Store.expensesByCar db car)).
  { rewrite <- Permutation_rev. symmetry. apply sortOn_perm. }
  split; [exact Hperm|]. split; [|split; [|split]].
  - intros e. split.
    + intros He. apply (Permutation_in _ Hperm) in He.
      unfold Store.expensesByCar in He. apply List.filter_In in He as [He Hc].
      now apply String.eqb_eq in Hc.
    + intros [He Hc]. apply (Permutation_in _ (Permutation_sym Hperm)).
      unfold Store.expensesByCar. apply List.filter_In. split; [exact He|].
      now apply String.eqb_eq.
  - apply (StronglySorted_rev (fun a b => Store.expenseDate a <= Store.expenseDate b)).
    apply sortOn_sorted.
  - intros d. rewrite filter_rev'. f_equal. apply sortOn_stable.
  - intros k. eexists. split; [reflexivity|].
    rewrite expensesByCarCategory_filter. split; [|reflexivity].
    rewrite <- Permutation_rev. symmetry. now apply filter_perm.
Qed.

Lemma loanPaymentsOf_snoc (db : Store.Db) (auth : option Id) (now : Z)
    (e : Store.ExpenseDoc) (car : Id) :
  loanPaymentsOf (Store.ctxOf (Store.setExpenses db (Store.expenses db ++ [e])) auth now) car
  = if String.eqb (carId (Store.base e)) car
       && Category_eqb (category (Store.base e)) loan_payment
    then loanPaymentsOf (Store.ctxOf db auth now) car ++ [Store.base e]
    else loanPaymentsOf (Store.ctxOf db auth now) car.
Proof.
  unfold loanPaymentsOf, Store.ctxOf. cbn [expenses Store.expenses Store.setExpenses].
  rewrite List.map_app, List.filter_app. cbn [List.map List.filter].
  destruct (_ && _); [reflexivity | apply List.app_nil_r].
Qed.

Lemma fetchCar_setExpenses (db : Store.Db) (l : list Store.ExpenseDoc)
    (auth : option Id) (now : Z) (car : Id) :
  fetchCar (Store.ctxOf (Store.setExpenses db l) auth now) car
  = fetchCar (Store.ctxOf db auth now) car.
Proof. now rewrite !fetchCar_ctxOf. Qed.

(** X12: The loan queries read the expenses of category [loan_payment] of
    their car and no other: an expense recorded with [addExpense] in another
    category, or for another car, changes the answer of neither
    [getNextLoanPayment] nor [getLoanDetails], for any user at any time;
    one recorded as a loan payment of the car is the last of the payments
    they replay, before sorting by date. *)
Theorem X12_only_loan_payments_of_the_car_reach_the_loan_queries
    (db db' : Store.Db) (auth : option Id) (now : Z) (newId id : Id)
    (car : Id) (k : Category) (amt : Q) (descr : string) (when : Z)
    (miles : option Q) (place : option string) (principal interest : option Q) :
  Store.addExpense db auth now newId car k amt descr when miles place principal interest
  = inr (db', id) ->
  (forall who at_ other,
     k <> loan_payment \/ other <> car ->
     getNextLoanPayment (Store.ctxOf db' who at_) other
     = getNextLoanPayment (Store.ctxOf db who at_) other
     /\ getLoanDetails (Store.ctxOf db' who at_) other
        = getLoanDetails (Store.ctxOf db who at_) other)
  /\ (k = loan_payment ->
      forall who at_,
        loanPaymentsOf (Store.ctxOf db' who at_) car
        = loanPaymentsOf (Store.ctxOf db who at_) car
          ++ [mkExpense newId car k amt when principal interest]).
Proof.
  intros H. apply addExpense_inr in H as (u & c & Hacc & -> & ->). split.
  - intros who at_ other Hother.
    unfold getNextLoanPayment, getLoanDetails.
    rewrite fetchCar_setExpenses, loanPaymentsOf_snoc. cbn [Store.base carId category].
    assert (String.eqb car other && Category_eqb k loan_payment = false) as ->.
    { apply andb_false_iff. destruct Hother as [Hk|Hc].
      - right. destruct (Category_eqb k loan_payment) eqn:E; [|reflexivity].
        now apply Category_eqb_eq in E.
      - left. apply String.eqb_neq. congruence. }
    split; reflexivity.
  - intros -> who at_. rewrite loanPaymentsOf_snoc. cbn [Store.base carId category].
    now rewrite String.eqb_refl.
Qed.

(** ** The cars of a user *)

Lemma getUserCars_listed (db : Store.Db) (u : Id) :
  exists l, Store.getUserCars db (Some u) = inr l
            /\ List.map Store.listed l = Store.carsOfUser db u.
Proof.
  unfold Store.getUserCars, Store.carsOfUser. cbn [Store.requireUser Store.andThen].
  eexists. split; [reflexivity|]. rewrite List.map_app, List.map_map. cbn [Store.listed].
  rewrite List.map_id. f_equal.
  induction (Store.sharesByUser db u) as [|s l IH]; [reflexivity|]. cbn [List.map].
  destruct (Store.sharedCarOf db s); cbn; now rewrite IH.
Qed.

Lemma In_nonNull {A : Type} (l : list (option A)) (x : A) :
  In x (Store.nonNull l) <-> In (Some x) l.
Proof.
  induction l as [|[y|] l IH]; cbn; [tauto| |].
  - rewrite IH. split; [intros [->|H]; auto | intros [[= ->]|H]; auto].
  - rewrite IH. split; [auto | intros [H|H]; [discriminate | exact H]].
Qed.

(** A car of the user's list is one the user has access to, under its own
    id. *)
Lemma carsOfUser_access (db : Store.Db) (u : Id) (c : Store.CarDoc) :
  wellFormed db -> In c (Store.carsOfUser db u) ->
  Store.carWithAccess db (Some u) (Store.car_id c) = inr (u, c)
  /\ Store.archived c = false.
Proof.
  intros ((Hids & _ & _) & Hpairs & Hflags & _) Hin.
  unfold Store.carsOfUser in Hin. apply List.in_app_or in Hin as [Hin|Hin].
  - unfold Store.carsByOwnerActive in Hin. apply List.filter_In in Hin as [Hin Hc].
    apply andb_true_iff in Hc as [Ho Hf]. 
    unfold Store.carWithAccess, Store.requireCar, Store.requireAccess.
    cbn [Store.requireUser Store.andThen].
    rewrite (getBy_unique Store.car_id _ _ Hids Hin). cbn [Store.andThen].
    rewrite Ho. cbn [Store.andThen]. split; [reflexivity|].
    unfold Store.archived. now destruct (Store.isArchived (Store.archive c)) as [[]|].
  - apply In_nonNull, List.in_map_iff in Hin as (s & Hs & Hin).
    unfold Store.sharedCarOf in Hs.
    destruct (Store.getBy _ _ _) as [c'|] eqn:Hget; [|discriminate].
    destruct (Store.archived c') eqn:Ha; [discriminate|]. injection Hs as ->.
    destruct (getBy_Some _ _ _ _ Hget) as [_ Hid]. rewrite Hid.
    unfold Store.sharesByUser in Hin. apply List.filter_In in Hin as [Hin Hu].
    apply String.eqb_eq in Hu.
    unfold Store.carWithAccess, Store.requireCar, Store.requireAccess.
    cbn [Store.requireUser Store.andThen]. rewrite Hget. cbn [Store.andThen].
    split; [|exact Ha].
    destruct (String.eqb _ u); [reflexivity|].
    rewrite <- Hu, (sharesByCarUser_unique db s Hpairs Hin). reflexivity.
Qed.

(** Adding nothing to a number leaves the number. *)
Lemma Qplus_nothing (q : Q) : (q + 0)%Q = q.
Proof.
  destruct q as [n d]. unfold Qplus. cbn [Qnum Qden]. f_equal; [lia|].
  apply Pos.mul_1_r.
Qed.

(** The loop of [getTotalUserExpenses] keeps two running sums, one of the
    recorded amounts and one of the down payments, each taken car by car. *)
Lemma addCarTotals_apart (db : Store.Db) (l : list Store.CarDoc) (t d : Q) :
  List.fold_left (Store.addCarTotals db) l (t, d)
  = (List.fold_left Qplus
       (List.map (fun c => Store.sumAmounts (Store.expensesByCar db (Store.car_id c))) l) t,
     List.fold_left Qplus (List.map Store.downPaymentsTotalOf l) d).
Proof.
  revert t d. induction l as [|c l IH]; intros t d; [reflexivity|].
  cbn [List.fold_left List.map]. unfold Store.addCarTotals at 2.
  unfold Store.downPaymentsTotalOf at 2.
  destruct (Store.downPayments (Store.purchase c)); rewrite IH; [reflexivity|].
  now rewrite Qplus_nothing.
Qed.

Lemma sumQ_nonneg (l : list Q) : (forall x, In x l -> (0 <= x)%Q) -> (0 <= sumQ l)%Q.
Proof.
  induction l as [|x l IH]; intros H; [discriminate|].
  rewrite sumQ_cons.
  assert (0 <= x)%Q by (apply H; now left).
  assert (0 <= sumQ l)%Q by (apply IH; intros; apply H; now right).
  lra.
Qed.

(** In a sum of numbers none of which is negative, no term exceeds the
    sum. *)
Lemma sumQ_term_le (l : list Q) (x : Q) :
  (forall y, In y l -> (0 <= y)%Q) -> In x l -> (x <= sumQ l)%Q.
Proof.
  induction l as [|y l IH]; intros H Hin; [destruct Hin|].
  rewrite sumQ_cons.
  assert (0 <= y)%Q by (apply H; now left).
  assert (0 <= sumQ l)%Q by (apply sumQ_nonneg; intros; apply H; now right).
  destruct Hin as [->|Hin]; [lra|].
  assert (x <= sumQ l)%Q by (apply IH; [intros; apply H; now right | exact Hin]).
  lra.
Qed.

(** X13: [getTotalUserExpenses] goes through the cars of [getUserCars], in
    a store where ids and shared pairs are not repeated: the count is the
    length of the user's list, and every car of the list has a summary for
    the user, whose total is the car's recorded amounts plus its down
    payments. The user's total is the sum, car by car, of the recorded
    amounts of the cars, plus the sum, car by car, of their down payments;
    when no amount and no car's down payments are negative, no car's summary
    shows a total above the user's. *)
Theorem X13_user_total_adds_expenses_and_down_payments_apart
    (db : Store.Db) (auth : option Id) (t : Store.UserTotal) :
  wellFormed db ->
  Store.getTotalUserExpenses db auth = inr t ->
  let recorded := fun x : Store.ListedCar =>
    Store.sumAmounts (Store.expensesByCar db (Store.car_id (Store.listed x))) in
  let down := fun x : Store.ListedCar => Store.downPaymentsTotalOf (Store.listed x) in
  exists l,
    Store.getUserCars db auth = inr l
    /\ Store.carCount t = length l
    /\ (forall x, In x l ->
          exists s, Store.getExpenseSummary db auth (Store.car_id (Store.listed x)) = inr s
                    /\ Store.totalExpenses s = (recorded x + down x)%Q)
    /\ Store.userTotalExpenses t
       = (sumQ (List.map recorded l) + sumQ (List.map down l))%Q
    /\ ((forall x, In x l -> (0 <= down x)%Q
                              /\ forall e, In e (Store.expensesByCar db
                                                   (Store.car_id (Store.listed x))) ->
                                           (0 <= amount (Store.base e))%Q) ->
        forall x s, In x l ->
          Store.getExpenseSummary db auth (Store.car_id (Store.listed x)) = inr s ->
          (Store.totalExpenses s <= Store.userTotalExpenses t)%Q).
Proof.
  intros Hwf H recorded down. unfold Store.getTotalUserExpenses in H.
  destruct auth as [u|]; [|discriminate]. cbn [Store.requireUser Store.andThen] in H.
  destruct (getUserCars_listed db u) as (l & Hl & Hmap).
  rewrite addCarTotals_apart in H. injection H as <-.
  cbn [Store.carCount Store.userTotalExpenses].
  assert (Hsummary : forall x, In x l ->
    Store.getExpenseSummary db (Some u) (Store.car_id (Store.listed x))
    = inr (Store.mkSummary (recorded x + down x)%Q
             (let totals := List.fold_left Store.addToCategory
                              (Store.expensesByCar db (Store.car_id (Store.listed x))) ∅ in
              if Qlt_bool 0 (down x) then <["down_payments" := down x]> totals else totals)
             (length (Store.expensesByCar db (Store.car_id (Store.listed x)))))).
  { intros x Hx.
    assert (Hin : In (Store.listed x) (Store.carsOfUser db u)).
    { rewrite <- Hmap. now apply List.in_map. }
    destruct (carsOfUser_access db u (Store.listed x) Hwf Hin) as [Hacc _].
    unfold Store.getExpenseSummary. rewrite Hacc. reflexivity. }
  assert (Htotal :
    (List.fold_left Qplus
       (List.map (fun c => Store.sumAmounts (Store.expensesByCar db (Store.car_id c)))
                 (Store.carsOfUser db u)) 0
     + List.fold_left Qplus (List.map Store.downPaymentsTotalOf (Store.carsOfUser db u)) 0)%Q
    = (sumQ (List.map recorded l) + sumQ (List.map down l))%Q).
  { rewrite <- Hmap, !List.map_map. reflexivity. }
  exists l. split; [exact Hl|]. split; [now rewrite <- Hmap, List.length_map|].
  split; [|split; [exact Htotal|]].
  - intros x Hx. eexists. split; [now apply Hsummary|]. reflexivity.
  - intros Hpos x s Hx Hs. rewrite Htotal.
    rewrite (Hsummary x Hx) in Hs. injection Hs as <-. cbn [Store.totalExpenses].
    assert (recorded x <= sumQ (List.map recorded l))%Q.
    { apply sumQ_term_le; [|now apply List.in_map].
      intros y Hy. apply List.in_map_iff in Hy as (z & <- & Hz).
      apply sumAmounts_nonneg. now apply Hpos. }
    assert (down x <= sumQ (List.map down l))%Q.
    { apply sumQ_term_le; [|now apply List.in_map].
      intros y Hy. apply List.in_map_iff in Hy as (z & <- & Hz). now apply Hpos. }
    lra.
Qed.

(** ** The stores the application reaches, and the lists of cars *)

Lemma carWithAccess_thrown (db : Store.Db) (auth : option Id) (car : Id) (e : Store.Thrown) :
  Store.carWithAccess db auth car = inl e ->
  e = Store.Error "Not authenticated" \/ e = Store.Error "Car not found"
  \/ e = Store.Error "Access denied" \/ e = Store.NotUniqueError.
Proof.
  unfold Store.carWithAccess, Store.requireUser, Store.requireCar, Store.requireAccess.
  destruct auth as [u|]; cbn [Store.andThen]; [|intros [= <-]; auto].
  destruct (Store.getBy _ _ _) as [c|]; cbn [Store.andThen]; [|intros [= <-]; auto].
  destruct (String.eqb _ _); cbn [Store.andThen]; [discriminate|].
  destruct (Store.sharesByCarUser db car u) as [|s [|s' l]]; cbn; intros [= <-]; auto.
Qed.

Lemma fetchCar_unique (db : Store.Db) (auth : option Id) (now : Z) (car : Id) :
  NoDup (List.map Store.share (Store.carShares db)) ->
  fetchCar (Store.ctxOf db auth now) car <> inl NotUnique.
Proof.
  intros Hnd. rewrite fetchCar_ctxOf.
  pose proof (carWithAccess_unique db auth car Hnd) as Hne.
  destruct (Store.carWithAccess db auth car) as [e|[u c]] eqn:E; [|discriminate].
  destruct (carWithAccess_thrown _ _ _ _ E) as [-> | [-> | [-> | ->]]];
    cbn; congruence.
Qed.

(** X14: No call removes a car or hands it to another owner: after any
    successful mutation a car that was in the store is still found under its
    id, with the owner and the creation time it had, and archived if it
    was. *)
Theorem X14_cars_are_never_removed_nor_change_owner
    (db db' : Store.Db) (auth : option Id) (now : Z) (newId : Id) (m : Store.Mutation)
    (id : Id) (c : Store.CarDoc) :
  Store.run db auth now newId m = inr db' ->
  Store.getBy Store.car_id (Store.cars db) id = Some c ->
  exists c',
    Store.getBy Store.car_id (Store.cars db') id = Some c'
    /\ Store.car_id c' = Store.car_id c
    /\ ownerId (Store.loan c') = ownerId (Store.loan c)
    /\ Store.createdAt c' = Store.createdAt c
    /\ (Store.archived c = true -> Store.archived c' = true).
Proof.
  intros H Hc. destruct (run_keeps_cars _ _ _ _ _ _ _ _ H Hc) as (c' & Hc' & Hk).
  exists c'. split; [exact Hc'|]. unfold carKept in Hk. tauto.
Qed.

(** X15: In every store the application can reach, ids are distinct within
    a table, no car is shared twice with one user, no car has [isArchived]
    set to false, every share has the role [shared], is of a car in the
    store and was made by the owner of that car, and every expense is of a
    car in the store. Hence the lookup of the one share of a car and a user
    never fails for want of uniqueness, in [getCar] as in the loan
    queries. *)
Theorem X15_reachable_stores_are_well_formed (db : Store.Db) :
  Store.reachable db ->
  wellFormed db
  /\ forall auth now car,
       Store.getCar db auth car <> inl Store.NotUniqueError
       /\ getNextLoanPayment (Store.ctxOf db auth now) car <> inl NotUnique
       /\ getLoanDetails (Store.ctxOf db auth now) car <> inl NotUnique.
Proof.
  intros Hr. pose proof (reachable_wellFormed db Hr) as Hwf. split; [exact Hwf|].
  destruct Hwf as (_ & Hpairs & _). intros auth now car. repeat split.
  - unfold Store.getCar. pose proof (carWithAccess_unique db auth car Hpairs) as Hne.
    destruct (Store.carWithAccess db auth car) as [e|[u c]]; cbn; congruence.
  - unfold getNextLoanPayment. pose proof (fetchCar_unique db auth now car Hpairs) as Hne.
    destruct (fetchCar _ _); congruence.
  - unfold getLoanDetails. pose proof (fetchCar_unique db auth now car Hpairs) as Hne.
    destruct (fetchCar _ _); congruence.
Qed.

Lemma getUserCars_owned (db : Store.Db) (u : Id) (l : list Store.ListedCar)
    (c : Store.CarDoc) :
  Store.getUserCars db (Some u) = inr l ->
  In (Store.mkListed c false Store.owner) l
  <-> In c (Store.carsByOwnerActive db u None).
Proof.
  unfold Store.getUserCars. cbn [Store.requireUser Store.andThen]. intros [= <-].
  rewrite List.in_app_iff, List.in_map_iff. split.
  - intros [(c' & [= ->] & Hin) | Hin]; [exact Hin|].
    apply In_nonNull, List.in_map_iff in Hin as (s & Hs & _).
    destruct (Store.sharedCarOf db s); discriminate.
  - intros Hin. left. now exists c.
Qed.

Lemma flag_cases (db : Store.Db) (c : Store.CarDoc) :
  wellFormed db -> In c (Store.cars db) ->
  Store.isArchived (Store.archive c) = None
  \/ Store.isArchived (Store.archive c) = Some true.
Proof.
  intros (_ & _ & Hflags & _) Hin. rewrite Forall_forall in Hflags.
  specialize (Hflags c (proj2 (list_elem_of_In _ _) Hin)).
  destruct (Store.isArchived (Store.archive c)) as [[]|]; auto. congruence.
Qed.

(** X16: In a well-formed store each car of a user is in exactly one of the
    two lists of that user: [getUserCars], as a car of their own, or
    [getArchivedCars]. *)
Theorem X16_an_owned_car_is_listed_or_archived
    (db : Store.Db) (u : Id) (c : Store.CarDoc) :
  wellFormed db -> In c (Store.cars db) -> ownerId (Store.loan c) = u ->
  exists l a,
    Store.getUserCars db (Some u) = inr l
    /\ Store.getArchivedCars db (Some u) = inr a
    /\ ((In (Store.mkListed c false Store.owner) l /\ ~ In c a)
        \/ (~ In (Store.mkListed c false Store.owner) l /\ In c a)).
Proof.
  intros Hwf Hin Ho.
  destruct (getUserCars_listed db u) as (l & Hl & _).
  exists l, (Store.carsByOwnerActive db u (Some true)).
  split; [exact Hl|]. split; [reflexivity|].
  rewrite (getUserCars_owned db u l c Hl).
  unfold Store.carsByOwnerActive. rewrite !List.filter_In, Ho, String.eqb_refl.
  destruct (flag_cases db c Hwf Hin) as [-> | ->]; cbn.
  - left. split; [auto | intros [_ H]; discriminate].
  - right. split; [intros [_ H]; discriminate | auto].
Qed.

Lemma getUserCars_In (db : Store.Db) (u : Id) (l : list Store.ListedCar)
    (x : Store.ListedCar) :
  Store.getUserCars db (Some u) = inr l -> In x l ->
  (x = Store.mkListed (Store.listed x) false Store.owner
   /\ In (Store.listed x) (Store.carsByOwnerActive db u None))
  \/ (exists s, In s (Store.sharesByUser db u)
                /\ Store.sharedCarOf db s = Some (Store.listed x)
                /\ x = Store.mkListed (Store.listed x) true (Store.role s)).
Proof.
  unfold Store.getUserCars. cbn [Store.requireUser Store.andThen]. intros [= <-] Hin.
  apply List.in_app_or in Hin as [Hin|Hin].
  - apply List.in_map_iff in Hin as (c & <- & Hc). left. now split.
  - apply In_nonNull, List.in_map_iff in Hin as (s & Hs & Hin). right. exists s.
    split; [exact Hin|]. destruct (Store.sharedCarOf db s) as [c|]; [|discriminate].
    injection Hs as <-. now split.
Qed.

(** X17: In a well-formed store every car [getUserCars] lists is one the
    user can open with [getCar], under its own id, and is not archived; its
    role is [owner] when it is the user's own and [shared] otherwise, the
    role [owner] being never stored in a share. *)
Theorem X17_listed_cars_can_be_opened
    (db : Store.Db) (auth : option Id) (l : list Store.ListedCar) (x : Store.ListedCar) :
  wellFormed db ->
  Store.getUserCars db auth = inr l -> In x l ->
  Store.getCar db auth (Store.car_id (Store.listed x)) = inr (Store.listed x)
  /\ Store.archived (Store.listed x) = false
  /\ Store.shareRole x = (if Store.isShared x then Store.shared else Store.owner)
  /\ (Store.isShared x = false -> auth = Some (ownerId (Store.loan (Store.listed x)))).
Proof.
  intros Hwf Hl Hin. destruct auth as [u|]; [|discriminate].
  destruct (getUserCars_listed db u) as (l' & Hl' & Hmap).
  rewrite Hl in Hl'. injection Hl' as <-.
  assert (Hc : In (Store.listed x) (Store.carsOfUser db u)).
  { rewrite <- Hmap. now apply List.in_map. }
  destruct (carsOfUser_access db u _ Hwf Hc) as [Hacc Harch].
  split; [now apply getCar_access with u|]. split; [exact Harch|].
  destruct (getUserCars_In db u l x Hl Hin) as [[-> Ho] | (s & Hs & _ & ->)];
    cbn [Store.isShared Store.shareRole Store.listed].
  - split; [reflexivity|]. intros _.
    unfold Store.carsByOwnerActive in Ho. apply List.filter_In in Ho as [_ Ho].
    apply andb_true_iff in Ho as [Ho _]. apply String.eqb_eq in Ho. cbn in Ho.
    now rewrite Ho.
  - split; [|discriminate].
    destruct Hwf as (_ & _ & _ & Hsound & _). rewrite Forall_forall in Hsound.
    unfold Store.sharesByUser in Hs. apply List.filter_In in Hs as [Hs _].
    now destruct (Hsound s (proj2 (list_elem_of_In _ _) Hs)) as [-> _].
Qed.

(** ** Who may change what: the theorems *)

Lemma sharesByCar_kept (db db' : Store.Db) (auth : option Id) (now : Z) (newId : Id)
    (m : Store.Mutation) (id : Id) (c : Store.CarDoc) :
  distinctIds db ->
  Store.getBy Store.car_id (Store.cars db) id = Some c ->
  auth <> Some (ownerId (Store.loan c)) ->
  Store.run db auth now newId m = inr db' ->
  Store.sharesByCar db' id = Store.sharesByCar db id.
Proof.
  intros (_ & Hids & _) Hc Hno H. unfold Store.sharesByCar.
  destruct (run_shares _ _ _ _ _ _ H)
    as [-> | [(s & c0 & -> & _ & _ & Hby & Hc0 & Ho & _) | (s & c0 & -> & Hs & Hc0 & Hby)]];
    [reflexivity| |].
  - apply filter_snoc_other. apply String.eqb_neq. intros Heq.
    rewrite Heq, Hc in Hc0. injection Hc0 as <-. congruence.
  - apply filter_deleteBy_other; [exact Hids| |].
    + assert (In s (Store.sharesByCarUser db (shareCarId (Store.share s))
                      (shareUserId (Store.share s)))) as Hin by (rewrite Hs; now left).
      now apply sharesByCarUser_In in Hin as [Hin _].
    + apply String.eqb_neq. intros Heq.
      rewrite Heq, Hc in Hc0. injection Hc0 as <-. congruence.
Qed.

(** X18: What only the owner may change: a call by anyone else, whatever
    it is, leaves the loan and purchase fields of a car, its sale, its total
    loss and its archive state as they were, and the shares of the car as
    well. *)
Theorem X18_only_the_owner_changes_loan_purchase_archive_and_shares
    (db db' : Store.Db) (auth : option Id) (now : Z) (newId : Id) (m : Store.Mutation)
    (id : Id) (c : Store.CarDoc) :
  distinctIds db ->
  Store.getBy Store.car_id (Store.cars db) id = Some c ->
  auth <> Some (ownerId (Store.loan c)) ->
  Store.run db auth now newId m = inr db' ->
  (exists c',
     Store.getBy Store.car_id (Store.cars db') id = Some c'
     /\ Store.loan c' = Store.loan c
     /\ Store.purchase c' = Store.purchase c
     /\ Store.sale c' = Store.sale c
     /\ Store.totalLoss c' = Store.totalLoss c
     /\ Store.archive c' = Store.archive c)
  /\ Store.sharesByCar db' id = Store.sharesByCar db id.
Proof.
  intros Hids Hc Hno H. split; [|now apply sharesByCar_kept with auth now newId m c].
  assert (Hpart : exists c', Store.getBy Store.car_id (Store.cars db') id = Some c'
                             /\ ownerPart c' = ownerPart c).
  { destruct (run_cars_by _ _ _ _ _ _ H)
      as [-> | [(id' & f & u & c0 & -> & Hacc & Hf & Hwho) | (c' & ->)]].
    - now exists c.
    - rewrite getBy_patchBy by exact Hf. rewrite Hc. cbn.
      destruct (String.eqb_spec id' id) as [->|Hne]; [|now exists c].
      exists (f c). split; [reflexivity|].
      apply carWithAccess_inr in Hacc as (-> & Hc0 & _). rewrite Hc in Hc0.
      injection Hc0 as <-. destruct Hwho as [Ho | Hkeep]; [congruence | apply Hkeep].
    - rewrite getBy_app, Hc. now exists c. }
  destruct Hpart as (c' & Hc' & Hp). exists c'. split; [exact Hc'|].
  unfold ownerPart in Hp. injection Hp as -> -> -> -> ->. auto.
Qed.

(** X19: A user who cannot open a car with [getCar] cannot change anything
    of it: whatever call they make, the car, its shares and its expenses
    stay as they were. *)
Theorem X19_without_access_nothing_of_a_car_changes
    (db db' : Store.Db) (auth : option Id) (now : Z) (newId : Id) (m : Store.Mutation)
    (id : Id) (c : Store.CarDoc) (e : Store.Thrown) :
  distinctIds db ->
  Store.getBy Store.car_id (Store.cars db) id = Some c ->
  Store.getCar db auth id = inl e ->
  Store.run db auth now newId m = inr db' ->
  Store.getBy Store.car_id (Store.cars db') id = Some c
  /\ Store.sharesByCar db' id = Store.sharesByCar db id
  /\ Store.expensesByCar db' id = Store.expensesByCar db id.
Proof.
  intros Hids Hc Hno H.
  assert (Hden : forall u c0, Store.carWithAccess db auth id <> inr (u, c0)).
  { intros u c0 Hacc. unfold Store.getCar in Hno. rewrite Hacc in Hno. discriminate. }
  assert (Hnot : auth <> Some (ownerId (Store.loan c))).
  { intros ->. apply (Hden (ownerId (Store.loan c)) c).
    unfold Store.carWithAccess, Store.requireCar, Store.requireAccess.
    cbn [Store.requireUser Store.andThen]. rewrite Hc. cbn [Store.andThen].
    now rewrite String.eqb_refl. }
  split; [|split].
  - destruct (run_cars_by _ _ _ _ _ _ H)
      as [-> | [(id' & f & u & c0 & -> & Hacc & Hf & _) | (c' & ->)]].
    + exact Hc.
    + rewrite getBy_patchBy by exact Hf. rewrite Hc.
      destruct (String.eqb_spec id' id) as [->|Hne]; [|reflexivity].
      now apply Hden in Hacc.
    + now rewrite getBy_app, Hc.
  - now apply sharesByCar_kept with auth now newId m c.
  - destruct Hids as (_ & _ & Hids). unfold Store.expensesByCar.
    destruct (run_expenses_by _ _ _ _ _ _ H)
      as [-> | [(x & u & c0 & -> & Hacc)
               | [(x & f & u & c0 & -> & Hin & Hacc & Hf) | (x & u & c0 & -> & Hin & Hacc)]]].
    + reflexivity.
    + apply filter_snoc_other. apply String.eqb_neq. intros Heq. rewrite Heq in Hacc.
      now apply Hden in Hacc.
    + assert (String.eqb (carId (Store.base x)) id = false) as Hx.
      { apply String.eqb_neq. intros Heq. rewrite Heq in Hacc. now apply Hden in Hacc. }
      apply filter_patchBy_other; [exact Hids | exact Hin | exact Hx|].
      destruct (Hf x) as [_ ->]. exact Hx.
    + apply filter_deleteBy_other; [exact Hids | exact Hin|].
      apply String.eqb_neq. intros Heq. rewrite Heq in Hacc. now apply Hden in Hacc.
Qed.

(** ** Sharing *)

Lemma shareCar_inr (db db' : Store.Db) (auth : option Id) (now : Z) (newId car : Id)
    (userEmail : string) :
  Store.shareCar db auth now newId car userEmail = inr db' ->
  exists u c target,
    Store.carAsOwner db auth car "Only the owner can share this car" = inr (u, c)
    /\ Store.usersByEmail db userEmail = [target]
    /\ Store.sharesByCarUser db car (Store.user_id target) = []
    /\ db' = Store.setShares db
               (Store.carShares db
                ++ [Store.mkShare newId (mkCarShare car (Store.user_id target))
                                  Store.shared now u]).
Proof.
  unfold Store.shareCar. intros H.
  destruct (Store.carAsOwner _ _ _ _) as [?|[u c]]; [discriminate|].
  cbn [Store.andThen] in H.
  destruct (Store.uniqueOf (Store.usersByEmail db userEmail)) as [?|[target|]] eqn:Et;
    try discriminate.
  cbn [Store.andThen] in H.
  destruct (Store.uniqueOf (Store.sharesByCarUser db car _)) as [?|[s|]] eqn:Es;
    try discriminate.
  cbn [Store.andThen] in H. injection H as <-.
  apply uniqueOf_Some in Et. apply uniqueOf_None in Es. now exists u, c, target.
Qed.

Lemma sharesByCarUser_snoc (db : Store.Db) (s : Store.ShareDoc) (car u : Id) :
  Store.sharesByCarUser (Store.setShares db (Store.carShares db ++ [s])) car u
  = if String.eqb (shareCarId (Store.share s)) car
       && String.eqb (shareUserId (Store.share s)) u
    then Store.sharesByCarUser db car u ++ [s]
    else Store.sharesByCarUser db car u.
Proof.
  unfold Store.sharesByCarUser. cbn [Store.carShares Store.setShares].
  rewrite List.filter_app. cbn [List.filter].
  destruct (_ && _); [reflexivity | apply List.app_nil_r].
Qed.

(** X20: [shareCar] gives the user of that email access: once it succeeds
    they open the car with [getCar] and get the car the owner gets, find it
    in [getUserCars] as a shared car with the role [shared] unless it is
    archived, and appear in [getCarUsers] with that role. *)
Theorem X20_sharing_gives_access
    (db db' : Store.Db) (auth : option Id) (now : Z) (newId car : Id)
    (userEmail : string) :
  Store.shareCar db auth now newId car userEmail = inr db' ->
  exists target c,
    Store.usersByEmail db userEmail = [target]
    /\ Store.getCar db auth car = inr c
    /\ auth = Some (ownerId (Store.loan c))
    /\ Store.getCar db' (Some (Store.user_id target)) car = inr c
    /\ (Store.archived c = false ->
        exists l, Store.getUserCars db' (Some (Store.user_id target)) = inr l
                  /\ In (Store.mkListed c true Store.shared) l)
    /\ (exists users, Store.getCarUsers db' auth car = inr users
                      /\ exists who, In (who, Store.shared) users
                                     /\ Store.user_id who = Store.user_id target).
Proof.
  intros H. apply shareCar_inr in H as (u & c & target & Hown & Ht & Hnone & ->).
  apply carAsOwner_access in Hown as [Hacc Ho].
  pose proof (carWithAccess_inr _ _ _ _ _ Hacc) as (-> & Hc & _).
  exists target, c. split; [exact Ht|]. split; [now apply getCar_access with u|].
  split; [now rewrite Ho|].
  set (s := Store.mkShare _ _ _ _ _).
  assert (Hshares : Store.sharesByCarUser
                      (Store.setShares db (Store.carShares db ++ [s])) car
                      (Store.user_id target) = [s]).
  { rewrite sharesByCarUser_snoc. cbn [s Store.share shareCarId shareUserId].
    now rewrite !String.eqb_refl, Hnone. }
  split; [|split].
  - unfold Store.getCar, Store.carWithAccess, Store.requireCar, Store.requireAccess.
    cbn [Store.requireUser Store.andThen Store.cars Store.setShares].
    rewrite Hc. cbn [Store.andThen]. rewrite Hshares.
    now destruct (String.eqb _ _).
  - intros Harch. unfold Store.getUserCars. cbn [Store.requireUser Store.andThen].
    eexists. split; [reflexivity|]. apply List.in_or_app. right.
    apply In_nonNull, List.in_map_iff. exists s. split.
    + unfold Store.sharedCarOf. cbn [Store.cars Store.setShares s Store.share shareCarId].
      rewrite Hc, Harch. reflexivity.
    + unfold Store.sharesByUser. cbn [Store.carShares Store.setShares].
      apply List.filter_In. split; [apply List.in_or_app; right; now left|].
      cbn. apply String.eqb_refl.
  - unfold Store.getCarUsers.
    change (Store.carWithAccess (Store.setShares db (Store.carShares db ++ [s]))
              (Some u) car)
      with (Store.andThen (Store.requireUser (Some u)) (fun userId =>
              Store.andThen (Store.requireCar db car) (fun c0 =>
                Store.andThen (Store.requireAccess
                                 (Store.setShares db (Store.carShares db ++ [s]))
                                 c0 car userId)
                              (fun _ => inr (userId, c0))))).
    cbn [Store.requireUser Store.andThen]. unfold Store.requireCar. rewrite Hc.
    cbn [Store.andThen]. unfold Store.requireAccess. rewrite Ho, String.eqb_refl.
    cbn [Store.andThen Store.users Store.setShares].
    eexists. split; [reflexivity|].
    assert (Hu : exists who, Store.getBy Store.user_id (Store.users db)
                               (Store.user_id target) = Some who).
    { destruct (Store.getBy Store.user_id (Store.users db) (Store.user_id target))
        as [who|] eqn:E; [now exists who|].
      apply getBy_None in E. exfalso. apply E. apply List.in_map.
      assert (In target (Store.usersByEmail db userEmail)) as Hin by (rewrite Ht; now left).
      unfold Store.usersByEmail in Hin. now apply List.filter_In in Hin as [Hin _]. }
    destruct Hu as (who & Hwho). exists who.
    split; [|now apply getBy_Some in Hwho as [_ ?]].
    apply List.in_or_app. right. apply In_nonNull, List.in_map_iff. exists s. split.
    + cbn [s Store.share shareUserId Store.role]. now rewrite Hwho.
    + unfold Store.sharesByCar. cbn [Store.carShares Store.setShares].
      apply List.filter_In. split; [apply List.in_or_app; right; now left|].
      cbn. apply String.eqb_refl.
Qed.

Lemma filter_deleteBy_self {A : Type} (idOf : A -> Id) (P : A -> bool) (t : list A) (d : A) :
  NoDup (List.map idOf t) -> In d t -> P d = true ->
  Permutation (List.filter P t) (d :: List.filter P (Store.deleteBy idOf (idOf d) t)).
Proof.
  induction t as [|x t IH]; intros Hnd Hin HP; [destruct Hin|].
  cbn [List.map] in Hnd. apply NoDup_cons in Hnd as [Hx Hnd]. cbn.
  destruct (String.eqb_spec (idOf x) (idOf d)) as [E|E].
  - destruct Hin as [->|Hin]; [now rewrite HP|].
    exfalso. apply Hx. rewrite E. apply list_elem_of_In. now apply List.in_map.
  - destruct Hin as [->|Hin]; [congruence|]. cbn.
    destruct (P x); [|now apply IH].
    rewrite (IH Hnd Hin HP). apply perm_swap.
Qed.

Lemma unshareCar_inr (db db' : Store.Db) (auth : option Id) (car user : Id) :
  Store.unshareCar db auth car user = inr db' ->
  exists u c,
    Store.carAsOwner db auth car "Only the owner can unshare this car" = inr (u, c)
    /\ ((Store.sharesByCarUser db car user = [] /\ db' = db)
        \/ exists s, Store.sharesByCarUser db car user = [s]
                     /\ db' = Store.setShares db
                                (Store.deleteBy Store.share_id (Store.share_id s)
                                                (Store.carShares db))).
Proof.
  unfold Store.unshareCar. intros H.
  destruct (Store.carAsOwner _ _ _ _) as [?|[u c]]; [discriminate|].
  cbn [Store.andThen] in H.
  destruct (Store.uniqueOf (Store.sharesByCarUser db car user)) as [?|[s|]] eqn:Es;
    try discriminate; cbn [Store.andThen] in H; injection H as <-; exists u, c;
    (split; [reflexivity|]).
  - right. exists s. split; [now apply uniqueOf_Some | reflexivity].
  - left. split; [now apply uniqueOf_None | reflexivity].
Qed.

(** X21: [unshareCar] takes the access away: once it succeeds the user named
    has no share of the car left and, unless they own it, [getCar] denies
    them the car; the shares of the car with other users are untouched. *)
Theorem X21_unsharing_takes_access_away
    (db db' : Store.Db) (auth : option Id) (car user : Id) :
  distinctIds db ->
  Store.unshareCar db auth car user = inr db' ->
  Store.sharesByCarUser db' car user = []
  /\ (forall c, Store.getBy Store.car_id (Store.cars db) car = Some c ->
                ownerId (Store.loan c) <> user ->
                Store.getCar db' (Some user) car = inl (Store.Error "Access denied"))
  /\ (forall other, other <> user ->
        Store.sharesByCarUser db' car other = Store.sharesByCarUser db car other).
Proof.
  intros (_ & Hids & _) H.
  apply unshareCar_inr in H as (u & c & _ & [[Hnone ->] | (s & Hs & ->)]).
  - split; [exact Hnone|]. split; [|reflexivity].
    intros c0 Hc0 Hno. unfold Store.getCar, Store.carWithAccess, Store.requireCar,
      Store.requireAccess. cbn [Store.requireUser Store.andThen]. rewrite Hc0.
    cbn [Store.andThen]. apply String.eqb_neq in Hno. now rewrite Hno, Hnone.
  - assert (Hin : In s (Store.sharesByCarUser db car user)) by (rewrite Hs; now left).
    apply sharesByCarUser_In in Hin as (Hin & Hcar & Huser).
    assert (Hgone : Store.sharesByCarUser
                      (Store.setShares db (Store.deleteBy Store.share_id (Store.share_id s)
                                             (Store.carShares db))) car user = []).
    { pose proof (filter_deleteBy_self Store.share_id
                    (fun x => String.eqb (shareCarId (Store.share x)) car
                              && String.eqb (shareUserId (Store.share x)) user)
                    (Store.carShares db) s Hids Hin) as Hperm.
      fold (Store.sharesByCarUser db car user) in Hperm. rewrite Hs in Hperm.
      specialize (Hperm ltac:(now rewrite Hcar, Huser, !String.eqb_refl)).
      apply Permutation_length in Hperm. cbn [length] in Hperm.
      unfold Store.sharesByCarUser. cbn [Store.carShares Store.setShares].
      destruct (List.filter _ (Store.deleteBy _ _ _)); [reflexivity | cbn in Hperm; lia]. }
    split; [exact Hgone|]. split.
    + intros c0 Hc0 Hno. unfold Store.getCar, Store.carWithAccess, Store.requireCar,
        Store.requireAccess. cbn [Store.requireUser Store.andThen Store.cars Store.setShares].
      rewrite Hc0. cbn [Store.andThen]. apply String.eqb_neq in Hno.
      now rewrite Hno, Hgone.
    + intros other Hother. unfold Store.sharesByCarUser.
      cbn [Store.carShares Store.setShares].
      apply filter_deleteBy_other; [exact Hids | exact Hin|].
      apply andb_false_iff. right. apply String.eqb_neq. congruence.
Qed.

(** X22: [unshareCar] undoes [shareCar]: sharing a car with a user and then
    unsharing it from them gives back the store as it was, when the share
    got an id no share had. *)
Theorem X22_unsharing_undoes_sharing
    (db db' : Store.Db) (auth : option Id) (now : Z) (newId car : Id)
    (userEmail : string) (target : Store.UserDoc) :
  ~ In newId (List.map Store.share_id (Store.carShares db)) ->
  Store.shareCar db auth now newId car userEmail = inr db' ->
  Store.usersByEmail db userEmail = [target] ->
  Store.unshareCar db' auth car (Store.user_id target) = inr db.
Proof.
  intros Hfresh H Ht. apply shareCar_inr in H as (u & c & target' & Hown & Ht' & Hnone & ->).
  rewrite Ht in Ht'. injection Ht' as <-.
  set (s := Store.mkShare _ _ _ _ _). unfold Store.unshareCar.
  change (Store.carAsOwner (Store.setShares db (Store.carShares db ++ [s])) auth car
            "Only the owner can unshare this car")
    with (Store.carAsOwner db auth car "Only the owner can unshare this car").
  assert (Hown' : Store.carAsOwner db auth car "Only the owner can unshare this car"
                  = inr (u, c)).
  { apply carAsOwner_inr in Hown as (-> & Hc & Ho).
    unfold Store.carAsOwner, Store.requireCar. cbn [Store.requireUser Store.andThen].
    rewrite Hc. cbn [Store.andThen]. now rewrite Ho, String.eqb_refl. }
  rewrite Hown'. cbn [Store.andThen]. rewrite sharesByCarUser_snoc.
  cbn [s Store.share shareCarId shareUserId]. rewrite !String.eqb_refl, Hnone.
  cbn [andb app Store.uniqueOf Store.andThen Store.share_id Store.carShares Store.setShares].
  f_equal. fold s. change newId with (Store.share_id s).
  rewrite deleteBy_appended by exact Hfresh. now destruct db.
Qed.

(** ** Changing a car in place *)

Lemma patchBy_In_id {A : Type} (idOf : A -> Id) (id : Id) (f : A -> A) (t : list A) (y : A) :
  NoDup (List.map idOf t) -> (forall d, idOf (f d) = idOf d) ->
  In y (Store.patchBy idOf id f t) -> idOf y = id ->
  exists d, In d t /\ y = f d.
Proof.
  intros Hnd Hf. induction t as [|x t IH]; cbn; [tauto|].
  cbn [List.map] in Hnd. apply NoDup_cons in Hnd as [Hx Hnd].
  destruct (String.eqb_spec (idOf x) id) as [E|E].
  - intros [<-|Hin] Hy; [exists x; auto|].
    exfalso. apply Hx. rewrite E, <- Hy. apply list_elem_of_In. now apply List.in_map.
  - intros [<-|Hin] Hy; [congruence|].
    destruct (IH Hnd Hin Hy) as (d & Hd & ->). exists d. auto.
Qed.

Lemma patchBy_In_found {A : Type} (idOf : A -> Id) (id : Id) (f : A -> A) (t : list A)
    (d : A) :
  Store.getBy idOf t id = Some d -> In (f d) (Store.patchBy idOf id f t).
Proof.
  unfold Store.getBy. induction t as [|x t IH]; cbn; [discriminate|].
  destruct (String.eqb (idOf x) id).
  - intros [= ->]. now left.
  - intros H. right. now apply IH.
Qed.

(** The checks after a change that keeps ids and owners: they pass or fail
    as before, and find the changed car. *)
Lemma carWithAccess_patchCar (db : Store.Db) (id : Id) (f : Store.CarDoc -> Store.CarDoc)
    (who : option Id) (car : Id) :
  (forall c, Store.car_id (f c) = Store.car_id c) ->
  (forall c, ownerId (Store.loan (f c)) = ownerId (Store.loan c)) ->
  Store.carWithAccess (Store.patchCar db id f) who car
  = match Store.carWithAccess db who car with
    | inl e => inl e
    | inr (u, c) => inr (u, if String.eqb id car then f c else c)
    end.
Proof.
  intros Hid Ho. unfold Store.carWithAccess, Store.requireCar, Store.requireAccess.
  destruct who as [u|]; [|reflexivity]. cbn [Store.requireUser Store.andThen].
  cbn [Store.patchCar Store.cars Store.setCars]. rewrite getBy_patchBy by exact Hid.
  destruct (Store.getBy Store.car_id (Store.cars db) car) as [c|];
    [|now destruct (String.eqb id car)].
  change (Store.sharesByCarUser (Store.patchCar db id f) car u)
    with (Store.sharesByCarUser db car u).
  destruct (String.eqb id car); cbn [fmap option_fmap option_map Store.andThen];
    rewrite ?Ho; destruct (String.eqb _ u); cbn [Store.andThen]; try reflexivity;
    destruct (Store.uniqueOf _) as [?|[?|]]; reflexivity.
Qed.

Lemma run_archives (db db' : Store.Db) (auth : option Id) (now : Z) (newId : Id)
    (m : Store.Mutation) (id : Id) :
  Store.run db auth now newId m = inr db' -> archives m = Some id ->
  exists u c f,
    Store.carWithAccess db auth id = inr (u, c)
    /\ ownerId (Store.loan c) = u
    /\ db' = Store.patchCar db id f
    /\ forall x, Store.car_id (f x) = Store.car_id x
                 /\ Store.loan (f x) = Store.loan x
                 /\ Store.basic (f x) = Store.basic x
                 /\ Store.purchase (f x) = Store.purchase x
                 /\ Store.buyerAccessories (f x) = Store.buyerAccessories x
                 /\ Store.isArchived (Store.archive (f x)) = Some true
                 /\ Store.archivedAt (Store.archive (f x)) = Some now.
Proof.
  intros H Ha. destruct m; try discriminate Ha; injection Ha as ->;
    cbn [Store.run] in H; unfold_handlers H; repeat inv_step;
    match goal with
    | H : Store.carAsOwner _ _ _ _ = inr ?p |- _ =>
        destruct p; apply carAsOwner_access in H as [? ?]
    end;
    eexists _, _, _; (split; [eassumption|]); (split; [assumption|]);
    (split; [reflexivity|]); intros x; cbn; auto 10.
Qed.

(** X23: Archiving, by [archiveCar], [markCarAsSold] or [markCarAsTotaled],
    is the owner's and hides the car from every list of cars in use: no
    user finds it in [getUserCars] any more and the owner finds it in
    [getArchivedCars]. It stays open to [getCar] for whoever had access,
    and the loan queries answer as before. *)
Theorem X23_archiving_hides_the_car_and_keeps_it_readable
    (db db' : Store.Db) (auth : option Id) (now : Z) (newId : Id) (m : Store.Mutation)
    (id : Id) :
  distinctIds db ->
  Store.run db auth now newId m = inr db' -> archives m = Some id ->
  exists c c',
    Store.getCar db auth id = inr c
    /\ auth = Some (ownerId (Store.loan c))
    /\ Store.getCar db' auth id = inr c'
    /\ Store.archived c' = true
    /\ Store.archivedAt (Store.archive c') = Some now
    /\ (forall who l x, Store.getUserCars db' who = inr l -> In x l ->
                        Store.car_id (Store.listed x) <> id)
    /\ (exists a, Store.getArchivedCars db' auth = inr a /\ In c' a)
    /\ (forall who e, Store.getCar db who id = inl e <-> Store.getCar db' who id = inl e)
    /\ (forall who at_ car,
          getNextLoanPayment (Store.ctxOf db' who at_) car
          = getNextLoanPayment (Store.ctxOf db who at_) car
          /\ getLoanDetails (Store.ctxOf db' who at_) car
             = getLoanDetails (Store.ctxOf db who at_) car).
Proof.
  intros (Hids & _ & _) H Ha.
  destruct (run_archives _ _ _ _ _ _ _ H Ha) as (u & c & f & Hacc & Ho & -> & Hf).
  pose proof (carWithAccess_inr _ _ _ _ _ Hacc) as (-> & Hc & _).
  assert (Hid : forall x, Store.car_id (f x) = Store.car_id x) by (intros x; apply Hf).
  assert (Hown : forall x, ownerId (Store.loan (f x)) = ownerId (Store.loan x)).
  { intros x. destruct (Hf x) as (_ & -> & _). reflexivity. }
  assert (Harch : forall x, Store.archived (f x) = true).
  { intros x. unfold Store.archived. destruct (Hf x) as (_ & _ & _ & _ & _ & -> & _).
    reflexivity. }
  exists c, (f c). split; [now apply getCar_access with u|].
  split; [now rewrite Ho|]. split.
  { unfold Store.getCar. rewrite carWithAccess_patchCar by assumption.
    rewrite Hacc. cbn. now rewrite String.eqb_refl. }
  split; [apply Harch|]. split; [apply Hf|]. split; [|split; [|split]].
  - intros who l x Hl Hin Heq. destruct who as [w|]; [|discriminate].
    destruct (getUserCars_In _ _ _ _ Hl Hin) as [[_ Hx] | (s & _ & Hs & _)].
    + unfold Store.carsByOwnerActive in Hx. apply List.filter_In in Hx as [Hx Hflag].
      cbn [Store.patchCar Store.cars Store.setCars] in Hx.
      destruct (patchBy_In_id _ _ _ _ _ Hids Hid Hx Heq) as (d & _ & Hd).
      rewrite Hd in Hflag. destruct (Hf d) as (_ & _ & _ & _ & _ & Hflag' & _).
      rewrite Hflag' in Hflag. apply andb_true_iff in Hflag as [_ Hflag]. discriminate.
    + unfold Store.sharedCarOf in Hs.
      cbn [Store.patchCar Store.cars Store.setCars] in Hs.
      rewrite getBy_patchBy in Hs by exact Hid.
      destruct (Store.getBy Store.car_id (Store.cars db) (shareCarId (Store.share s)))
        as [y|] eqn:Hy.
      * pose proof (getBy_Some _ _ _ _ Hy) as [_ Hyid].
        destruct (String.eqb_spec id (shareCarId (Store.share s))) as [E|E].
        -- cbn [fmap option_fmap option_map] in Hs. now rewrite Harch in Hs.
        -- destruct (Store.archived y); [discriminate|].
           injection Hs as Hs. rewrite <- Hs in Heq. congruence.
      * destruct (String.eqb id _); discriminate.
  - eexists. split; [reflexivity|]. unfold Store.carsByOwnerActive.
    apply List.filter_In. split.
    + cbn [Store.patchCar Store.cars Store.setCars]. now apply patchBy_In_found.
    + rewrite Hown, Ho, String.eqb_refl. destruct (Hf c) as (_ & _ & _ & _ & _ & -> & _).
      reflexivity.
  - intros who e. unfold Store.getCar. rewrite carWithAccess_patchCar by assumption.
    destruct (Store.carWithAccess db who id) as [e'|[u' c0]]; cbn; [tauto|].
    split; discriminate.
  - intros who at_ car. unfold getNextLoanPayment, getLoanDetails.
    rewrite !fetchCar_ctxOf, carWithAccess_patchCar by assumption.
    change (loanPaymentsOf (Store.ctxOf (Store.patchCar db id f) who at_) car)
      with (loanPaymentsOf (Store.ctxOf db who at_) car).
    destruct (Store.carWithAccess db who car) as [e'|[u' c0]]; [split; reflexivity|].
    assert (Store.loan (if String.eqb id car then f c0 else c0) = Store.loan c0) as ->.
    { destruct (String.eqb id car); [apply Hf | reflexivity]. }
    split; reflexivity.
Qed.

(** ** Trade-in, and a car just created *)

(** X24: [getAvailableCarsForTradeIn] offers the user's own cars in use,
    but for the one excluded: a car is in its answer exactly when
    [getUserCars] lists it as the user's own and it is not the excluded
    car. A car shared with the user is never offered. *)
Theorem X24_trade_in_offers_own_listed_cars
    (db : Store.Db) (auth : option Id) (excludeCarId : Id) (l : list Store.CarDoc) :
  Store.getAvailableCarsForTradeIn db auth excludeCarId = inr l ->
  exists l0,
    Store.getUserCars db auth = inr l0
    /\ (forall c, In c l <-> In (Store.mkListed c false Store.owner) l0
                            /\ Store.car_id c <> excludeCarId)
    /\ (forall c, In c l -> auth = Some (ownerId (Store.loan c))
                            /\ Store.archived c = false).
Proof.
  unfold Store.getAvailableCarsForTradeIn. intros H.
  destruct auth as [u|]; [|discriminate]. cbn [Store.requireUser Store.andThen] in H.
  injection H as <-. destruct (getUserCars_listed db u) as (l0 & Hl0 & _).
  exists l0. split; [exact Hl0|]. split.
  - intros c. rewrite (getUserCars_owned db u l0 c Hl0), List.filter_In, negb_true_iff.
    now rewrite String.eqb_neq.
  - intros c Hin. apply List.filter_In in Hin as [Hin _].
    unfold Store.carsByOwnerActive in Hin. apply List.filter_In in Hin as [_ Hin].
    apply andb_true_iff in Hin as [Ho Hf]. apply String.eqb_eq in Ho. split.
    + now rewrite Ho.
    + unfold Store.archived. now destruct (Store.isArchived (Store.archive c)) as [[]|].
Qed.

Lemma no_expense_of_fresh_car (db : Store.Db) (id : Id) :
  wellFormed db -> ~ In id (List.map Store.car_id (Store.cars db)) ->
  Store.expensesByCar db id = [].
Proof.
  intros (_ & _ & _ & _ & Hsound) Hfresh. unfold Store.expensesByCar.
  apply filter_nil_iff. intros e He. apply String.eqb_neq. intros Heq.
  rewrite Forall_forall in Hsound.
  destruct (Hsound e (proj2 (list_elem_of_In _ _) He)) as (c & Hc).
  rewrite Heq in Hc. apply getBy_Some in Hc as [Hin <-].
  apply Hfresh. now apply List.in_map.
Qed.

Lemma no_share_of_fresh_car (db : Store.Db) (id who : Id) :
  wellFormed db -> ~ In id (List.map Store.car_id (Store.cars db)) ->
  Store.sharesByCarUser db id who = [].
Proof.
  intros (_ & _ & _ & Hsound & _) Hfresh. unfold Store.sharesByCarUser.
  apply filter_nil_iff. intros s Hs. apply andb_false_iff. left.
  apply String.eqb_neq. intros Heq. rewrite Forall_forall in Hsound.
  destruct (Hsound s (proj2 (list_elem_of_In _ _) Hs)) as (_ & c & Hc & _).
  rewrite Heq in Hc. apply getBy_Some in Hc as [Hin <-].
  apply Hfresh. now apply List.in_map.
Qed.

(** X25: A car just created, in a well-formed store and under an id no car
    had, is its creator's alone and empty: the creator opens it with
    [getCar] and finds it in [getUserCars], every other user is denied it,
    it has no expense, and the loan queries answer [null] for it. *)
Theorem X25_a_new_car_is_private_and_empty
    (db db' : Store.Db) (auth : option Id) (now : Z) (newId id : Id)
    (make model : string) (trim : option string) (year : Q) (nickname : option string) :
  wellFormed db ->
  ~ In newId (List.map Store.car_id (Store.cars db)) ->
  Store.createCar db auth now newId make model trim year nickname = inr (db', id) ->
  id = newId
  /\ exists u c,
       auth = Some u
       /\ Store.getCar db' auth id = inr c
       /\ ownerId (Store.loan c) = u
       /\ Store.basic c = Store.mkBasic make model trim year nickname None None
       /\ (exists l, Store.getUserCars db' auth = inr l
                     /\ In (Store.mkListed c false Store.owner) l)
       /\ (forall who, who <> u ->
             Store.getCar db' (Some who) id = inl (Store.Error "Access denied"))
       /\ (exists s, Store.getExpenseSummary db' auth id = inr s
                     /\ Store.expenseCount s = 0%nat
                     /\ Store.categoryTotals s = ∅
                     /\ (Store.totalExpenses s == 0)%Q)
       /\ (forall at_,
             getNextLoanPayment (Store.ctxOf db' auth at_) id = inr None
             /\ getLoanDetails (Store.ctxOf db' auth at_) id = inr None).
Proof.
  intros Hwf Hfresh H. unfold Store.createCar in H.
  destruct auth as [u|]; [|discriminate]. cbn [Store.requireUser Store.andThen] in H.
  injection H as <- <-. split; [reflexivity|].
  set (c := Store.mkCarDoc _ _ _ _ _ _ _ _ _ _).
  set (db' := Store.setCars db (Store.cars db ++ [c])).
  assert (Hget : Store.getBy Store.car_id (Store.cars db') newId = Some c).
  { cbn [db' Store.cars Store.setCars]. rewrite getBy_app.
    apply getBy_None in Hfresh. rewrite Hfresh. unfold Store.getBy. cbn.
    now rewrite String.eqb_refl. }
  assert (Hacc : Store.carWithAccess db' (Some u) newId = inr (u, c)).
  { unfold Store.carWithAccess, Store.requireCar, Store.requireAccess.
    cbn [Store.requireUser Store.andThen]. rewrite Hget. cbn [Store.andThen].
    cbn [c Store.loan ownerId]. now rewrite String.eqb_refl. }
  exists u, c. split; [reflexivity|]. split; [now apply getCar_access with u|].
  split; [reflexivity|]. split; [reflexivity|]. split; [|split; [|split]].
  - destruct (getUserCars_listed db' u) as (l & Hl & _). exists l. split; [exact Hl|].
    apply (getUserCars_owned db' u l c Hl). unfold Store.carsByOwnerActive.
    apply List.filter_In. split.
    + cbn [db' Store.cars Store.setCars]. apply List.in_or_app. right. now left.
    + cbn [c Store.loan ownerId Store.archive Store.notArchived Store.isArchived].
      now rewrite String.eqb_refl.
  - intros who Hwho. unfold Store.getCar, Store.carWithAccess, Store.requireCar,
      Store.requireAccess. cbn [Store.requireUser Store.andThen]. rewrite Hget.
    cbn [Store.andThen]. cbn [c Store.loan ownerId].
    assert (String.eqb u who = false) as -> by (apply String.eqb_neq; congruence).
    change (Store.sharesByCarUser db' newId who) with (Store.sharesByCarUser db newId who).
    now rewrite (no_share_of_fresh_car db newId who Hwf Hfresh).
  - unfold Store.getExpenseSummary. rewrite Hacc. cbn [Store.andThen].
    change (Store.expensesByCar db' newId) with (Store.expensesByCar db newId).
    rewrite (no_expense_of_fresh_car db newId Hwf Hfresh).
    eexists. split; [reflexivity|]. cbn. repeat split.
  - intros at_. unfold getNextLoanPayment, getLoanDetails.
    rewrite fetchCar_ctxOf, Hacc. split; reflexivity.
Qed.

(** ** Buyer accessories *)

Lemma getCar_inr (db : Store.Db) (auth : option Id) (car : Id) (c : Store.CarDoc) :
  Store.getCar db auth car = inr c ->
  exists u, Store.carWithAccess db auth car = inr (u, c).
Proof.
  unfold Store.getCar. destruct (Store.carWithAccess db auth car) as [?|[u c']];
    cbn; [discriminate|]. intros [= ->]. now exists u.
Qed.

Lemma asIndex_whole (i : nat) : Store.asIndex (inject_Z (Z.of_nat i)) = Some i.
Proof.
  unfold Store.asIndex. rewrite Qfloor_Z.
  assert (Qeq_bool (inject_Z (Z.of_nat i)) (inject_Z (Z.of_nat i)) = true) as ->
    by (apply Qeq_bool_iff; reflexivity).
  now rewrite Nat2Z.id.
Qed.

Lemma invalidIndex_true (index : Q) (len : nat) :
  Store.invalidIndex index len = true
  <-> (index < 0 \/ inject_Z (Z.of_nat len) <= index)%Q.
Proof.
  unfold Store.invalidIndex. now rewrite orb_true_iff, Qlt_bool_iff, Qle_bool_iff.
Qed.

Lemma invalidIndex_whole (i len : nat) :
  Store.invalidIndex (inject_Z (Z.of_nat i)) len = false <-> (i < len)%nat.
Proof.
  destruct (Store.invalidIndex _ _) eqn:E.
  - apply invalidIndex_true in E. split; [discriminate|]. intros Hlt. exfalso.
    destruct E as [E|E].
    + change 0%Q with (inject_Z 0) in E. rewrite <- Zlt_Qlt in E. lia.
    + rewrite <- Zle_Qle in E. lia.
  - split; [|reflexivity]. intros _.
    destruct (Nat.lt_ge_cases i len) as [Hlt|Hge]; [exact Hlt|].
    assert (Store.invalidIndex (inject_Z (Z.of_nat i)) len = true) as Ht.
    { apply invalidIndex_true. right. rewrite <- Zle_Qle. lia. }
    congruence.
Qed.

(** X26: Buyer accessories are addressed by their place in the list: with
    a place outside the list, below zero or at or beyond its length,
    [updateBuyerAccessory] and [removeBuyerAccessory] throw
    [Invalid accessory index]; with a whole number inside it they
    succeed. *)
Theorem X26_accessory_calls_succeed_within_the_list_only
    (db : Store.Db) (auth : option Id) (now : Z) (car : Id) (c : Store.CarDoc)
    (name : string) (price : Q) (dateAdded : Z) :
  Store.getCar db auth car = inr c ->
  (forall index : Q,
     (index < 0 \/ inject_Z (Z.of_nat (length (Store.accessoriesOf c))) <= index)%Q ->
     Store.updateBuyerAccessory db auth now car index name price dateAdded
     = inl (Store.Error "Invalid accessory index")
     /\ Store.removeBuyerAccessory db auth now car index
        = inl (Store.Error "Invalid accessory index"))
  /\ (forall i : nat,
        (i < length (Store.accessoriesOf c))%nat ->
        (exists db', Store.updateBuyerAccessory db auth now car (inject_Z (Z.of_nat i))
                                                name price dateAdded = inr db')
        /\ (exists db', Store.removeBuyerAccessory db auth now car (inject_Z (Z.of_nat i))
                        = inr db')).
Proof.
  intros H. apply getCar_inr in H as (u & Hacc). split.
  - intros index Hout. apply invalidIndex_true in Hout.
    unfold Store.updateBuyerAccessory, Store.removeBuyerAccessory.
    rewrite Hacc. cbn [Store.andThen]. now rewrite Hout.
  - intros i Hi. pose proof (proj2 (invalidIndex_whole i _) Hi) as Hin.
    destruct (lookup_lt_is_Some_2 (Store.accessoriesOf c) i Hi) as (a & Ha).
    unfold Store.updateBuyerAccessory, Store.removeBuyerAccessory.
    rewrite Hacc. cbn [Store.andThen]. rewrite Hin, asIndex_whole, Ha. split.
    + destruct (Store.latestFirst _); eexists; reflexivity.
    + destruct (Store.latestFirst _); eexists; reflexivity.
Qed.

Lemma addBuyerAccessory_inr (db db' : Store.Db) (auth : option Id) (now : Z)
    (newId car : Id) (name : string) (price : Q) (dateAdded : Z) :
  Store.addBuyerAccessory db auth now newId car name price dateAdded = inr db' ->
  exists u c,
    Store.carWithAccess db auth car = inr (u, c)
    /\ db' = Store.setExpenses
               (Store.patchCar db car (fun x =>
                  Store.withAccessories x
                    (Store.accessoriesOf c ++ [Store.mkAccessory name price dateAdded]) now))
               (Store.expenses db
                ++ [Store.mkExpenseDoc
                      (mkExpense newId car accessories price dateAdded None None)
                      u (Store.accessoryDescription name) None None None None None now]).
Proof.
  unfold Store.addBuyerAccessory. intros H.
  destruct (Store.carWithAccess db auth car) as [?|[u c]]; [discriminate|].
  cbn [Store.andThen] in H. injection H as <-. now exists u, c.
Qed.

(** X27: [addBuyerAccessory] puts the accessory at the end of the car's list
    and records its price as an expense of the car in the category
    [accessories], dated as the accessory: the summary of the car counts one
    more expense, its entry [accessories] is higher by the price, and in its
    total the price is added to the amounts recorded before, and the down
    payments to that, so that the total is not lower than it was when the
    price is not negative. Nothing else of the car changes but the time of
    update. *)
Theorem X27_an_accessory_is_listed_and_recorded_as_an_expense
    (db db' : Store.Db) (auth : option Id) (now : Z) (newId car : Id)
    (name : string) (price : Q) (dateAdded : Z) :
  Store.addBuyerAccessory db auth now newId car name price dateAdded = inr db' ->
  exists c c' e,
    Store.getCar db auth car = inr c
    /\ Store.getCar db' auth car = inr c'
    /\ Store.accessoriesOf c'
       = Store.accessoriesOf c ++ [Store.mkAccessory name price dateAdded]
    /\ ownerPart c' = ownerPart c
    /\ Store.basic c' = Store.basic c
    /\ Store.expenses db' = Store.expenses db ++ [e]
    /\ Store.base e = mkExpense newId car accessories price dateAdded None None
    /\ Store.description e = Store.accessoryDescription name
    /\ exists s s',
         Store.getExpenseSummary db auth car = inr s
         /\ Store.getExpenseSummary db' auth car = inr s'
         /\ Store.expenseCount s' = S (Store.expenseCount s)
         /\ Store.totalExpenses s
            = (Store.sumAmounts (Store.expensesByCar db car)
               + Store.downPaymentsTotalOf c)%Q
         /\ Store.totalExpenses s'
            = (Store.sumAmounts (Store.expensesByCar db car) + price
               + Store.downPaymentsTotalOf c)%Q
         /\ ((0 <= price)%Q -> (Store.totalExpenses s <= Store.totalExpenses s')%Q)
         /\ Store.categoryTotals s' !! "accessories"
            = Some (orZero (Store.categoryTotals s !! "accessories") + price)%Q.
Proof.
  intros H. apply addBuyerAccessory_inr in H as (u & c & Hacc & ->).
  set (f := fun x => Store.withAccessories x _ now).
  set (doc := Store.mkExpenseDoc _ _ _ _ _ _ _ _ _).
  assert (Hacc' : Store.carWithAccess
                    (Store.setExpenses (Store.patchCar db car f) (Store.expenses db ++ [doc]))
                    auth car = inr (u, f c)).
  { rewrite carWithAccess_setExpenses, carWithAccess_patchCar, Hacc by reflexivity.
    now rewrite String.eqb_refl. }
  exists c, (f c), doc. split; [now apply getCar_access with u|].
  split; [now apply getCar_access with u|]. do 6 (split; [reflexivity|]).
  unfold Store.getExpenseSummary. rewrite Hacc, Hacc'. cbn [Store.andThen].
  eexists _, _. split; [reflexivity|]. split; [reflexivity|].
  cbn [Store.totalExpenses Store.expenseCount Store.categoryTotals].
  change (Store.expensesByCar (Store.setExpenses (Store.patchCar db car f)
                                 (Store.expenses db ++ [doc])) car)
    with (Store.expensesByCar (Store.setExpenses db (Store.expenses db ++ [doc])) car).
  rewrite expensesByCar_snoc. cbn [doc Store.base carId]. rewrite String.eqb_refl.
  rewrite sumAmounts_snoc, List.fold_left_app, List.length_app.
  cbn [List.fold_left length Store.base amount].
  change (Store.downPaymentsTotalOf (f c)) with (Store.downPaymentsTotalOf c).
  split; [lia|]. split; [reflexivity|]. split; [reflexivity|].
  split; [cbn [doc Store.base amount]; intros; lra|].
  unfold Store.addToCategory. cbn [doc Store.base category amount Store.categoryName].
  destruct (Qlt_bool 0 (Store.downPaymentsTotalOf c)).
  - assert (Hne : "down_payments" <> "accessories") by discriminate.
    rewrite !(lookup_insert_ne _ _ _ _ Hne). now rewrite lookup_insert_eq.
  - now rewrite lookup_insert_eq.
Qed.

Lemma deleteBy_perm {A : Type} (idOf : A -> Id) (t : list A) (d : A) :
  NoDup (List.map idOf t) -> In d t ->
  Permutation t (d :: Store.deleteBy idOf (idOf d) t).
Proof.
  induction t as [|x t IH]; intros Hnd Hin; [destruct Hin|].
  cbn [List.map] in Hnd. apply NoDup_cons in Hnd as [Hx Hnd]. cbn.
  destruct (String.eqb_spec (idOf x) (idOf d)) as [E|E].
  - destruct Hin as [->|Hin]; [reflexivity|].
    exfalso. apply Hx. rewrite E. apply list_elem_of_In. now apply List.in_map.
  - destruct Hin as [->|Hin]; [congruence|].
    rewrite (IH Hnd Hin) at 1. apply perm_swap.
Qed.

(** The expense the two calls pick for an accessory: one recorded for the
    car under the name of the accessory, of the latest date there is. *)
Lemma latestFirst_head (db : Store.Db) (car : Id) (name : string)
    (e : Store.ExpenseDoc) (rest : list Store.ExpenseDoc) :
  Store.latestFirst (Store.accessoryExpenses db car name) = e :: rest ->
  In e (Store.accessoryExpenses db car name)
  /\ forall e', In e' (Store.accessoryExpenses db car name) ->
                Store.expenseDate e' <= Store.expenseDate e.
Proof.
  unfold Store.latestFirst. intros H.
  apply sortOn_head in H as (Hin & Hmin & _). split; [exact Hin|].
  intros e' He'. specialize (Hmin e' He'). cbn in Hmin. lia.
Qed.

Lemma latestFirst_nil (l : list Store.ExpenseDoc) : Store.latestFirst l = [] -> l = [].
Proof.
  unfold Store.latestFirst. intros H. apply Permutation_nil. rewrite <- H.
  symmetry. apply sortOn_perm.
Qed.

(** X28: [removeBuyerAccessory] at a place of the list takes that accessory
    out and leaves the others in their order. Of the expenses it deletes at
    most one: an expense of the car in [accessories] recorded under the
    name of the accessory removed, of the latest date among those; when
    there is none the expenses stay as they are. *)
Theorem X28_removing_an_accessory_removes_its_latest_expense
    (db : Store.Db) (auth : option Id) (now : Z) (car : Id) (c : Store.CarDoc)
    (i : nat) (a : Store.Accessory) :
  distinctIds db ->
  Store.getCar db auth car = inr c ->
  Store.accessoriesOf c !! i = Some a ->
  exists db' c',
    Store.removeBuyerAccessory db auth now car (inject_Z (Z.of_nat i)) = inr db'
    /\ Store.getCar db' auth car = inr c'
    /\ Store.accessoriesOf c' = Store.dropAt i (Store.accessoriesOf c)
    /\ S (length (Store.accessoriesOf c')) = length (Store.accessoriesOf c)
    /\ ownerPart c' = ownerPart c
    /\ ((Store.accessoryExpenses db car (Store.acc_name a) = []
         /\ Store.expenses db' = Store.expenses db)
        \/ exists e,
             In e (Store.accessoryExpenses db car (Store.acc_name a))
             /\ (forall e', In e' (Store.accessoryExpenses db car (Store.acc_name a)) ->
                            Store.expenseDate e' <= Store.expenseDate e)
             /\ Permutation (Store.expenses db) (e :: Store.expenses db')).
Proof.
  intros (_ & _ & Hids) H Ha. apply getCar_inr in H as (u & Hacc).
  pose proof (lookup_lt_Some _ _ _ Ha) as Hi.
  unfold Store.removeBuyerAccessory. rewrite Hacc. cbn [Store.andThen].
  rewrite (proj2 (invalidIndex_whole i _) Hi), asIndex_whole, Ha.
  set (f := fun x => Store.withAccessories x _ now).
  change (Store.accessoryExpenses (Store.patchCar db car f) car (Store.acc_name a))
    with (Store.accessoryExpenses db car (Store.acc_name a)).
  assert (Hlen : S (length (Store.dropAt i (Store.accessoriesOf c)))
                 = length (Store.accessoriesOf c)).
  { unfold Store.dropAt. rewrite List.length_app, List.length_firstn, List.length_skipn. lia. }
  assert (Hacc' : forall l, Store.carWithAccess
                    (Store.setExpenses (Store.patchCar db car f) l) auth car
                  = inr (u, f c)).
  { intros l. rewrite carWithAccess_setExpenses, carWithAccess_patchCar, Hacc by reflexivity.
    now rewrite String.eqb_refl. }
  destruct (Store.latestFirst _) as [|e rest] eqn:E.
  - exists (Store.patchCar db car f), (f c). split; [reflexivity|].
    split; [apply getCar_access with u; apply (Hacc' (Store.expenses db))|].
    do 3 (split; [first [reflexivity | exact Hlen]|]).
    left. split; [now apply latestFirst_nil | reflexivity].
  - eexists _, (f c). split; [reflexivity|].
    split; [apply getCar_access with u; apply Hacc'|].
    do 3 (split; [first [reflexivity | exact Hlen]|]).
    right. exists e. apply latestFirst_head in E as [Hin Hmax].
    split; [exact Hin|]. split; [exact Hmax|].
    cbn [Store.expenses Store.setExpenses Store.patchCar Store.setCars].
    apply deleteBy_perm; [exact Hids|].
    now apply accessoryExpenses_In in Hin as [Hin _].
Qed.

(** X29: [updateBuyerAccessory] at a place of the list replaces that
    accessory and no other. Of the expenses it rewrites at most one: the
    expense of the car in [accessories] recorded under the old name, of the
    latest date among those, which takes the new name, price and date; every
    other expense, and the number of expenses, stay as they are. *)
Theorem X29_updating_an_accessory_rewrites_its_latest_expense
    (db : Store.Db) (auth : option Id) (now : Z) (car : Id) (c : Store.CarDoc)
    (i : nat) (a : Store.Accessory) (name : string) (price : Q) (dateAdded : Z) :
  distinctIds db ->
  Store.getCar db auth car = inr c ->
  Store.accessoriesOf c !! i = Some a ->
  exists db' c',
    Store.updateBuyerAccessory db auth now car (inject_Z (Z.of_nat i)) name price dateAdded
    = inr db'
    /\ Store.getCar db' auth car = inr c'
    /\ Store.accessoriesOf c' !! i = Some (Store.mkAccessory name price dateAdded)
    /\ (forall j, j <> i -> Store.accessoriesOf c' !! j = Store.accessoriesOf c !! j)
    /\ length (Store.accessoriesOf c') = length (Store.accessoriesOf c)
    /\ ownerPart c' = ownerPart c
    /\ length (Store.expenses db') = length (Store.expenses db)
    /\ ((Store.accessoryExpenses db car (Store.acc_name a) = []
         /\ Store.expenses db' = Store.expenses db)
        \/ exists e e',
             In e (Store.accessoryExpenses db car (Store.acc_name a))
             /\ (forall x, In x (Store.accessoryExpenses db car (Store.acc_name a)) ->
                           Store.expenseDate x <= Store.expenseDate e)
             /\ Store.getBy Store.expenseId (Store.expenses db') (Store.expenseId e)
                = Some e'
             /\ Store.base e'
                = mkExpense (Store.expenseId e) car accessories price dateAdded
                            (principalAmount (Store.base e)) (interestAmount (Store.base e))
             /\ Store.description e' = Store.accessoryDescription name
             /\ Store.recordedBy e' = Store.recordedBy e
             /\ (forall id, id <> Store.expenseId e ->
                   Store.getBy Store.expenseId (Store.expenses db') id
                   = Store.getBy Store.expenseId (Store.expenses db) id)).
Proof.
  intros (_ & _ & Hids) H Ha. apply getCar_inr in H as (u & Hacc).
  pose proof (lookup_lt_Some _ _ _ Ha) as Hi.
  unfold Store.updateBuyerAccessory. rewrite Hacc. cbn [Store.andThen].
  rewrite (proj2 (invalidIndex_whole i _) Hi), asIndex_whole, Ha.
  set (f := fun x => Store.withAccessories x _ now).
  set (g := fun e : Store.ExpenseDoc => Store.mkExpenseDoc _ _ _ _ _ _ _ _ _).
  change (Store.accessoryExpenses (Store.patchCar db car f) car (Store.acc_name a))
    with (Store.accessoryExpenses db car (Store.acc_name a)).
  assert (Hacc' : forall l, Store.carWithAccess
                    (Store.setExpenses (Store.patchCar db car f) l) auth car
                  = inr (u, f c)).
  { intros l. rewrite carWithAccess_setExpenses, carWithAccess_patchCar, Hacc by reflexivity.
    now rewrite String.eqb_refl. }
  assert (Hat : Store.accessoriesOf (f c) !! i = Some (Store.mkAccessory name price dateAdded)).
  { cbn [f Store.accessoriesOf Store.withAccessories Store.buyerAccessories].
    now apply list_lookup_insert_eq. }
  assert (Hother : forall j, j <> i ->
            Store.accessoriesOf (f c) !! j = Store.accessoriesOf c !! j).
  { intros j Hj. cbn [f Store.accessoriesOf Store.withAccessories Store.buyerAccessories].
    apply list_lookup_insert_ne. congruence. }
  assert (Hlen : length (Store.accessoriesOf (f c)) = length (Store.accessoriesOf c)).
  { cbn [f Store.accessoriesOf Store.withAccessories Store.buyerAccessories].
    apply length_insert. }
  destruct (Store.latestFirst _) as [|e rest] eqn:E.
  - exists (Store.patchCar db car f), (f c). split; [reflexivity|].
    split; [apply getCar_access with u; apply (Hacc' (Store.expenses db))|].
    do 5 (split; [first [assumption | reflexivity]|]).
    left. split; [now apply latestFirst_nil | reflexivity].
  - eexists _, (f c). split; [reflexivity|].
    split; [apply getCar_access with u; apply Hacc'|].
    do 4 (split; [first [assumption | reflexivity]|]).
    cbn [Store.expenses Store.setExpenses Store.patchCar Store.setCars].
    split; [apply patchBy_length|].
    right. apply latestFirst_head in E as [Hin Hmax].
    pose proof (proj1 (accessoryExpenses_In _ _ _ _) Hin) as (He & Hcar & Hcat & _).
    exists e, (g e). split; [exact Hin|]. split; [exact Hmax|].
    assert (Hg : forall d, Store.expenseId (g d) = Store.expenseId d) by reflexivity.
    split.
    { rewrite getBy_patchBy by exact Hg. rewrite String.eqb_refl.
      now rewrite (getBy_unique Store.expenseId _ _ Hids He). }
    split; [cbn [g Store.base]; now rewrite Hcar, Hcat|].
    split; [reflexivity|]. split; [reflexivity|].
    intros id Hid. rewrite getBy_patchBy by exact Hg.
    assert (String.eqb (Store.expenseId e) id = false) as ->
      by (apply String.eqb_neq; congruence).
    reflexivity.
Qed.

(** ** Updating the loan *)


(** ** The properties at worked inputs *)

Lemma X2_witness :
  let fetched := [Ex.pay (Ex.T0 + Ex.days 31) 100; Ex.pay (Ex.T0 + Ex.days 62) 100] in
  exists d,
    loanDetails StoreEx.carNoInterest fetched (Ex.T0 + Ex.days 70) = Some d
    /\ (LoanDetails.remainingBalance d == 1000)%Q
    /\ LoanDetails.isPaidOff d = false.
Proof.
  cbv zeta.
  assert (H0 : (0 <= 1200)%Q) by (vm_compute; discriminate).
  assert (Hrate : (orZero (interestRate StoreEx.carNoInterest) == 0)%Q) by reflexivity.
  pose proof (X2_zero_rate_balance_is_amount_less_payments StoreEx.carNoInterest
                [Ex.pay (Ex.T0 + Ex.days 31) 100; Ex.pay (Ex.T0 + Ex.days 62) 100]
                (Ex.T0 + Ex.days 70) 1200 100 12 Ex.T0
                eq_refl eq_refl eq_refl eq_refl H0 Hrate) as H.
  cbv zeta in H. destruct H as (_ & _ & d & Hd & Hrem & Hpaid).
  exists d. split; [exact Hd|]. split.
  - rewrite Hrem. vm_compute. reflexivity.
  - rewrite Hpaid. vm_compute. reflexivity.
Defined.

Lemma X3_witness :
  exists r d,
    nextLoanPayment Ex.car0 [Ex.pay (Ex.T0 + Ex.days 31) 400] (Ex.T0 + Ex.days 40)
    = Some (NotPaidOff r)
    /\ loanDetails Ex.car0 [Ex.pay (Ex.T0 + Ex.days 31) 400] (Ex.T0 + Ex.days 40) = Some d
    /\ LoanDetails.isPaidOff d = false
    /\ LoanDetails.nextPaymentDate d = Some (NextLoanPayment.nextDueDate r)
    /\ (NextLoanPayment.remainingBalance r <= LoanDetails.remainingBalance d)%Q.
Proof.
  eexists.
  assert (Hr : nextLoanPayment Ex.car0 [Ex.pay (Ex.T0 + Ex.days 31) 400]
                 (Ex.T0 + Ex.days 40) = Some (NotPaidOff _)) by (vm_compute; reflexivity).
  assert (H0 : (0 <= 20000)%Q) by (vm_compute; discriminate).
  assert (Hrate : (0 <= orZero (interestRate Ex.car0))%Q) by (vm_compute; discriminate).
  destruct (X3_details_agree_with_next_payment Ex.car0 [Ex.pay (Ex.T0 + Ex.days 31) 400]
              (Ex.T0 + Ex.days 40) 20000 400 60 Ex.T0 _
              eq_refl eq_refl eq_refl eq_refl H0 Hrate Hr)
    as (d & Hd & Hpaid & Hdate & _ & Hle).
  exists d. split; [exact Hr|]. split; [exact Hd|]. split; [exact Hpaid|].
  split; [exact Hdate | exact Hle].
Defined.

Lemma X4_witness :
  exists d,
    loanDetails Ex.carOneMonth [Ex.pay (Ex.T0 + Ex.days 31) 400] (Ex.T0 + Ex.days 40)
    = Some d
    /\ LoanDetails.isPaidOff d = false
    /\ nextLoanPayment Ex.carOneMonth [Ex.pay (Ex.T0 + Ex.days 31) 400] (Ex.T0 + Ex.days 40)
       = Some PaidOff
    /\ LoanDetails.nextPaymentDate d = None.
Proof.
  eexists.
  assert (Hd : loanDetails Ex.carOneMonth [Ex.pay (Ex.T0 + Ex.days 31) 400]
                 (Ex.T0 + Ex.days 40) = Some _) by (vm_compute; reflexivity).
  split; [exact Hd|]. split; [vm_compute; reflexivity|].
  assert (Hall : forall k, 1 <= k <= 1 ->
            paidInMonthOf [Ex.pay (Ex.T0 + Ex.days 31) 400] (dueDateOf (newDate Ex.T0) k)).
  { intros k Hk. assert (k = 1) as -> by lia.
    exists (Ex.pay (Ex.T0 + Ex.days 31) 400).
    split; [now left|]. split; vm_compute; reflexivity. }
  destruct (X4_all_months_paid_but_details_not_paid_off Ex.carOneMonth
              [Ex.pay (Ex.T0 + Ex.days 31) 400] (Ex.T0 + Ex.days 40) 20000 400 1 Ex.T0 _
              eq_refl eq_refl eq_refl eq_refl Hall Hd eq_refl) as (Hnext & Hdate & _).
  split; [exact Hnext | exact Hdate].
Defined.

Lemma X5_witness :
  exists r r',
    nextLoanPayment Ex.car12 [Ex.pay (Ex.T0 + Ex.days 26) 400] (Ex.T0 + Ex.days 30)
    = Some (NotPaidOff r)
    /\ nextLoanPayment Ex.car12 Ex.threeMonths (Ex.T0 + Ex.days 90) = Some (NotPaidOff r')
    /\ NextLoanPayment.paymentNumber r <= NextLoanPayment.paymentNumber r'.
Proof.
  eexists. eexists.
  assert (Hr : nextLoanPayment Ex.car12 [Ex.pay (Ex.T0 + Ex.days 26) 400]
                 (Ex.T0 + Ex.days 30) = Some (NotPaidOff _)) by (vm_compute; reflexivity).
  assert (Hr' : nextLoanPayment Ex.car12 Ex.threeMonths (Ex.T0 + Ex.days 90)
                = Some (NotPaidOff _)) by (vm_compute; reflexivity).
  split; [exact Hr|]. split; [exact Hr'|].
  apply (X5_more_payments_never_lower_the_installment Ex.car12
           [Ex.pay (Ex.T0 + Ex.days 26) 400] Ex.threeMonths
           (Ex.T0 + Ex.days 30) (Ex.T0 + Ex.days 90) 20000 400 12 Ex.T0 _ _
           eq_refl eq_refl eq_refl eq_refl); [|exact Hr | exact Hr'].
  intros payment [<-|[]]. right. now left.
Defined.

Lemma X6_witness :
  exists r,
    nextLoanPayment Ex.car0
      [Ex.pay (Ex.T0 + Ex.days 35) 150; Ex.pay (Ex.T0 + Ex.days 31) 400]
      (Ex.T0 + Ex.days 40) = Some (NotPaidOff r)
    /\ (0 <= NextLoanPayment.amountDue r)%Q
    /\ (NextLoanPayment.amountDue r <= roundCents 400)%Q
    /\ (NextLoanPayment.amountDue r <= NextLoanPayment.remainingBalance r)%Q.
Proof.
  eexists.
  assert (Hr : nextLoanPayment Ex.car0
                 [Ex.pay (Ex.T0 + Ex.days 35) 150; Ex.pay (Ex.T0 + Ex.days 31) 400]
                 (Ex.T0 + Ex.days 40) = Some (NotPaidOff _)) by (vm_compute; reflexivity).
  split; [exact Hr|].
  destruct (X6_amount_due_is_bounded Ex.car0
              [Ex.pay (Ex.T0 + Ex.days 35) 150; Ex.pay (Ex.T0 + Ex.days 31) 400]
              (Ex.T0 + Ex.days 40) 20000 400 60 Ex.T0 _
              eq_refl eq_refl eq_refl eq_refl Hr) as [Hpos Hle].
  split; [exact Hpos|].
  destruct Hle as (Hmp & Hrb & _).
  - intros payment [<-|[<-|[]]]; vm_compute; discriminate.
  - vm_compute. discriminate.
  - split; [exact Hmp | exact Hrb].
Defined.

Lemma X7_witness :
  exists d,
    loanDetails Ex.car0 Ex.threeMonths (Ex.T0 + Ex.days 90) = Some d
    /\ List.map (fun entry => (LoanDetails.date entry, LoanDetails.amount entry))
                (LoanDetails.payments d)
       = [(Ex.T0 + Ex.days 26, roundCents 400); (Ex.T0 + Ex.days 65, roundCents 400);
          (Ex.T0 + Ex.days 81, roundCents 400)]
    /\ LoanDetails.totalPaid d = roundCents (sumOf amount Ex.threeMonths).
Proof.
  destruct (X7_details_history_and_totals Ex.car0 Ex.threeMonths (Ex.T0 + Ex.days 90)
              20000 400 60 eq_refl eq_refl eq_refl)
    as (d & ordered & Hd & _ & Hsorted & Hstable & Hpay & Htot & _).
  assert (E : ordered = sortByDate Ex.threeMonths).
  { apply sorted_same_dates_eq; [exact Hsorted | apply sortByDate_sorted|].
    intros t. rewrite sortByDate_stable. apply Hstable. }
  exists d. split; [exact Hd|]. split; [|exact Htot].
  rewrite Hpay, E. reflexivity.
Defined.

Lemma X8_witness :
  exists s,
    Store.getExpenseSummary StoreEx.db7 (Some "u2") "c1" = inr s
    /\ Store.expenseCount s = 3%nat
    /\ Store.categoryTotals s !! "fuel" = Some 40%Q
    /\ Store.categoryTotals s !! "inspection" = None
    /\ Store.categoryTotals s !! "down_payments" = Some 2000%Q
    /\ (Store.totalExpenses s == 2740)%Q
    /\ forall key q, Store.categoryTotals s !! key = Some q ->
         (0 <= q <= Store.totalExpenses s)%Q.
Proof.
  eexists.
  assert (Hs : Store.getExpenseSummary StoreEx.db7 (Some "u2") "c1" = inr _)
    by (vm_compute; reflexivity).
  split; [exact Hs|].
  destruct (X8_summary_is_the_sum_by_category StoreEx.db7 (Some "u2") "c1" _ Hs)
    as (c & Hc & Hk & Hdown & _ & Hcount & Htotal & Hbound).
  split; [rewrite Hcount; reflexivity|].
  split; [exact (Hk fuel)|]. split; [exact (Hk inspection)|].
  vm_compute in Hc. injection Hc as <-.
  split; [exact Hdown|]. split; [rewrite Htotal; vm_compute; reflexivity|].
  apply Hbound.
  - intros e [<-|[<-|[<-|[]]]]; vm_compute; discriminate.
  - vm_compute. discriminate.
Defined.

Lemma X9_witness :
  exists db' s s',
    Store.addExpense StoreEx.db7 (Some "u2") (Ex.T0 + Ex.days 40) "e4" "c1" fuel 25
                     "Fuel" (Ex.T0 + Ex.days 40) None None None None = inr (db', "e4")
    /\ Store.getExpenseSummary StoreEx.db7 (Some "u2") "c1" = inr s
    /\ Store.getExpenseSummary db' (Some "u2") "c1" = inr s'
    /\ (Store.totalExpenses s == 2740)%Q
    /\ (Store.totalExpenses s' == 2765)%Q
    /\ (Store.totalExpenses s <= Store.totalExpenses s')%Q
    /\ Store.expenseCount s' = S (Store.expenseCount s).
Proof.
  eexists.
  assert (H : Store.addExpense StoreEx.db7 (Some "u2") (Ex.T0 + Ex.days 40) "e4" "c1" fuel 25
                "Fuel" (Ex.T0 + Ex.days 40) None None None None = inr (_, "e4"))
    by (vm_compute; reflexivity).
  destruct (X9_recorded_expense_enters_the_summary _ _ _ _ _ _ _ _ _ _ _ _ _ _ _ H)
    as (_ & (s & s' & c & Hs & Hs' & Hc & Htot & Htot' & Hup & _ & Hcount & _) & _).
  exists s, s'. split; [exact H|]. split; [exact Hs|]. split; [exact Hs'|].
  vm_compute in Hc. injection Hc as <-.
  split; [rewrite Htot; vm_compute; reflexivity|].
  split; [rewrite Htot'; vm_compute; reflexivity|].
  split; [apply Hup; discriminate | exact Hcount].
Defined.

Lemma X10_witness :
  exists db',
    Store.addExpense StoreEx.db7 (Some "u2") (Ex.T0 + Ex.days 40) "e4" "c1" fuel 25
                     "Fuel" (Ex.T0 + Ex.days 40) None None None None = inr (db', "e4")
    /\ Store.deleteExpense db' (Some "u2") "e4" = inr StoreEx.db7.
Proof.
  eexists.
  assert (H : Store.addExpense StoreEx.db7 (Some "u2") (Ex.T0 + Ex.days 40) "e4" "c1" fuel 25
                "Fuel" (Ex.T0 + Ex.days 40) None None None None = inr (_, "e4"))
    by (vm_compute; reflexivity).
  split; [exact H|].
  apply (X10_deleting_the_recorded_expense_restores_the_store _ _ _ _ _ _ _ _ _ _ _ _ _ _ _)
    with (2 := H).
  cbn. intuition discriminate.
Defined.

Lemma X11_witness :
  exists l,
    Store.getCarExpenses StoreEx.db7 (Some "u1") "c1" = inr l
    /\ List.map Store.expenseId l = ["e2"; "e3"; "e1"]
    /\ StronglySorted (fun a b => Store.expenseDate b <= Store.expenseDate a) l.
Proof.
  eexists.
  assert (H : Store.getCarExpenses StoreEx.db7 (Some "u1") "c1" = inr _)
    by (vm_compute; reflexivity).
  split; [exact H|]. split; [reflexivity|].
  apply (X11_car_expenses_latest_first _ _ _ _ H).
Defined.

Lemma X12_witness :
  exists db',
    Store.addExpense StoreEx.db7 (Some "u2") (Ex.T0 + Ex.days 40) "e4" "c1" fuel 25
                     "Fuel" (Ex.T0 + Ex.days 40) None None None None = inr (db', "e4")
    /\ getLoanDetails (Store.ctxOf db' (Some "u1") (Ex.T0 + Ex.days 41)) "c1"
       = getLoanDetails (Store.ctxOf StoreEx.db7 (Some "u1") (Ex.T0 + Ex.days 41)) "c1".
Proof.
  eexists.
  assert (H : Store.addExpense StoreEx.db7 (Some "u2") (Ex.T0 + Ex.days 40) "e4" "c1" fuel 25
                "Fuel" (Ex.T0 + Ex.days 40) None None None None = inr (_, "e4"))
    by (vm_compute; reflexivity).
  split; [exact H|].
  apply (proj1 (X12_only_loan_payments_of_the_car_reach_the_loan_queries
                  _ _ _ _ _ _ _ _ _ _ _ _ _ _ _ H)).
  left. discriminate.
Defined.

Lemma X13_witness :
  exists t l,
    Store.getTotalUserExpenses StoreEx.db7 (Some "u2") = inr t
    /\ Store.getUserCars StoreEx.db7 (Some "u2") = inr l
    /\ Store.carCount t = length l
    /\ (Store.userTotalExpenses t == 740 + 2000)%Q
    /\ forall x s, In x l ->
         Store.getExpenseSummary StoreEx.db7 (Some "u2") (Store.car_id (Store.listed x))
         = inr s ->
         (Store.totalExpenses s <= Store.userTotalExpenses t)%Q.
Proof.
  eexists.
  assert (H : Store.getTotalUserExpenses StoreEx.db7 (Some "u2") = inr _)
    by (vm_compute; reflexivity).
  destruct (X13_user_total_adds_expenses_and_down_payments_apart _ _ _ db7_wellFormed H)
    as (l & Hl & Hcount & _ & Htotal & Hbound).
  exists l. split; [exact H|]. split; [exact Hl|]. split; [exact Hcount|].
  assert (Hl' : Store.getUserCars StoreEx.db7 (Some "u2") = inr l) by exact Hl.
  vm_compute in Hl'. injection Hl' as <-.
  split; [vm_compute; reflexivity|].
  apply Hbound. intros x [<-|[]]. split; [vm_compute; discriminate|].
  intros e [<-|[<-|[<-|[]]]]; vm_compute; discriminate.
Defined.

Lemma X14_witness :
  exists db' c',
    Store.run StoreEx.db7 (Some "u1") (Ex.T0 + Ex.days 50) "n8" (Store.ArchiveCar "c1" "sold")
    = inr db'
    /\ Store.getBy Store.car_id (Store.cars db') "c1" = Some c'
    /\ ownerId (Store.loan c') = "u1".
Proof.
  eexists.
  assert (H : Store.run StoreEx.db7 (Some "u1") (Ex.T0 + Ex.days 50) "n8"
                (Store.ArchiveCar "c1" "sold") = inr _) by (vm_compute; reflexivity).
  assert (Hc : Store.getBy Store.car_id (Store.cars StoreEx.db7) "c1" = Some _)
    by (vm_compute; reflexivity).
  destruct (X14_cars_are_never_removed_nor_change_owner _ _ _ _ _ _ _ _ H Hc)
    as (c' & Hc' & _ & Ho & _).
  exists c'. split; [exact H|]. split; [exact Hc' | exact Ho].
Defined.

Lemma X15_witness :
  wellFormed StoreEx.db7
  /\ getLoanDetails (Store.ctxOf StoreEx.db7 (Some "u2") (Ex.T0 + Ex.days 40)) "c1"
     <> inl NotUnique.
Proof.
  destruct (X15_reachable_stores_are_well_formed StoreEx.db7 db7_reachable) as [Hwf Hq].
  split; [exact Hwf|]. apply (Hq (Some "u2") (Ex.T0 + Ex.days 40) "c1").
Defined.

Lemma X16_witness :
  exists c l a,
    Store.getBy Store.car_id (Store.cars StoreEx.db7) "c1" = Some c
    /\ Store.getUserCars StoreEx.db7 (Some "u1") = inr l
    /\ Store.getArchivedCars StoreEx.db7 (Some "u1") = inr a
    /\ ((In (Store.mkListed c false Store.owner) l /\ ~ In c a)
        \/ (~ In (Store.mkListed c false Store.owner) l /\ In c a)).
Proof.
  eexists.
  assert (Hc : Store.getBy Store.car_id (Store.cars StoreEx.db7) "c1" = Some _)
    by (vm_compute; reflexivity).
  destruct (X16_an_owned_car_is_listed_or_archived StoreEx.db7 "u1" _ db7_wellFormed
              (proj1 (getBy_Some _ _ _ _ Hc)) eq_refl) as (l & a & Hl & Ha & H).
  exists l, a. split; [exact Hc|]. split; [exact Hl|]. split; [exact Ha | exact H].
Defined.

Lemma X17_witness :
  exists l x,
    Store.getUserCars StoreEx.db7 (Some "u2") = inr l
    /\ In x l
    /\ Store.getCar StoreEx.db7 (Some "u2") "c1" = inr (Store.listed x)
    /\ Store.shareRole x = Store.shared.
Proof.
  eexists. eexists.
  assert (Hl : Store.getUserCars StoreEx.db7 (Some "u2") = inr [_])
    by (vm_compute; reflexivity).
  split; [exact Hl|]. split; [now left|].
  destruct (X17_listed_cars_can_be_opened StoreEx.db7 (Some "u2") _ _ db7_wellFormed Hl
              (or_introl eq_refl)) as (Hget & _ & Hrole & _).
  split; [exact Hget | exact Hrole].
Defined.

Lemma X18_witness :
  exists db' c c',
    Store.run StoreEx.db7 (Some "u2") (Ex.T0 + Ex.days 50) "n8"
      (Store.UpdateCarBasicInfo "c1" "Honda" "Civic" (Some "EX") 2020 None None (Some "blue"))
    = inr db'
    /\ Store.getBy Store.car_id (Store.cars StoreEx.db7) "c1" = Some c
    /\ Store.getBy Store.car_id (Store.cars db') "c1" = Some c'
    /\ Store.loan c' = Store.loan c
    /\ Store.archive c' = Store.archive c
    /\ Store.sharesByCar db' "c1" = Store.sharesByCar StoreEx.db7 "c1".
Proof.
  eexists. eexists.
  assert (H : Store.run StoreEx.db7 (Some "u2") (Ex.T0 + Ex.days 50) "n8"
                (Store.UpdateCarBasicInfo "c1" "Honda" "Civic" (Some "EX") 2020 None None
                                          (Some "blue")) = inr _)
    by (vm_compute; reflexivity).
  assert (Hc : Store.getBy Store.car_id (Store.cars StoreEx.db7) "c1" = Some _)
    by (vm_compute; reflexivity).
  assert (Hwho : Some "u2" <> Some "u1") by discriminate.
  destruct (X18_only_the_owner_changes_loan_purchase_archive_and_shares
              _ _ _ _ _ _ _ _ db7_distinctIds Hc Hwho H)
    as ((c' & Hc' & Hloan & _ & _ & _ & Harch) & Hshares).
  exists c'. split; [exact H|]. split; [exact Hc|]. split; [exact Hc'|].
  split; [exact Hloan|]. split; [exact Harch | exact Hshares].
Defined.

Lemma X19_witness :
  exists db' c,
    Store.getCar StoreEx.db7 (Some "u3") "c1" = inl (Store.Error "Access denied")
    /\ Store.run StoreEx.db7 (Some "u3") (Ex.T0 + Ex.days 50) "c2"
         (Store.CreateCar "Mazda" "3" None 2019 None) = inr db'
    /\ Store.getBy Store.car_id (Store.cars StoreEx.db7) "c1" = Some c
    /\ Store.getBy Store.car_id (Store.cars db') "c1" = Some c
    /\ Store.expensesByCar db' "c1" = Store.expensesByCar StoreEx.db7 "c1".
Proof.
  eexists. eexists.
  assert (Hno : Store.getCar StoreEx.db7 (Some "u3") "c1" = inl (Store.Error "Access denied"))
    by (vm_compute; reflexivity).
  assert (H : Store.run StoreEx.db7 (Some "u3") (Ex.T0 + Ex.days 50) "c2"
                (Store.CreateCar "Mazda" "3" None 2019 None) = inr _)
    by (vm_compute; reflexivity).
  assert (Hc : Store.getBy Store.car_id (Store.cars StoreEx.db7) "c1" = Some _)
    by (vm_compute; reflexivity).
  destruct (X19_without_access_nothing_of_a_car_changes
              _ _ _ _ _ _ _ _ _ db7_distinctIds Hc Hno H) as (Hc' & _ & He).
  split; [exact Hno|]. split; [exact H|]. split; [exact Hc|]. split; [exact Hc' | exact He].
Defined.

Lemma X20_witness :
  exists db' c,
    Store.shareCar StoreEx.db7 (Some "u1") (Ex.T0 + Ex.days 50) "s2" "c1" "carol@example.com"
    = inr db'
    /\ Store.getCar StoreEx.db7 (Some "u3") "c1" = inl (Store.Error "Access denied")
    /\ Store.getCar db' (Some "u3") "c1" = inr c
    /\ Store.getCar StoreEx.db7 (Some "u1") "c1" = inr c.
Proof.
  eexists.
  assert (H : Store.shareCar StoreEx.db7 (Some "u1") (Ex.T0 + Ex.days 50) "s2" "c1"
                "carol@example.com" = inr _) by (vm_compute; reflexivity).
  destruct (X20_sharing_gives_access _ _ _ _ _ _ _ H)
    as (target & c & Ht & Hc & _ & Hc' & _).
  exists c. split; [exact H|]. split; [vm_compute; reflexivity|].
  vm_compute in Ht. injection Ht as <-. split; [exact Hc' | exact Hc].
Defined.

Lemma X21_witness :
  exists db',
    Store.unshareCar StoreEx.db7 (Some "u1") "c1" "u2" = inr db'
    /\ Store.getCar db' (Some "u2") "c1" = inl (Store.Error "Access denied").
Proof.
  eexists.
  assert (H : Store.unshareCar StoreEx.db7 (Some "u1") "c1" "u2" = inr _)
    by (vm_compute; reflexivity).
  split; [exact H|].
  destruct (X21_unsharing_takes_access_away _ _ _ _ _ db7_distinctIds H) as (_ & Hden & _).
  assert (Hc : Store.getBy Store.car_id (Store.cars StoreEx.db7) "c1" = Some _)
    by (vm_compute; reflexivity).
  apply (Hden _ Hc). vm_compute. discriminate.
Defined.

Lemma X22_witness :
  exists db',
    Store.shareCar StoreEx.db7 (Some "u1") (Ex.T0 + Ex.days 50) "s2" "c1" "carol@example.com"
    = inr db'
    /\ Store.unshareCar db' (Some "u1") "c1" "u3" = inr StoreEx.db7.
Proof.
  eexists.
  assert (H : Store.shareCar StoreEx.db7 (Some "u1") (Ex.T0 + Ex.days 50) "s2" "c1"
                "carol@example.com" = inr _) by (vm_compute; reflexivity).
  split; [exact H|].
  apply (X22_unsharing_undoes_sharing StoreEx.db7 _ (Some "u1") (Ex.T0 + Ex.days 50) "s2"
           "c1" "carol@example.com" StoreEx.carol).
  - cbn. intuition discriminate.
  - exact H.
  - vm_compute. reflexivity.
Defined.

Lemma X23_witness :
  exists db' c',
    Store.run StoreEx.db7 (Some "u1") (Ex.T0 + Ex.days 50) "n8"
      (Store.MarkCarAsSold "c1" 15000 42000 (Store.mkBuyerInfo None (Some "Dan") None None))
    = inr db'
    /\ Store.getCar db' (Some "u2") "c1" = inr c'
    /\ Store.archived c' = true
    /\ Store.getUserCars db' (Some "u2") = inr [].
Proof.
  eexists.
  assert (H : Store.run StoreEx.db7 (Some "u1") (Ex.T0 + Ex.days 50) "n8"
                (Store.MarkCarAsSold "c1" 15000 42000
                   (Store.mkBuyerInfo None (Some "Dan") None None)) = inr _)
    by (vm_compute; reflexivity).
  destruct (X23_archiving_hides_the_car_and_keeps_it_readable _ _ _ _ _ _ "c1"
              db7_distinctIds H eq_refl)
    as (c & c' & _ & _ & Hc' & Harch & _ & Hhidden & _).
  exists c'. split; [exact H|].
  assert (Hc2 : Store.getCar _ (Some "u1") "c1" = inr c') by exact Hc'.
  vm_compute in Hc2. injection Hc2 as <-.
  split; [vm_compute; reflexivity|]. split; [reflexivity|].
  vm_compute. reflexivity.
Defined.

Lemma X24_witness :
  exists l c,
    Store.getAvailableCarsForTradeIn StoreEx.db7 (Some "u1") "c9" = inr l
    /\ In c l
    /\ Store.car_id c = "c1"
    /\ Store.archived c = false.
Proof.
  eexists. eexists.
  assert (H : Store.getAvailableCarsForTradeIn StoreEx.db7 (Some "u1") "c9" = inr [_])
    by (vm_compute; reflexivity).
  split; [exact H|]. split; [now left|]. split; [reflexivity|].
  destruct (X24_trade_in_offers_own_listed_cars _ _ _ _ H) as (l0 & _ & _ & Hown).
  apply (Hown _ (or_introl eq_refl)).
Defined.

Lemma X25_witness :
  exists db',
    Store.createCar StoreEx.db7 (Some "u3") (Ex.T0 + Ex.days 50) "c2" "Mazda" "3" None 2019
                    None = inr (db', "c2")
    /\ Store.getCar db' (Some "u1") "c2" = inl (Store.Error "Access denied")
    /\ getLoanDetails (Store.ctxOf db' (Some "u3") (Ex.T0 + Ex.days 51)) "c2" = inr None.
Proof.
  eexists.
  assert (H : Store.createCar StoreEx.db7 (Some "u3") (Ex.T0 + Ex.days 50) "c2" "Mazda" "3"
                None 2019 None = inr (_, "c2")) by (vm_compute; reflexivity).
  split; [exact H|].
  assert (Hfresh : ~ In "c2" (List.map Store.car_id (Store.cars StoreEx.db7)))
    by (cbn; intuition discriminate).
  destruct (X25_a_new_car_is_private_and_empty _ _ _ _ _ _ _ _ _ _ _ db7_wellFormed Hfresh H)
    as (_ & u & c & Hu & _ & _ & _ & _ & Hden & _ & Hloan).
  injection Hu as <-. split.
  - apply Hden. discriminate.
  - apply Hloan.
Defined.

Lemma X26_witness :
  exists c,
    Store.getCar StoreEx.db7 (Some "u2") "c1" = inr c
    /\ Store.removeBuyerAccessory StoreEx.db7 (Some "u2") (Ex.T0 + Ex.days 50) "c1" 1
       = inl (Store.Error "Invalid accessory index")
    /\ exists db', Store.removeBuyerAccessory StoreEx.db7 (Some "u2") (Ex.T0 + Ex.days 50)
                                              "c1" (inject_Z (Z.of_nat 0)) = inr db'.
Proof.
  eexists.
  assert (Hc : Store.getCar StoreEx.db7 (Some "u2") "c1" = inr _) by (vm_compute; reflexivity).
  split; [exact Hc|].
  destruct (X26_accessory_calls_succeed_within_the_list_only StoreEx.db7 (Some "u2")
              (Ex.T0 + Ex.days 50) "c1" _ "Roof box" 350 (Ex.T0 + Ex.days 50) Hc)
    as [Hout Hin].
  split.
  - apply (Hout 1%Q). right. vm_compute. discriminate.
  - apply (Hin 0%nat). vm_compute. lia.
Defined.

Lemma X27_witness :
  exists db' s s',
    Store.addBuyerAccessory StoreEx.db7 (Some "u2") (Ex.T0 + Ex.days 50) "e4" "c1"
                            "Roof box" 350 (Ex.T0 + Ex.days 50) = inr db'
    /\ Store.getExpenseSummary StoreEx.db7 (Some "u2") "c1" = inr s
    /\ Store.getExpenseSummary db' (Some "u2") "c1" = inr s'
    /\ (Store.totalExpenses s == 2740)%Q
    /\ (Store.totalExpenses s' == 3090)%Q
    /\ Store.categoryTotals s' !! "accessories" = Some (300 + 350)%Q.
Proof.
  eexists.
  assert (H : Store.addBuyerAccessory StoreEx.db7 (Some "u2") (Ex.T0 + Ex.days 50) "e4" "c1"
                "Roof box" 350 (Ex.T0 + Ex.days 50) = inr _) by (vm_compute; reflexivity).
  destruct (X27_an_accessory_is_listed_and_recorded_as_an_expense _ _ _ _ _ _ _ _ _ H)
    as (c & c' & e & Hc & _ & _ & _ & _ & _ & _ & _ & s & s' & Hs & Hs' & _
        & Htot & Htot' & _ & Hacc).
  exists s, s'. split; [exact H|]. split; [exact Hs|]. split; [exact Hs'|].
  vm_compute in Hc. injection Hc as <-.
  split; [rewrite Htot; vm_compute; reflexivity|].
  split; [rewrite Htot'; vm_compute; reflexivity|].
  rewrite Hacc.
  assert (Hs0 : Store.getExpenseSummary StoreEx.db7 (Some "u2") "c1" = inr s) by exact Hs.
  vm_compute in Hs0. injection Hs0 as <-. reflexivity.
Defined.

Lemma X28_witness :
  exists c db' c',
    Store.getCar StoreEx.db7 (Some "u1") "c1" = inr c
    /\ Store.removeBuyerAccessory StoreEx.db7 (Some "u1") (Ex.T0 + Ex.days 50) "c1"
                                  (inject_Z (Z.of_nat 0)) = inr db'
    /\ Store.getCar db' (Some "u1") "c1" = inr c'
    /\ Store.accessoriesOf c' = []
    /\ List.map Store.expenseId (Store.expenses db') = ["e1"; "e2"].
Proof.
  eexists.
  assert (Hc : Store.getCar StoreEx.db7 (Some "u1") "c1" = inr _) by (vm_compute; reflexivity).
  destruct (X28_removing_an_accessory_removes_its_latest_expense StoreEx.db7 (Some "u1")
              (Ex.T0 + Ex.days 50) "c1" _ 0%nat _ db7_distinctIds Hc eq_refl)
    as (db' & c' & H & Hc' & Hacc & _).
  exists db', c'. split; [exact Hc|]. split; [exact H|]. split; [exact Hc'|].
  split; [rewrite Hacc; reflexivity|].
  vm_compute in H. injection H as <-. reflexivity.
Defined.

Lemma X29_witness :
  exists c db' c',
    Store.getCar StoreEx.db7 (Some "u1") "c1" = inr c
    /\ Store.updateBuyerAccessory StoreEx.db7 (Some "u1") (Ex.T0 + Ex.days 50) "c1"
         (inject_Z (Z.of_nat 0)) "Roof box" 350 (Ex.T0 + Ex.days 12) = inr db'
    /\ Store.getCar db' (Some "u1") "c1" = inr c'
    /\ Store.accessoriesOf c' !! 0%nat
       = Some (Store.mkAccessory "Roof box" 350 (Ex.T0 + Ex.days 12))
    /\ length (Store.expenses db') = 3%nat.
Proof.
  eexists.
  assert (Hc : Store.getCar StoreEx.db7 (Some "u1") "c1" = inr _) by (vm_compute; reflexivity).
  destruct (X29_updating_an_accessory_rewrites_its_latest_expense StoreEx.db7 (Some "u1")
              (Ex.T0 + Ex.days 50) "c1" _ 0%nat _ "Roof box" 350 (Ex.T0 + Ex.days 12)
              db7_distinctIds Hc eq_refl)
    as (db' & c' & H & Hc' & Hat & _ & _ & _ & Hlen & _).
  exists db', c'. split; [exact Hc|]. split; [exact H|]. split; [exact Hc'|].
  split; [exact Hat|]. rewrite Hlen. reflexivity.
Defined.

